(** * knit: a shallow embedding of the module resolver and the CLI layer

    The development follows the layout of the repository:

    - [GoStrings] and [Filepath]: the functions of Go's [strings] and
      [path/filepath] packages that the repository calls, on byte strings;
    - [Git]: [lib/git/main.go] ([GetChangedFiles], [sortByLengthDesc],
      [FindAffectedModuleDirs]);
    - [Analyser]: [lib/analyser/primitive.go] ([GetDependencyPaths]) over the
      adjacency map of the module graph;
    - [Runner]: the task execution engine ([lib/runner]);
    - [Utils]: [lib/utils/log.go] ([getColorForTask], which the logger calls
      with [--color]);
    - [Main]: [main.go] (the [test], [fmt], [affected] and [graph]
      commands and the exit code of the process).

    A Go [string] is a sequence of bytes, which is what [String.string] is;
    [len] is [String.length]. *)

From Stdlib Require Import Ascii String ZArith Lia Permutation Sorted DecimalString.
From stdpp Require Import base option list relations sets gmap strings.

#[local] Set Warnings "-clear-no-such-hyp".

Local Open Scope string_scope.
Local Open Scope list_scope.
Local Open Scope stdpp_scope.

(** ** Go's [strings] package *)

Module GoStrings.

(** [strings.HasPrefix(s, prefix)]. *)
Definition HasPrefix (s pre : string) : bool := String.prefix pre s.

(** [strings.Split(s, sep)] for a one-byte separator: the pieces between the
    occurrences of [sep], so one more piece than there are occurrences. *)
Fixpoint Split (s : string) (sep : ascii) : list string :=
  match s with
  | EmptyString => [EmptyString]
  | String c s' =>
      if Ascii.eqb c sep then EmptyString :: Split s' sep
      else match Split s' sep with
           | [] => [String c EmptyString]
           | w :: ws => String c w :: ws
           end
  end.

(** [strings.Join(elems, sep)]. *)
Fixpoint Join (elems : list string) (sep : string) : string :=
  match elems with
  | [] => EmptyString
  | [e] => e
  | e :: rest => e +:+ sep +:+ Join rest sep
  end.

(** The white space of [unicode.IsSpace], as UTF-8 byte sequences:
    the six ASCII bytes of [asciiSpace], U+0085 and U+00A0 (two bytes),
    U+1680, U+2000..U+200A, U+2028, U+2029, U+202F, U+205F and U+3000
    (three bytes). *)
Definition asciiSpace (c : nat) : bool :=
  (c =? 9)%nat || (c =? 10)%nat || (c =? 11)%nat || (c =? 12)%nat
  || (c =? 13)%nat || (c =? 32)%nat.

Definition space2 (c1 c2 : nat) : bool :=
  (c1 =? 194)%nat && ((c2 =? 133)%nat || (c2 =? 160)%nat).

Definition space3 (c1 c2 c3 : nat) : bool :=
  ((c1 =? 225)%nat && (c2 =? 154)%nat && (c3 =? 128)%nat)
  || ((c1 =? 226)%nat && (c2 =? 128)%nat
      && (((128 <=? c3)%nat && (c3 <=? 138)%nat)
          || (c3 =? 168)%nat || (c3 =? 169)%nat || (c3 =? 175)%nat))
  || ((c1 =? 226)%nat && (c2 =? 129)%nat && (c3 =? 159)%nat)
  || ((c1 =? 227)%nat && (c2 =? 128)%nat && (c3 =? 128)%nat).

(** [strings.TrimLeftFunc(s, unicode.IsSpace)] on the bytes of [s]: runes are
    dropped from the front while they are white space. A byte that starts no
    valid encoding decodes to U+FFFD, which is not white space. *)
Fixpoint trimLeft (bs : list nat) : list nat :=
  match bs with
  | c1 :: bs1 =>
      if asciiSpace c1 then trimLeft bs1
      else match bs1 with
           | c2 :: bs2 =>
               if space2 c1 c2 then trimLeft bs2
               else match bs2 with
                    | c3 :: bs3 => if space3 c1 c2 c3 then trimLeft bs3 else bs
                    | [] => bs
                    end
           | [] => bs
           end
  | [] => bs
  end.

(** [strings.TrimRightFunc(s, unicode.IsSpace)], on the reversed bytes: the
    last rune is found by walking back to its first byte. *)
Fixpoint trimRightRev (bs : list nat) : list nat :=
  match bs with
  | c1 :: bs1 =>
      if asciiSpace c1 then trimRightRev bs1
      else match bs1 with
           | c2 :: bs2 =>
               if space2 c2 c1 then trimRightRev bs2
               else match bs2 with
                    | c3 :: bs3 => if space3 c3 c2 c1 then trimRightRev bs3 else bs
                    | [] => bs
                    end
           | [] => bs
           end
  | [] => bs
  end.

Definition bytes_of (s : string) : list nat :=
  map nat_of_ascii (list_ascii_of_string s).

Definition of_bytes (bs : list nat) : string :=
  string_of_list_ascii (map ascii_of_nat bs).

(** [strings.TrimSpace(s)]: leading and trailing white space removed. *)
Definition TrimSpace (s : string) : string :=
  of_bytes (rev (trimRightRev (rev (trimLeft (bytes_of s))))).

(** [strings.SplitN(s, sep, 2)] for a one-byte separator: [s] cut at the
    first occurrence of [sep], or [s] alone when there is none. *)
Fixpoint SplitN2 (s : string) (sep : ascii) : list string :=
  match s with
  | EmptyString => [EmptyString]
  | String c s' =>
      if Ascii.eqb c sep then [EmptyString; s']
      else match SplitN2 s' sep with
           | [] => [String c EmptyString]
           | w :: ws => String c w :: ws
           end
  end.

(** [strings.LastIndex(s, sep)] for a one-byte separator: the index of the
    last occurrence of [sep] in [s], or -1. *)
Fixpoint LastIndex (s : string) (sep : ascii) : Z :=
  match s with
  | EmptyString => (-1)%Z
  | String c s' =>
      let i := LastIndex s' sep in
      if (i =? -1)%Z then (if Ascii.eqb c sep then 0%Z else (-1)%Z)
      else (i + 1)%Z
  end.

(** [s[n:]]. *)
Fixpoint from (n : nat) (s : string) : string :=
  match n, s with
  | O, _ => s
  | S n', String _ s' => from n' s'
  | S _, EmptyString => EmptyString
  end.

End GoStrings.

(** ** Go's [path/filepath] package (Unix) *)

Module Filepath.

Definition Separator : ascii := "/"%char.

(** One step of the loop of [filepath.Clean] on a path element: an empty
    element and [.] are dropped; [..] removes the element before it, is
    dropped at the root of a rooted path, and is kept at the front of a
    relative one; any other element is appended. [dotdot] counts the [..]
    elements kept at the front, [out] holds the elements after them, last one
    first. *)
Definition clean_step (rooted : bool) (st : nat * list string) (e : string)
  : nat * list string :=
  let '(dotdot, out) := st in
  if String.eqb e "" then st
  else if String.eqb e "." then st
  else if String.eqb e ".." then
    match out with
    | _ :: out' => (dotdot, out')
    | [] => if rooted then st else (S dotdot, out)
    end
  else (dotdot, e :: out).

(** [filepath.Clean(path)]. *)
Definition Clean (path : string) : string :=
  match path with
  | EmptyString => "."
  | String c _ =>
      let rooted := Ascii.eqb c Separator in
      let '(dotdot, out) :=
        foldl (clean_step rooted) (0%nat, []) (GoStrings.Split path Separator) in
      let elems := repeat ".." dotdot ++ rev out in
      if rooted then "/" +:+ GoStrings.Join elems "/"
      else match elems with
           | [] => "."
           | _ => GoStrings.Join elems "/"
           end
  end.

(** [filepath.Join(a, b)]: empty elements are ignored, the rest is joined
    with the separator and cleaned; the result is empty when both are. *)
Definition Join (a b : string) : string :=
  if String.eqb a "" then
    if String.eqb b "" then "" else Clean b
  else Clean (a +:+ "/" +:+ b).

End Filepath.

(** ** [lib/git/main.go] *)

Module Git.

(** A Go [error] is represented by its message; [fmt.Errorf("...: %w", err)]
    puts a prefix before the message of [err]. *)
Definition error : Type := string.

(** The two git commands the package runs, [git merge-base ref HEAD] and
    [git diff --name-only ref], each in a directory: what [cmd.Output()]
    returns. *)
Record Commands : Type := {
  merge_base_output : string -> string -> error + string;
  diff_output : string -> string -> error + string
}.

Definition getMergeBase (git : Commands) (ref dir : string) : error + string :=
  match merge_base_output git ref dir with
  | inl err => inl ("git merge-base failed: " +:+ err)
  | inr output => inr (GoStrings.TrimSpace output)
  end.

(** The end of [GetChangedFiles]: the output of [git diff] split into file
    paths. *)
Definition splitOutput (output : string) : list string :=
  let trimmed := GoStrings.TrimSpace output in
  if String.eqb trimmed "" then []
  else GoStrings.Split trimmed "010"%char.

Definition GetChangedFiles (git : Commands) (compareRef : string)
    (useMergeBase : bool) (dir : string) : error + list string :=
  let ref :=
    if useMergeBase then
      match getMergeBase git compareRef dir with
      | inl err => inl ("failed to get merge-base: " +:+ err)
      | inr mergeBase => inr mergeBase
      end
    else inr compareRef in
  match ref with
  | inl err => inl err
  | inr ref =>
      match diff_output git ref dir with
      | inl err => inl ("error executing git diff: " +:+ err)
      | inr output => inr (splitOutput output)
      end
  end.

(** The order [sortByLengthDesc] is after: [a] may stand before [b] when it
    is at least as long. *)
Definition longer (a b : string) : Prop :=
  (String.length b <= String.length a)%nat.

(** [len(strs[i])]; the loops below only read inside the slice. *)
Definition len_at (strs : list string) (i : nat) : nat :=
  from_option String.length 0%nat (strs !! i).

(** [strs[i], strs[j] = strs[j], strs[i]]. *)
Definition swap (i j : nat) (strs : list string) : list string :=
  match strs !! i, strs !! j with
  | Some a, Some b => <[i:=b]> (<[j:=a]> strs)
  | _, _ => strs
  end.

(** The inner loop of [sortByLengthDesc], [for j; j < len(strs); j++], with
    [n] iterations left. *)
Fixpoint sort_inner (n i j : nat) (strs : list string) : list string :=
  match n with
  | O => strs
  | S n' =>
      sort_inner n' i (S j)
        (if (len_at strs i <? len_at strs j)%nat then swap i j strs else strs)
  end.

(** The outer loop, [for i; i < len(strs)-1; i++], with [n] iterations
    left; the inner loop starts at [j := i + 1]. *)
Fixpoint sort_outer (n i : nat) (strs : list string) : list string :=
  match n with
  | O => strs
  | S n' =>
      sort_outer n' (S i) (sort_inner (length strs - S i) i (S i) strs)
  end.

(** [sortByLengthDesc(strs)]; the slice is sorted in place, the sorted slice
    is the result here. *)
Definition sortByLengthDesc (strs : list string) : list string :=
  sort_outer (length strs - 1) 0 strs.

(** The test of line 101:
    [strings.HasPrefix(absFile, modDir+string(filepath.Separator)) || absFile == modDir]. *)
Definition belongs (absFile modDir : string) : bool :=
  GoStrings.HasPrefix absFile (modDir +:+ String Filepath.Separator "")
  || String.eqb absFile modDir.

(** The path [absFile] is the directory [modDir] or lies under it: it goes
    on after the name of the directory with a separator. *)
Definition under (absFile modDir : string) : Prop :=
  absFile = modDir \/ exists rest, absFile = modDir +:+ "/" +:+ rest.

(** The inner loop of [FindAffectedModuleDirs]: the first directory of
    [sortedDirs] the file belongs to, where the loop breaks. *)
Definition owner (sortedDirs : list string) (absFile : string) : option string :=
  find (belongs absFile) sortedDirs.

(** The map [affectedDirs] after the loop over [changedFiles]. *)
Definition affectedDirs (changedFiles moduleDirs : list string)
    (workspaceRoot : string) : gmap string bool :=
  let sortedDirs := sortByLengthDesc moduleDirs in
  foldl (fun acc file =>
           let absFile := Filepath.Join workspaceRoot file in
           match owner sortedDirs absFile with
           | Some modDir => <[modDir:=true]> acc
           | None => acc
           end) ∅ changedFiles.

(** [FindAffectedModuleDirs] ranges over the keys of [affectedDirs] to build
    its result, and Go leaves the order of that iteration open: the call may
    return the keys in any order. *)
Definition FindAffectedModuleDirs_returns (changedFiles moduleDirs : list string)
    (workspaceRoot : string) (result : list string) : Prop :=
  result ≡ₚ elements (dom (affectedDirs changedFiles moduleDirs workspaceRoot)).

(** One of these orders, to run the function. *)
Definition FindAffectedModuleDirs (changedFiles moduleDirs : list string)
    (workspaceRoot : string) : list string :=
  elements (dom (affectedDirs changedFiles moduleDirs workspaceRoot)).

(** [extractRootDirectory]: the first of the at most two parts of the path;
    [SplitN] returns one part at least. *)
Definition extractRootDirectory (filePath : string) : string :=
  match GoStrings.SplitN2 filePath Filepath.Separator with
  | part :: _ => part
  | [] => ""
  end.

(** The map [affectedRootDirs] of [GetAffectedRootDirectories] after the
    loop over the changed files. *)
Definition affectedRootDirs (changedFiles : list string) : gmap string bool :=
  foldl (fun acc file =>
           let rootDir := extractRootDirectory file in
           if negb (String.eqb rootDir "") then <[rootDir:=true]> acc else acc)
        ∅ changedFiles.

(** What [GetAffectedRootDirectories] may return: the error of
    [GetChangedFiles] as it is, or the keys of the map in any order. *)
Definition GetAffectedRootDirectories_returns (git : Commands)
    (compareBranch dir : string) (r : error + list string) : Prop :=
  match GetChangedFiles git compareBranch false dir with
  | inl err => r = inl err
  | inr changedFiles =>
      exists result,
        result ≡ₚ elements (dom (affectedRootDirs changedFiles))
        /\ r = inr result
  end.

(** One of these orders, to run the function. *)
Definition GetAffectedRootDirectories (git : Commands)
    (compareBranch dir : string) : error + list string :=
  match GetChangedFiles git compareBranch false dir with
  | inl err => inl err
  | inr changedFiles => inr (elements (dom (affectedRootDirs changedFiles)))
  end.

End Git.

(** ** [lib/analyser/primitive.go] *)

Module Analyser.

Definition error : Type := string.

(** [Module], as [go list -m -json] prints it. *)
Record Module : Type := {
  Path : string;
  Main : bool;
  Dir : string;
  GoMod : string;
  GoVersion : string
}.

(** The module graph is a [graph.Graph[string, string]] of the library
    [dominikbraun/graph]; the traversal reads it through [AdjacencyMap()],
    which maps every vertex to the set of the targets of its edges. *)
Abbreviation Graph := (gmap string (gset string)).

(** [adjacencyMap[v]]; a missing key gives the empty map. *)
Definition adjacent (g : Graph) (v : string) : gset string :=
  default ∅ (g !! v).

(** An edge of the graph, and the vertices reachable along edges. *)
Definition edge (g : Graph) (u v : string) : Prop := v ∈ adjacent g u.

Definition reachable (g : Graph) (u v : string) : Prop := rtc (edge g) u v.

(** [graph.DFS(g, start, visit)]: a stack of vertices and the set of visited
    ones. [visit] is a closure; [A] is the state it captures, and it returns
    [true] to stop the traversal. The loop pops the top of the stack; a vertex
    not yet visited is visited, marked, and its adjacencies are pushed, in
    the order in which Go ranges over the map [adjacencyMap[currentHash]],
    which is any order. *)
Inductive dfs_config (A : Type) : Type :=
  | Loop (stack : list string) (visited : gset string) (acc : A)
  | Done (acc : A).
Arguments Loop {A} stack visited acc.
Arguments Done {A} acc.

Inductive dfs_step {A : Type} (g : Graph) (visit : string -> A -> A * bool)
  : dfs_config A -> dfs_config A -> Prop :=
  | dfs_empty visited acc :
      dfs_step g visit (Loop [] visited acc) (Done acc)
  | dfs_seen current rest visited acc :
      current ∈ visited ->
      dfs_step g visit (Loop (current :: rest) visited acc) (Loop rest visited acc)
  | dfs_stop current rest visited acc acc' :
      current ∉ visited ->
      visit current acc = (acc', true) ->
      dfs_step g visit (Loop (current :: rest) visited acc) (Done acc')
  | dfs_visit current rest visited acc acc' pushed :
      current ∉ visited ->
      visit current acc = (acc', false) ->
      pushed ≡ₚ elements (adjacent g current) ->
      dfs_step g visit (Loop (current :: rest) visited acc)
        (Loop (rev pushed ++ rest) ({[current]} ∪ visited) acc').

(** What holds of the traversal from [vertex] at every iteration with the
    visitor of [GetDependencyPaths]: the stack and the visited set hold
    reachable vertices only, the start is on the stack or visited, every
    edge out of a visited vertex leads to the stack or to a visited
    vertex, and the collected paths are the visited vertices but [vertex],
    once each. *)
Definition dfs_inv (g : Graph) (vertex : string)
    (c : dfs_config (list string)) : Prop :=
  match c with
  | Loop stack visited acc =>
      (forall v, v ∈ stack \/ v ∈ visited -> reachable g vertex v)
      /\ (vertex ∈ visited \/ vertex ∈ stack)
      /\ (forall u v, u ∈ visited -> edge g u v -> v ∈ visited \/ v ∈ stack)
      /\ NoDup acc
      /\ (forall v, v ∈ acc <-> v ∈ visited /\ v <> vertex)
  | Done acc =>
      NoDup acc /\ (forall v, v ∈ acc <-> reachable g vertex v /\ v <> vertex)
  end.

(** The same loop with the adjacencies pushed in the order of [elements],
    and [fuel] iterations at most. *)
Fixpoint dfs_loop {A : Type} (fuel : nat) (g : Graph)
    (visit : string -> A -> A * bool)
    (stack : list string) (visited : gset string) (acc : A) : option A :=
  match fuel with
  | O => None
  | S fuel' =>
      match stack with
      | [] => Some acc
      | current :: rest =>
          if decide (current ∈ visited) then
            dfs_loop fuel' g visit rest visited acc
          else
            let '(acc', stop) := visit current acc in
            if stop then Some acc'
            else dfs_loop fuel' g visit
                   (rev (elements (adjacent g current)) ++ rest)
                   ({[current]} ∪ visited) acc'
      end
  end.

(** The number of edges that leave the vertices of [vs]. *)
Definition edges_from (g : Graph) (vs : gset string) : nat :=
  sum_list_with (fun v => size (adjacent g v)) (elements vs).

(** Every vertex is pushed once at the start or once per edge into it, and
    every iteration pops one: this many iterations are enough. *)
Definition dfs_fuel (g : Graph) : nat := 2 + edges_from g (dom g).

(** The visitor of [GetDependencyPaths]: the closure appends to
    [dependencyPaths] every vertex but the starting one, and never stops. *)
Definition visitor (vertex : string) (v : string) (dependencyPaths : list string)
  : list string * bool :=
  (if decide (v = vertex) then dependencyPaths else dependencyPaths ++ [v], false).

Definition DFS_error (start : string) : error :=
  "could not find start vertex with hash " +:+ start.

Definition GetDependencyPaths_error (vertex : string) : error :=
  "failed to perform DFS for vertex " +:+ vertex +:+ ": " +:+ DFS_error vertex.

(** What a call of [GetDependencyPaths(g, vertex)] may return: the error of
    [graph.DFS] when the vertex is not in the graph, and otherwise the
    paths collected by a run of the traversal. *)
Definition GetDependencyPaths_returns (g : Graph) (vertex : string)
    (r : error + list string) : Prop :=
  match g !! vertex with
  | None => r = inl (GetDependencyPaths_error vertex)
  | Some _ =>
      exists paths,
        rtc (dfs_step g (visitor vertex)) (Loop [vertex] ∅ []) (Done paths)
        /\ r = inr paths
  end.

(** [GetDependencyPaths], run with the order of [elements]. *)
Definition GetDependencyPaths (g : Graph) (vertex : string) : error + list string :=
  match g !! vertex with
  | None => inl (GetDependencyPaths_error vertex)
  | Some _ =>
      match dfs_loop (dfs_fuel g) g (visitor vertex) [vertex] ∅ [] with
      | Some paths => inr paths
      | None => inl "traversal did not finish"
      end
  end.

(** [Package], as [go list -json] prints it. [Module] is a pointer: it is
    nil for a package that belongs to no module. *)
Module Package.
Record t : Type := {
  Dir : string;
  ImportPath : string;
  Name : string;
  Module : option Module;
  Imports : list string
}.
End Package.

(** [workspaceModules[mod]]: [false] for a missing key. *)
Definition in_workspace (workspaceModules : gmap string bool) (mod' : string) : bool :=
  default false (workspaceModules !! mod').

(** The test of the loop of [findModuleForImport]:
    [strings.HasPrefix(importPath, modPath+"/") || importPath == modPath]. *)
Definition imports_from (importPath modPath : string) : bool :=
  GoStrings.HasPrefix importPath (modPath +:+ "/") || String.eqb importPath modPath.

(** [findModuleForImport], with the keys of [workspaceModules] ranged over in
    the order [order]: the module of the package scan when it is a workspace
    module, else the first key the import path starts with, else the empty
    string. *)
Definition findModuleForImport_in (order : list string) (importPath : string)
    (importToModule : gmap string string) (workspaceModules : gmap string bool)
  : string :=
  let scan := default "" (find (imports_from importPath) order) in
  match importToModule !! importPath with
  | Some mod' => if in_workspace workspaceModules mod' then mod' else scan
  | None => scan
  end.

(** Go leaves the order of the keys open, so this is what a call may
    return. *)
Definition findModuleForImport_returns (importPath : string)
    (importToModule : gmap string string) (workspaceModules : gmap string bool)
    (r : string) : Prop :=
  exists order,
    order ≡ₚ elements (dom workspaceModules)
    /\ r = findModuleForImport_in order importPath importToModule workspaceModules.

(** One of these orders, to run the function. *)
Definition findModuleForImport (importPath : string)
    (importToModule : gmap string string) (workspaceModules : gmap string bool)
  : string :=
  findModuleForImport_in (elements (dom workspaceModules)) importPath
    importToModule workspaceModules.

(** [g.AddVertex(v)] of the graph library: a new vertex has no edge; for a
    vertex that exists the call fails and the graph stays as it is
    ([BuildDependencyGraph] drops the error). *)
Definition AddVertex (g : Graph) (v : string) : Graph :=
  match g !! v with
  | Some _ => g
  | None => <[v := ∅]> g
  end.

(** [g.AddEdge(src, dst)] of the graph library, for a graph built with
    [graph.Directed()] and [graph.Acyclic()] (the latter records the trait;
    edges are checked for cycles only with [graph.PreventCycles()]): the
    call fails, and the graph stays as it is, when a vertex is missing or
    the edge exists. *)
Definition AddEdge (g : Graph) (src dst : string) : Graph :=
  match g !! src, g !! dst with
  | Some adj, Some _ => <[src := {[dst]} ∪ adj]> g
  | _, _ => g
  end.

(** The first loop of [BuildDependencyGraph]: the set of workspace module
    paths and the vertices of the graph. *)
Definition workspaceModules (modules : list Module) : gmap string bool :=
  foldl (fun acc m => <[Path m := true]> acc) ∅ modules.

Definition vertices (modules : list Module) : Graph :=
  foldl (fun g m => AddVertex g (Path m)) ∅ modules.

(** [importToModule]: the module of every package that has one. *)
Definition importToModule (packages : list Package.t) : gmap string string :=
  foldl (fun acc pkg =>
           match Package.Module pkg with
           | Some m => <[Package.ImportPath pkg := Path m]> acc
           | None => acc
           end) ∅ packages.

(** [moduleDeps] before the packages are read: an empty set per module. *)
Definition moduleDeps_init (modules : list Module) : gmap string (gset string) :=
  foldl (fun acc m => <[Path m := ∅]> acc) ∅ modules.

(** The body of the loop over the imports of a package of [srcModule]:
    [moduleDeps[srcModule][depModule] = true] when the import resolves to
    another module. ([srcModule] is a key: it is a workspace module.) *)
Definition add_dep (srcModule depModule : string)
    (moduleDeps : gmap string (gset string)) : gmap string (gset string) :=
  if negb (String.eqb depModule "") && negb (String.eqb depModule srcModule)
  then <[srcModule := {[depModule]} ∪ default ∅ (moduleDeps !! srcModule)]> moduleDeps
  else moduleDeps.

(** The loop over the imports of one package; every import is resolved by a
    call of [findModuleForImport]. *)
Inductive scan_imports (itm : gmap string string) (wm : gmap string bool)
    (srcModule : string)
  : list string -> gmap string (gset string) -> gmap string (gset string) -> Prop :=
  | scan_imports_nil deps :
      scan_imports itm wm srcModule [] deps deps
  | scan_imports_cons imp imps deps deps' depModule :
      findModuleForImport_returns imp itm wm depModule ->
      scan_imports itm wm srcModule imps (add_dep srcModule depModule deps) deps' ->
      scan_imports itm wm srcModule (imp :: imps) deps deps'.

(** The loop over the packages: a package without module, or of a module
    outside the workspace, is skipped. *)
Inductive scan_packages (itm : gmap string string) (wm : gmap string bool)
  : list Package.t -> gmap string (gset string) -> gmap string (gset string) -> Prop :=
  | scan_packages_nil deps :
      scan_packages itm wm [] deps deps
  | scan_packages_no_module pkg pkgs deps deps' :
      Package.Module pkg = None ->
      scan_packages itm wm pkgs deps deps' ->
      scan_packages itm wm (pkg :: pkgs) deps deps'
  | scan_packages_outside pkg pkgs m deps deps' :
      Package.Module pkg = Some m ->
      in_workspace wm (Path m) = false ->
      scan_packages itm wm pkgs deps deps' ->
      scan_packages itm wm (pkg :: pkgs) deps deps'
  | scan_packages_inside pkg pkgs m deps deps1 deps' :
      Package.Module pkg = Some m ->
      in_workspace wm (Path m) = true ->
      scan_imports itm wm (Path m) (Package.Imports pkg) deps deps1 ->
      scan_packages itm wm pkgs deps1 deps' ->
      scan_packages itm wm (pkg :: pkgs) deps deps'.

(** Where an entry of [moduleDeps] comes from: [v] is the module of a
    package of the workspace, and one of the imports of the package may
    resolve to [u]. *)
Definition import_edge (itm : gmap string string) (wm : gmap string bool)
    (packages : list Package.t) (v u : string) : Prop :=
  exists pkg m imp,
    pkg ∈ packages
    /\ Package.Module pkg = Some m
    /\ Path m = v
    /\ in_workspace wm v = true
    /\ imp ∈ Package.Imports pkg
    /\ findModuleForImport_returns imp itm wm u.

(** The same two loops with [findModuleForImport] run in the order of
    [elements]. *)
Definition scan_imports_run (itm : gmap string string) (wm : gmap string bool)
    (srcModule : string) (imps : list string)
    (deps : gmap string (gset string)) : gmap string (gset string) :=
  foldl (fun deps imp => add_dep srcModule (findModuleForImport imp itm wm) deps)
        deps imps.

Definition scan_packages_run (itm : gmap string string) (wm : gmap string bool)
    (pkgs : list Package.t) (deps : gmap string (gset string))
  : gmap string (gset string) :=
  foldl (fun deps pkg =>
           match Package.Module pkg with
           | None => deps
           | Some m =>
               if in_workspace wm (Path m)
               then scan_imports_run itm wm (Path m) (Package.Imports pkg) deps
               else deps
           end) deps pkgs.

(** The last loop: an edge per entry of [moduleDeps]. The maps are ranged
    over in any order; the edges added are the same. *)
Definition add_edges (g : Graph) (moduleDeps : gmap string (gset string)) : Graph :=
  foldl (fun g entry =>
           foldl (fun g depModule => AddEdge g entry.1 depModule) g
                 (elements entry.2))
        g (map_to_list moduleDeps).

(** What [BuildDependencyGraph] may return, given what [ListPackages]
    returns for the workspace ([listed]; it is not called when there are no
    modules). *)
Definition BuildDependencyGraph_returns (modules : list Module)
    (listed : error + list Package.t) (r : error + Graph) : Prop :=
  match modules with
  | [] => r = inr ∅
  | _ :: _ =>
      match listed with
      | inl e => r = inl ("failed to list packages: " +:+ e)
      | inr packages =>
          exists moduleDeps,
            scan_packages (importToModule packages) (workspaceModules modules)
              packages (moduleDeps_init modules) moduleDeps
            /\ r = inr (add_edges (vertices modules) moduleDeps)
      end
  end.

(** [BuildDependencyGraph], run with the orders of [elements]. *)
Definition BuildDependencyGraph (modules : list Module)
    (listed : error + list Package.t) : error + Graph :=
  match modules with
  | [] => inr ∅
  | _ :: _ =>
      match listed with
      | inl e => inl ("failed to list packages: " +:+ e)
      | inr packages =>
          inr (add_edges (vertices modules)
                 (scan_packages_run (importToModule packages)
                    (workspaceModules modules) packages (moduleDeps_init modules)))
      end
  end.

End Analyser.

(** ** [lib/runner]: the task execution engine *)

Module Runner.

(** [runner.Task], as [createTasks] of [main.go] fills it. *)
Record Task : Type := {
  Id : string;
  Cmd : string;
  Root : string
}.

(** The result delivered on [tf.Done]; [handleTaskFuture] reads its
    [Status]. *)
Record Result : Type := { Status : Z }.

(** Modelled from the spec: the per-task lifecycle of §4.1,
    [Queued → Running → {Succeeded, Failed, Killed}]; the package
    [lib/runner] itself is not part of the sources at hand. A task that
    failed carries the exit status of its process. *)
Inductive TaskState : Type :=
  | Queued
  | Running
  | Succeeded
  | Failed (exitStatus : Z)
  | Killed.

(** Modelled from the spec: the status reported for a task killed by
    cancellation or whose process could not be started is a non-zero
    sentinel (§3, §4.1); [lib/runner] is missing, [-1] is chosen here. *)
Definition sentinel : Z := (-1)%Z.

(** Modelled from the spec: the terminal Result of a task (§3, §4.1: success
    is [exitStatus == 0]); none while the task is queued or running. *)
Definition result_of (s : TaskState) : option Result :=
  match s with
  | Queued | Running => None
  | Succeeded => Some {| Status := 0 |}
  | Failed exitStatus => Some {| Status := exitStatus |}
  | Killed => Some {| Status := sentinel |}
  end.

(** Modelled from the spec: the cancellable execution context given to the
    constructor (§4.1); only whether it has been cancelled matters. *)
Record Context : Type := { cancelled : bool }.

(** Modelled from the spec: the scheduler state of §3, a concurrency ceiling
    fixed at construction, the shared cancellation signal, and the submitted
    tasks with their states (the running-task count is the number of tasks
    in state [Running]). *)
Record Runner : Type := {
  ceiling : Z;
  ctx : Context;
  slots : list (Task * TaskState)
}.

(** Modelled from the spec: the Live Result Handle of §3, with the
    identifier copied from the descriptor; [slot] is the place in the engine
    where the streams and the completion of its task are observed. *)
Record TaskFuture : Type := {
  future_Id : string;
  slot : nat
}.

(** Modelled from the spec: the construction error of §4.1 and §6, the only
    fatal condition of the engine (§7), raised for an invalid ceiling;
    [lib/runner] is missing. *)
Inductive ConstructionError : Type :=
  | InvalidConcurrency (n : Z).

(** Modelled from the spec: [NewEngine(cancelContext, concurrency) →
    Engine | ConstructionError] (§6), which "fails fast (construction error)
    if N < 1" (§4.1). [main] calls it as [runner.NewRunner(ctx, 3)]. *)
Definition NewRunner (c : Context) (concurrency : Z) : ConstructionError + Runner :=
  if (concurrency <? 1)%Z then inl (InvalidConcurrency concurrency)
  else inr {| ceiling := concurrency; ctx := c; slots := [] |}.

(** Modelled from the spec: [RunTasks(tasks)] (§4.1, §6) queues every task
    and returns at once one handle per task, in the order of the input; no
    process is started by the call itself, admission is a later step of
    the engine. *)
Definition RunTasks (e : Runner) (tasks : list Task) : Runner * list TaskFuture :=
  ({| ceiling := ceiling e; ctx := ctx e;
      slots := slots e ++ map (fun t => (t, Queued)) tasks |},
   imap (fun i t => {| future_Id := Id t; slot := length (slots e) + i |}) tasks).

(** Modelled from the spec: a task is [Running] from the start of its
    process to its exit (§4.1); [lib/runner] is missing. *)
Definition is_running (s : Task * TaskState) : bool :=
  match s.2 with Running => true | _ => false end.

(** Modelled from the spec: the count of currently-running tasks of the
    scheduler state (§3); [lib/runner] is missing. *)
Definition running (e : Runner) : nat := length (filter is_running (slots e)).

(** Modelled from the spec: the state of one task changes, nothing else
    does (tasks are isolated from each other, §7); [lib/runner] is
    missing. *)
Definition set_state (i : nat) (s : TaskState) (e : Runner) : Runner :=
  {| ceiling := ceiling e; ctx := ctx e;
     slots := alter (fun ts => (ts.1, s)) i (slots e) |}.

(** Modelled from the spec: the lifecycle state of the task a handle stands
    for (§4.1); [lib/runner] is missing. *)
Definition state_at (e : Runner) (i : nat) : option TaskState :=
  snd <$> slots e !! i.

(** Modelled from the spec: the moves of the engine (§4.1). A queued task is
    admitted, its process started, only when a gate slot is free and the
    engine is not cancelled; a process that cannot be started gives a
    terminal Result at once; a running process exits with a status;
    cancellation is signalled once, after which running tasks are killed
    and waiting ones are resolved as killed. *)
Inductive step : Runner -> Runner -> Prop :=
  | step_admit e i :
      state_at e i = Some Queued ->
      cancelled (ctx e) = false ->
      (Z.of_nat (running e) < ceiling e)%Z ->
      step e (set_state i Running e)
  | step_start_failure e i :
      state_at e i = Some Queued ->
      cancelled (ctx e) = false ->
      (Z.of_nat (running e) < ceiling e)%Z ->
      step e (set_state i (Failed sentinel) e)
  | step_exit e i (exitStatus : Z) :
      state_at e i = Some Running ->
      step e (set_state i (if (exitStatus =? 0)%Z then Succeeded else Failed exitStatus) e)
  | step_cancel e :
      cancelled (ctx e) = false ->
      step e {| ceiling := ceiling e; ctx := {| cancelled := true |}; slots := slots e |}
  | step_kill e i :
      cancelled (ctx e) = true ->
      (state_at e i = Some Running \/ state_at e i = Some Queued) ->
      step e (set_state i Killed e).

End Runner.

(** ** [lib/utils/log.go] *)

Module Utils.

(** [taskColors], the ANSI colours tasks are told apart by; [\033] is the
    byte 27. *)
Definition taskColors : list string :=
  [String "027" "[36m"; String "027" "[33m"; String "027" "[35m";
   String "027" "[32m"; String "027" "[34m"; String "027" "[91m";
   String "027" "[92m"; String "027" "[93m"; String "027" "[94m";
   String "027" "[95m"; String "027" "[96m"].

(** [hash/fnv], [New32a]: the 32-bit FNV-1a hash. [Write] folds the bytes
    into the hash, [hash ^= b; hash *= prime32], in [uint32]. *)
Definition offset32 : Z := 2166136261.
Definition prime32 : Z := 16777619.

Definition fnv32a_Write (hash : Z) (data : list Z) : Z :=
  foldl (fun hash b => ((Z.lxor hash b * prime32) mod 2 ^ 32)%Z) hash data.

(** [[]byte(id)]. *)
Definition bytes (id : string) : list Z :=
  (fun c => Z.of_nat (nat_of_ascii c)) <$> list_ascii_of_string id.

(** [h := fnv.New32a(); h.Write([]byte(id)); h.Sum32()]. *)
Definition Sum32 (id : string) : Z := fnv32a_Write offset32 (bytes id).

(** [int(x)] for a [uint32] [x], where [int] has [intBits] bits (32 or 64,
    by the platform): the value wraps around into the signed range. *)
Definition int_of_uint32 (intBits : Z) (x : Z) : Z :=
  ((x + 2 ^ (intBits - 1)) mod 2 ^ intBits - 2 ^ (intBits - 1))%Z.

(** [idx := int(h.Sum32()) % len(taskColors)]; Go's [%] truncates towards
    zero, as [Z.rem] does. *)
Definition colorIndex (intBits : Z) (id : string) : Z :=
  Z.rem (int_of_uint32 intBits (Sum32 id)) (Z.of_nat (length taskColors)).

(** [getColorForTask], on the map [taskColorMap] it reads and updates (the
    mutex is held throughout). [None]: the index is out of range and the
    program panics. *)
Definition getColorForTask (intBits : Z) (id : string)
    (taskColorMap : gmap string string) : option (string * gmap string string) :=
  match taskColorMap !! id with
  | Some color => Some (color, taskColorMap)
  | None =>
      let idx := colorIndex intBits id in
      if (idx <? 0)%Z then None
      else match taskColors !! Z.to_nat idx with
           | Some color => Some (color, <[id := color]> taskColorMap)
           | None => None
           end
  end.

End Utils.

(** ** [main.go] *)

Module Main.

Definition error : Type := string.

(** A Go slice of strings is [nil] or holds elements; [len] of a nil slice is
    0 and ranging over it visits nothing. *)
Definition slice : Type := option (list string).

Definition len (s : slice) : nat := length (default [] s).

Definition range (s : slice) : list string := default [] s.

#[local] Unset Elimination Schemes.
(** The JSON documents [encoding/json] writes for the values at hand. *)
Inductive JSON : Type :=
  | JNull
  | JString (s : string)
  | JArray (items : list JSON)
  | JObject (fields : list (string * JSON)).
#[local] Set Elimination Schemes.

(** [json.Marshal] of a [[]string]: [null] for a nil slice, an array of
    strings otherwise. *)
Definition marshal_strings (s : slice) : JSON :=
  match s with
  | None => JNull
  | Some l => JArray (JString <$> l)
  end.

(** [MatrixOutput], the struct declared in [outputAffected], and
    [json.Marshal] of it: one field, under the key of its tag. *)
Record MatrixOutput : Type := { Module : slice }.

Definition marshal_matrix (m : MatrixOutput) : JSON :=
  JObject [("module", marshal_strings (Module m))].

(** What arrives on the three channels of a [TaskFuture], in the order in
    which the [select] of [handleTaskFuture] takes it. *)
Inductive Received : Type :=
  | FromStdout (output : string) (ok : bool)
  | FromStderr (output : string) (ok : bool)
  | FromDone (result : Runner.Result).

(** What the commands do that can be seen from outside: lines and documents
    printed, the calls of the logger of [lib/utils] (it prints the elapsed
    time, the identifier and the message), and the batch handed to the
    engine. *)
Inductive Event : Type :=
  | Println (line : string)
  | PrintJSON (doc : JSON)
  | PrintGraph (format : string) (modules : list Analyser.Module)
      (adjMap : Analyser.Graph)
  | RunTasksCalled (tasks : list Runner.Task)
  | LogWithTaskId (id msg : string)
  | LogStatus (id status : string) (isSuccess : bool).

(** Everything outside the process: [filepath.Abs], the [go list] commands
    behind [ListModule] and [BuildDependencyGraph], the git commands, and
    what each future delivers. *)
Record World : Type := {
  Abs : string -> error + string;
  ListModule : string -> error + list Analyser.Module;
  git : Git.Commands;
  BuildDependencyGraph : list Analyser.Module -> error + Analyser.Graph;
  received : nat -> list Received
}.

(** [%d] of [fmt.Sprintf]. *)
Definition format_d (n : Z) : string :=
  DecimalString.NilZero.string_of_int (Z.to_int n).

Definition createTasks (modules : list Analyser.Module) (cmd : string)
  : list Runner.Task :=
  (fun module => {| Runner.Id := Analyser.Path module;
                    Runner.Cmd := cmd;
                    Runner.Root := Analyser.Dir module |}) <$> modules.

Definition handleOutput (id output : string) (ok : bool) : list Event :=
  if negb ok then []
  else if (0 <? String.length output)%nat then [LogWithTaskId id output]
  else [].

(** The loop of [handleTaskFuture]: output is logged until a result arrives
    on [Done], whose status is logged; the function returns then. [None]:
    the loop is still waiting when nothing more arrives. *)
Fixpoint handleTaskFuture (id : string) (rs : list Received) : option (list Event) :=
  match rs with
  | [] => None
  | FromStdout stdout ok :: rs' =>
      app (handleOutput id stdout ok) <$> handleTaskFuture id rs'
  | FromStderr stderr ok :: rs' =>
      app (handleOutput id stderr ok) <$> handleTaskFuture id rs'
  | FromDone result :: _ =>
      let isSuccess := (Runner.Status result =? 0)%Z in
      let statusMsg :=
        if isSuccess then "✓ Done"
        else "✗ Failed (exit " +:+ format_d (Runner.Status result) +:+ ")" in
      Some [LogStatus id statusMsg isSuccess]
  end.

(** The result [handleTaskFuture] takes from [tf.Done]: the first one that
    arrives. *)
Fixpoint delivered (rs : list Received) : option Runner.Result :=
  match rs with
  | [] => None
  | FromDone result :: _ => Some result
  | _ :: rs' => delivered rs'
  end.

(** [runOnModules]: the tasks are handed to the engine, one goroutine per
    future logs what it delivers, and the function returns (nothing) once
    all of them have returned. The events of the goroutines are kept one
    list per future, in the order of the futures; on the terminal they
    interleave. *)
Definition runOnModules (w : World) (r : Runner.Runner) (cmd : string)
    (modules : list Analyser.Module) : option (list Event * list (list Event)) :=
  let tasks := createTasks modules cmd in
  let tfs := (Runner.RunTasks r tasks).2 in
  logs ← mapM (fun tf => handleTaskFuture (Runner.future_Id tf)
                           (received w (Runner.slot tf))) tfs;
  Some ([RunTasksCalled tasks], logs).

(** [moduleDirToPath], filled in the order of the modules. *)
Definition moduleDirToPath (modules : list Analyser.Module) : gmap string string :=
  foldl (fun acc m => <[Analyser.Dir m := Analyser.Path m]> acc) ∅ modules.

(** The flags of the [test] and [fmt] commands. *)
Record Flags : Type := {
  defaultDir : string;
  target : string;
  affected : bool;
  base : string;
  useColor : bool
}.

(** What an action leaves behind: the events of the main goroutine, those of
    the goroutines per future, and the error it returns ([nil] is [None]). *)
Record Outcome : Type := {
  events : list Event;
  task_events : list (list Event);
  err : option error
}.

Definition failed (e : error) : Outcome :=
  {| events := []; task_events := []; err := Some e |}.

(** The [--affected] filter of the action of [createCommand]: the modules
    whose path is that of an affected directory, in the order of [modules].
    The set [affectedPaths] does not depend on the order in which
    [FindAffectedModuleDirs] returns the directories. *)
Definition affectedPaths (modules : list Analyser.Module)
    (affectedDirs : list string) : gset string :=
  foldl (fun acc dir =>
           match moduleDirToPath modules !! dir with
           | Some path => {[path]} ∪ acc
           | None => acc
           end) ∅ affectedDirs.

Definition affectedModules (modules : list Analyser.Module)
    (changedFiles : list string) (absPath : string) : list Analyser.Module :=
  let moduleDirs := Analyser.Dir <$> modules in
  let affectedDirs := Git.FindAffectedModuleDirs changedFiles moduleDirs absPath in
  filter (fun m => Analyser.Path m ∈ affectedPaths modules affectedDirs) modules.

(** The [--target] filter. *)
Definition filteredModule (target : string) (modulesToRun : list Analyser.Module)
  : list Analyser.Module :=
  filter (fun m => Analyser.Path m = target) modulesToRun.

(** The action of [createCommand], for the commands [fmt] and [test].
    [None]: the action does not return. *)
Definition commandAction (w : World) (r : Runner.Runner) (cmd : string)
    (f : Flags) : option Outcome :=
  match Abs w (defaultDir f) with
  | inl e => Some (failed ("failed to get absolute path: " +:+ e))
  | inr absPath =>
  match ListModule w absPath with
  | inl e => Some (failed e)
  | inr modules =>
      let filtered : Outcome + list Analyser.Module :=
        if affected f then
          match Git.GetChangedFiles (git w) (base f) true absPath with
          | inl e => inl (failed ("failed to get changed files: " +:+ e))
          | inr changedFiles =>
              let modulesToRun := affectedModules modules changedFiles absPath in
              if (length modulesToRun =? 0)%nat then
                inl {| events := [Println "No affected modules found"];
                       task_events := []; err := None |}
              else inr modulesToRun
          end
        else inr modules in
      match filtered with
      | inl outcome => Some outcome
      | inr modulesToRun =>
          let modulesToRun :=
            if negb (String.eqb (target f) "") then
              filteredModule (target f) modulesToRun
            else modulesToRun in
          match runOnModules w r cmd modulesToRun with
          | Some (evs, logs) =>
              Some {| events := evs; task_events := logs; err := None |}
          | None => None
          end
      end
  end
  end.

(** [main]: [log.Fatal(err)] ends the process with status 1 when the
    action returns an error; otherwise [main] returns and the status is 0. *)
Definition exitCode (o : Outcome) : Z :=
  match err o with
  | Some _ => 1
  | None => 0
  end.

(** The set-up of the action of [createCommand]: the modules
    [runOnModules] is called with, or the outcome with which the action
    returns before it gets there. *)
Definition modulesToRun (w : World) (f : Flags) : Outcome + list Analyser.Module :=
  match Abs w (defaultDir f) with
  | inl e => inl (failed ("failed to get absolute path: " +:+ e))
  | inr absPath =>
  match ListModule w absPath with
  | inl e => inl (failed e)
  | inr modules =>
      let filtered : Outcome + list Analyser.Module :=
        if affected f then
          match Git.GetChangedFiles (git w) (base f) true absPath with
          | inl e => inl (failed ("failed to get changed files: " +:+ e))
          | inr changedFiles =>
              let modulesToRun := affectedModules modules changedFiles absPath in
              if (length modulesToRun =? 0)%nat then
                inl {| events := [Println "No affected modules found"];
                       task_events := []; err := None |}
              else inr modulesToRun
          end
        else inr modules in
      match filtered with
      | inl outcome => inl outcome
      | inr modulesToRun =>
          inr (if negb (String.eqb (target f) "") then
                 filteredModule (target f) modulesToRun
               else modulesToRun)
      end
  end
  end.

(** The calls of the logger the goroutine of a future makes, as far as its
    loop gets: those of [handleTaskFuture] when it returns, and otherwise
    those it makes before it waits for what never arrives. *)
Fixpoint logged (id : string) (rs : list Received) : list Event :=
  match rs with
  | [] => []
  | FromStdout stdout ok :: rs' => handleOutput id stdout ok ++ logged id rs'
  | FromStderr stderr ok :: rs' => handleOutput id stderr ok ++ logged id rs'
  | FromDone result :: _ =>
      let isSuccess := (Runner.Status result =? 0)%Z in
      let statusMsg :=
        if isSuccess then "✓ Done"
        else "✗ Failed (exit " +:+ format_d (Runner.Status result) +:+ ")" in
      [LogStatus id statusMsg isSuccess]
  end.

(** The task a call of the logger is about. *)
Definition logged_id (ev : Event) : option string :=
  match ev with
  | LogWithTaskId id _ | LogStatus id _ _ => Some id
  | _ => None
  end.

(** One call of the logger of [lib/utils]. [LogWithTaskId] (at the level
    [INFO], which [LOG_LEVEL] lets through) and [LogStatus] ask
    [getColorForTask] for the colour of the task when [IsColorEnabled()],
    and print. [None]: [getColorForTask] panics. *)
Definition logger_call (intBits : Z) (colorEnabled : bool)
    (taskColorMap : gmap string string) (ev : Event) : option (gmap string string) :=
  match ev with
  | LogWithTaskId id _ | LogStatus id _ _ =>
      if colorEnabled then snd <$> Utils.getColorForTask intBits id taskColorMap
      else Some taskColorMap
  | _ => Some taskColorMap
  end.

(** Calls of the logger one after the other (the mutex of [getColorForTask]
    orders them), up to the first that panics. *)
Fixpoint logger_run (intBits : Z) (colorEnabled : bool)
    (taskColorMap : gmap string string) (calls : list Event)
  : option (gmap string string) :=
  match calls with
  | [] => Some taskColorMap
  | ev :: calls' =>
      match logger_call intBits colorEnabled taskColorMap ev with
      | Some taskColorMap' => logger_run intBits colorEnabled taskColorMap' calls'
      | None => None
      end
  end.

(** [main] for [knit test] and [knit fmt], where [int] has [intBits] bits:
    the engine is built with a ceiling of 3 and the action of the command
    is run, which starts with [utils.SetColorEnabled(useColor)].
    [taskColorMap] is empty when the process starts. The goroutines of the
    futures make their calls of the logger before [wg.Wait()] returns; the
    calls are taken future by future here, on the terminal they interleave.
    A panic in any goroutine ends the process with the exit status 2,
    whatever the other goroutines wait for. Without a panic the exit status
    is that of [exitCode] once the action returns. What [lib/runner] logs
    itself is not in the sources and is left out. *)
Definition main (intBits : Z) (w : World) (c : Runner.Context) (cmd : string)
    (f : Flags) : option Z :=
  match Runner.NewRunner c 3 with
  | inl _ => Some 1%Z
  | inr r =>
      match modulesToRun w f with
      | inl outcome => Some (exitCode outcome)
      | inr modules =>
          let tfs := (Runner.RunTasks r (createTasks modules cmd)).2 in
          let calls :=
            mjoin ((fun tf => logged (Runner.future_Id tf)
                                (received w (Runner.slot tf))) <$> tfs) in
          match logger_run intBits (useColor f) ∅ calls with
          | None => Some 2%Z
          | Some _ => exitCode <$> commandAction w r cmd f
          end
      end
  end.

Definition printed (evs : list Event) : Outcome :=
  {| events := evs; task_events := []; err := None |}.

(** [OutputFormat] is a string type, with the constants [FormatList],
    [FormatGoArgs] and [FormatGitHubMatrix]. *)
Definition FormatList : string := "list".
Definition FormatGoArgs : string := "go-args".
Definition FormatGitHubMatrix : string := "github-matrix".

(** [outputAffected]; [PrintJSON doc] stands for
    [fmt.Println(string(data))], where [data] is what [json.Marshal] writes
    for [doc] ([Marshal] does not fail on a struct of strings). *)
Definition outputAffected (modules : slice) (format : string) : Outcome :=
  if String.eqb format FormatList then
    printed (Println <$> range modules)
  else if String.eqb format FormatGoArgs then
    let args := foldl (fun args m => args ++ ["-p"; m]) [] (range modules) in
    printed [Println (GoStrings.Join args " ")]
  else if String.eqb format FormatGitHubMatrix then
    let matrix := {| Module := modules |} in
    let matrix :=
      if (len modules =? 0)%nat then {| Module := Some [] |} else matrix in
    printed [PrintJSON (marshal_matrix matrix)]
  else
    failed ("unknown format: " +:+ format
            +:+ " (use list, go-args, or github-matrix)").

(** The set [allAffected] of [runAffected]: the affected paths and, for each
    of them, its dependencies; a path for which [GetDependencyPaths] fails is
    skipped. *)
Definition allAffected (graph : Analyser.Graph) (paths : list string) : gset string :=
  foldl (fun acc p =>
           match Analyser.GetDependencyPaths graph p with
           | inl _ => acc
           | inr deps => foldl (fun acc dep => {[dep]} ∪ acc) acc deps
           end) (foldl (fun acc p => {[p]} ∪ acc) ∅ paths) paths.

(** [runAffected]. The affected directories come in the order of
    [FindAffectedModuleDirs], and with [--include-deps] the paths are read
    back from a map: both orders are open in Go, [elements] gives one. *)
Definition runAffected (w : World) (path base : string) (useMergeBase : bool)
    (format : string) (includeDeps : bool) : Outcome :=
  match Abs w path with
  | inl e => failed ("failed to get absolute path: " +:+ e)
  | inr absPath =>
  match ListModule w absPath with
  | inl e => failed ("failed to list modules: " +:+ e)
  | inr modules =>
  if (length modules =? 0)%nat then failed "no modules found in workspace"
  else
  match Git.GetChangedFiles (git w) base useMergeBase absPath with
  | inl e => failed ("failed to get changed files: " +:+ e)
  | inr changedFiles =>
      let moduleDirs := Analyser.Dir <$> modules in
      let affectedDirs :=
        Git.FindAffectedModuleDirs changedFiles moduleDirs absPath in
      let affectedPaths :=
        omap (fun dir => moduleDirToPath modules !! dir) affectedDirs in
      if includeDeps && (0 <? length affectedPaths)%nat then
        match BuildDependencyGraph w modules with
        | inl e => failed ("failed to build dependency graph: " +:+ e)
        | inr graph =>
            outputAffected (Some (elements (allAffected graph affectedPaths))) format
        end
      else outputAffected (Some affectedPaths) format
  end
  end
  end.

(** [runGraph]; the three printers of the graph are kept as one event. *)
Definition runGraph (w : World) (path format : string) : Outcome :=
  match Abs w path with
  | inl e => failed ("failed to get absolute path: " +:+ e)
  | inr absPath =>
  match ListModule w absPath with
  | inl e => failed ("failed to list modules: " +:+ e)
  | inr modules =>
  if (length modules =? 0)%nat then failed "no modules found in workspace"
  else
  match BuildDependencyGraph w modules with
  | inl e => failed ("failed to build dependency graph: " +:+ e)
  | inr adjMap =>
      if String.eqb format "tree" || String.eqb format "dot"
         || String.eqb format "json"
      then printed [PrintGraph format modules adjMap]
      else failed ("unknown format: " +:+ format +:+ " (use tree, dot, or json)")
  end
  end
  end.

(** [shortName], the label [outputGraphDot] gives the node of a module: the
    path after its last slash. *)
Definition shortName (path : string) : string :=
  let idx := GoStrings.LastIndex path "/" in
  if negb (idx =? -1)%Z then GoStrings.from (Z.to_nat (idx + 1)) path
  else path.

End Main.

(** ** Concrete workspaces *)

Module Scenario.

Definition core : Analyser.Module :=
  {| Analyser.Path := "example.com/core"; Analyser.Main := true;
     Analyser.Dir := "/ws/core"; Analyser.GoMod := "/ws/core/go.mod";
     Analyser.GoVersion := "1.22" |}.

Definition no_git : Git.Commands :=
  {| Git.merge_base_output := fun _ _ => inl "exit status 128";
     Git.diff_output := fun _ _ => inl "exit status 128" |}.


(** The same workspace as a git repository with nothing changed since the
    reference, as in [TestE2E_AffectedNoChanges]: [git diff] prints
    nothing. *)
Definition no_changes : Main.World :=
  {| Main.Abs := fun path => inr ("/ws" : string);
     Main.ListModule := fun _ => inr [core];
     Main.git := {| Git.merge_base_output := fun _ _ => inr "0123abc";
                    Git.diff_output := fun _ _ => inr "" |};
     Main.BuildDependencyGraph := fun _ => inr ({[ "example.com/core" := ∅ ]});
     Main.received := fun _ => [] |}.

(** A directory of a git repository with neither [go.mod] nor [go.work],
    and one file changed since the reference. There [go list -m -json]
    succeeds and prints the one pseudo-module [command-line-arguments],
    taken here without a directory; the packages cannot be listed, and the
    task started for the pseudo-module fails. *)
Definition command_line_arguments : Analyser.Module :=
  {| Analyser.Path := "command-line-arguments"; Analyser.Main := true;
     Analyser.Dir := ""; Analyser.GoMod := ""; Analyser.GoVersion := "" |}.

Definition module_less : Main.World :=
  {| Main.Abs := fun path => inr ("/empty" : string);
     Main.ListModule := fun _ => inr [command_line_arguments];
     Main.git := {| Git.merge_base_output := fun _ _ => inr "0123abc";
                    Git.diff_output := fun _ _ => inr "notes.txt" |};
     Main.BuildDependencyGraph :=
       fun _ => inl "failed to list packages: command execution failed: exit status 1";
     Main.received := fun _ => [Main.FromDone {| Runner.Status := 1 |}] |}.

(** The module [utils] of the workspace of the end-to-end tests, alone in a
    workspace; its tests pass. *)
Definition utils : Analyser.Module :=
  {| Analyser.Path := "example.com/utils"; Analyser.Main := true;
     Analyser.Dir := "/ws/utils"; Analyser.GoMod := "/ws/utils/go.mod";
     Analyser.GoVersion := "1.22" |}.

Definition passing_utils : Main.World :=
  {| Main.Abs := fun path => inr ("/ws" : string);
     Main.ListModule := fun _ => inr [utils];
     Main.git := no_git;
     Main.BuildDependencyGraph := fun _ => inr ({[ "example.com/utils" := ∅ ]});
     Main.received := fun _ =>
       [Main.FromStdout "ok" true; Main.FromDone {| Runner.Status := 0 |}] |}.

(** [knit test -p <dir>], no other flag. *)
Definition test_flags (dir : string) : Main.Flags :=
  {| Main.defaultDir := dir; Main.target := ""; Main.affected := false;
     Main.base := "main"; Main.useColor := false |}.

(** The modules [core] and [utils]: the tests of [utils] pass, the future
    of [core] never delivers anything. *)
Definition stuck_core : Main.World :=
  {| Main.Abs := fun path => inr ("/ws" : string);
     Main.ListModule := fun _ => inr [core; utils];
     Main.git := no_git;
     Main.BuildDependencyGraph :=
       fun _ => inr ({[ "example.com/core" := ∅;
                        "example.com/utils" := {[ "example.com/core" ]} ]});
     Main.received := fun slot =>
       match slot with
       | 0 => []
       | _ => [Main.FromDone {| Runner.Status := 0 |}]
       end |}.

(** [knit test -p <dir> --color]. *)
Definition color_flags (dir : string) : Main.Flags :=
  {| Main.defaultDir := dir; Main.target := ""; Main.affected := false;
     Main.base := "main"; Main.useColor := true |}.

Definition background : Runner.Context := {| Runner.cancelled := false |}.

End Scenario.

(** * Properties *)

(** ** Runs of the definitions *)

Example Clean_drops_dot_and_dotdot :
  Filepath.Clean "/ws//mod/./a/../b/" = "/ws/mod/b".
Proof. reflexivity. Qed.

Example Clean_keeps_leading_dotdot : Filepath.Clean "../../a/.." = "../..".
Proof. reflexivity. Qed.

Example Clean_dotdot_at_root : Filepath.Clean "/.." = "/".
Proof. reflexivity. Qed.

Example Join_root_and_file : Filepath.Join "/ws" "mod/a/x.go" = "/ws/mod/a/x.go".
Proof. reflexivity. Qed.

Example Join_empty_root : Filepath.Join "" "mod/a/x.go" = "mod/a/x.go".
Proof. reflexivity. Qed.

Example TrimSpace_both_ends :
  GoStrings.TrimSpace (String "010" " a b" +:+ String "009" (String "010" "")) = "a b".
Proof. reflexivity. Qed.

Example Split_keeps_empty_pieces :
  GoStrings.Split "a/b//c" "/"%char = ["a"; "b"; ""; "c"].
Proof. reflexivity. Qed.

Example sortByLengthDesc_run :
  Git.sortByLengthDesc ["a"; "ccc"; "bb"; "dddd"; "ee"]
  = ["dddd"; "ccc"; "bb"; "ee"; "a"].
Proof. reflexivity. Qed.

Example GetDependencyPaths_run :
  Analyser.GetDependencyPaths
    (<["app" := {["api"]}]> (<["api" := {["utils"; "core"]}]>
       (<["utils" := {["core"]}]> (<["core" := ∅]> ∅))))
    "api" = inr ["utils"; "core"].
Proof. by vm_compute. Qed.

Example GetDependencyPaths_unknown_vertex :
  Analyser.GetDependencyPaths (<["core" := ∅]> ∅) "zzz"
  = inl "failed to perform DFS for vertex zzz: could not find start vertex with hash zzz".
Proof. by vm_compute. Qed.

(** ** Byte strings *)

Section StringFacts.

Lemma append_cons (c : ascii) (a b : string) :
  String c a +:+ b = String c (a +:+ b).
Proof. reflexivity. Qed.

Lemma prefix_app (p s : string) :
  String.prefix p s = true <-> exists t, s = p +:+ t.
Proof.
  revert s. induction p as [|c p IH]; intros s; simpl.
  - split; [intros _; by exists s | by destruct s].
  - destruct s as [|c' s]; simpl.
    + split; [done | by intros [t Ht]].
    + setoid_rewrite append_cons.
      destruct (ascii_dec c c') as [->|Hne].
      * rewrite IH. split; intros [t Ht]; exists t; congruence.
      * split; [done | intros [t Ht]; congruence].
Qed.

Lemma length_append (a b : string) :
  String.length (a +:+ b) = (String.length a + String.length b)%nat.
Proof.
  induction a as [|c a IH]; [done|].
  rewrite append_cons. simpl. by rewrite IH.
Qed.

Lemma append_assoc (a b c : string) : (a +:+ b) +:+ c = a +:+ b +:+ c.
Proof.
  induction a as [|x a IH]; [done|]. rewrite !append_cons. by rewrite IH.
Qed.

Lemma append_inj_length (a b c d : string) :
  a +:+ b = c +:+ d -> String.length a = String.length c -> a = c.
Proof.
  revert c. induction a as [|x a IH]; intros [|y c]; simpl; try done.
  rewrite !append_cons. intros [= -> H] [= Hl]. f_equal. by apply IH.
Qed.

End StringFacts.

(** ** [sortByLengthDesc] *)

Section SortFacts.

Lemma len_at_middle (pre : list string) (x : string) (post : list string) :
  Git.len_at (pre ++ x :: post) (length pre) = String.length x.
Proof. unfold Git.len_at. by rewrite list_lookup_middle. Qed.

Lemma swap_middle (pre : list string) (x : string) (mid : list string)
    (y : string) (post : list string) :
  Git.swap (length pre) (S (length pre + length mid)) (pre ++ x :: mid ++ y :: post)
  = pre ++ y :: mid ++ x :: post.
Proof.
  unfold Git.swap.
  rewrite list_lookup_middle by done.
  replace (pre ++ x :: mid ++ y :: post) with ((pre ++ x :: mid) ++ y :: post)
    by (by rewrite <- app_assoc).
  rewrite list_lookup_middle by (rewrite length_app; simpl; lia).
  rewrite insert_app_r_alt by (rewrite length_app; simpl; lia).
  replace (S (length pre + length mid) - length (pre ++ x :: mid))%nat with 0%nat
    by (rewrite length_app; simpl; lia).
  simpl. rewrite <- app_assoc. simpl.
  rewrite insert_app_r_alt by lia.
  by rewrite Nat.sub_diag.
Qed.

(** One run of the inner loop moves a longest string of [x :: r2] to
    position [i] and permutes the rest. *)
Lemma sort_inner_spec (r2 : list string) :
  forall (pre : list string) (x : string) (r1 : list string),
    Forall (Git.longer x) r1 ->
    exists m r',
      Git.sort_inner (length r2) (length pre) (S (length pre + length r1))
        (pre ++ x :: r1 ++ r2) = pre ++ m :: r'
      /\ m :: r' ≡ₚ x :: r1 ++ r2
      /\ Forall (Git.longer m) r'.
Proof.
  induction r2 as [|y r2 IH]; intros pre x r1 Hr1; simpl.
  - exists x, r1. by rewrite app_nil_r.
  - rewrite len_at_middle.
    replace (Git.len_at (pre ++ x :: r1 ++ y :: r2) (S (length pre + length r1)))
      with (String.length y).
    2:{ replace (pre ++ x :: r1 ++ y :: r2) with ((pre ++ x :: r1) ++ y :: r2)
          by (by rewrite <- app_assoc).
        replace (S (length pre + length r1)) with (length (pre ++ x :: r1))
          by (rewrite length_app; simpl; lia).
        by rewrite len_at_middle. }
    destruct (String.length x <? String.length y)%nat eqn:Hlt.
    + apply Nat.ltb_lt in Hlt. rewrite swap_middle.
      destruct (IH pre y (r1 ++ [x])) as (m & r' & Heq & Hperm & Hall).
      { apply Forall_app. split.
        - eapply Forall_impl; [exact Hr1|]. unfold Git.longer. intros; simpl in *; lia.
        - constructor; [unfold Git.longer; lia | constructor]. }
      exists m, r'. split; [|split]; [|  | done].
      * rewrite <- Heq. rewrite length_app. simpl.
        replace (S (length pre + (length r1 + 1))) with (S (S (length pre + length r1))) by lia.
        by rewrite <- app_assoc.
      * rewrite Hperm. rewrite <- app_assoc. simpl.
        rewrite <- !Permutation_middle. apply perm_swap.
    + apply Nat.ltb_ge in Hlt.
      destruct (IH pre x (r1 ++ [y])) as (m & r' & Heq & Hperm & Hall).
      { apply Forall_app. split; [done|].
        constructor; [unfold Git.longer; lia | constructor]. }
      exists m, r'. split; [|split]; [| | done].
      * rewrite <- Heq. rewrite length_app. simpl.
        replace (S (length pre + (length r1 + 1))) with (S (S (length pre + length r1))) by lia.
        by rewrite <- app_assoc.
      * rewrite Hperm. by rewrite <- app_assoc.
Qed.

Lemma sort_outer_spec (n : nat) :
  forall (pre rest : list string),
    length rest = S n ->
    exists rest',
      Git.sort_outer n (length pre) (pre ++ rest) = pre ++ rest'
      /\ rest' ≡ₚ rest
      /\ StronglySorted Git.longer rest'.
Proof.
  induction n as [|n IH]; intros pre rest Hlen.
  - destruct rest as [|x [|? ?]]; simplify_eq/=.
    exists [x]. repeat split; [done|]. repeat constructor.
  - destruct rest as [|x rest]; simplify_eq/=.
    replace (length (pre ++ x :: rest) - S (length pre))%nat with (length rest)
      by (rewrite length_app; simpl; lia).
    destruct (sort_inner_spec rest pre x []) as (m & r' & Heq & Hperm & Hall);
      [constructor|].
    simpl in Heq. rewrite Nat.add_0_r in Heq. rewrite Heq.
    destruct (IH (pre ++ [m]) r') as (rest' & Heq' & Hperm' & Hsorted).
    { apply Permutation_length in Hperm. simpl in Hperm. lia. }
    rewrite length_app in Heq'. simpl in Heq'.
    rewrite Nat.add_1_r in Heq'. rewrite <- app_assoc in Heq'. simpl in Heq'.
    exists (m :: rest'). split; [|split].
    + rewrite Heq'. by rewrite <- app_assoc.
    + by rewrite Hperm', Hperm.
    + constructor; [done|]. by rewrite Hperm'.
Qed.

Lemma sortByLengthDesc_spec (strs : list string) :
  Git.sortByLengthDesc strs ≡ₚ strs
  /\ StronglySorted Git.longer (Git.sortByLengthDesc strs).
Proof.
  unfold Git.sortByLengthDesc. destruct strs as [|x strs].
  - simpl. split; [done | constructor].
  - destruct (sort_outer_spec (length strs) [] (x :: strs)) as (r & Heq & Hp & Hs);
      [done|].
    simpl in *. rewrite Nat.sub_0_r, Heq. done.
Qed.

End SortFacts.

(** ** [FindAffectedModuleDirs] *)

Section AffectedFacts.

(** The test of line 101 holds exactly when the path is the directory or
    goes on after it with a separator. *)
Lemma belongs_spec (absFile modDir : string) :
  Git.belongs absFile modDir = true <-> Git.under absFile modDir.
Proof.
  unfold Git.belongs, GoStrings.HasPrefix, Git.under.
  rewrite orb_true_iff, prefix_app, String.eqb_eq.
  split; (intros [H|H]; [right|left]); try done.
  - destruct H as [t Ht]. exists t. rewrite Ht. apply append_assoc.
  - destruct H as [t Ht]. exists t. rewrite Ht. symmetry. apply append_assoc.
Qed.

Lemma belongs_same_length (absFile d1 d2 : string) :
  Git.belongs absFile d1 = true -> Git.belongs absFile d2 = true ->
  String.length d1 = String.length d2 -> d1 = d2.
Proof.
  rewrite !belongs_spec. unfold Git.under.
  intros [H1|[r1 H1]] [H2|[r2 H2]] Hlen.
  - congruence.
  - rewrite H1 in H2. apply (f_equal String.length) in H2.
    rewrite !length_append in H2. simpl in H2. lia.
  - rewrite H2 in H1. apply (f_equal String.length) in H1.
    rewrite !length_append in H1. simpl in H1. lia.
  - rewrite H1 in H2. by eapply append_inj_length.
Qed.

(** In a slice sorted by descending length the first match is a longest
    one. *)
Lemma find_sorted_longest (P : string -> bool) (l : list string) (d : string) :
  StronglySorted Git.longer l -> find P l = Some d ->
  forall d', d' ∈ l -> P d' = true -> Git.longer d d'.
Proof.
  induction 1 as [|a l Hs IH Hall]; simpl; [done|].
  destruct (P a) eqn:Ha.
  - intros [= <-] d' [->|Hin]%elem_of_cons _; [unfold Git.longer; lia|].
    by eapply Forall_forall in Hall.
  - intros Hf d' [->|Hin]%elem_of_cons Hd'; [congruence|]. by apply IH.
Qed.

Lemma find_Some_elem (P : string -> bool) (l : list string) (d : string) :
  find P l = Some d -> d ∈ l /\ P d = true.
Proof.
  induction l as [|a l IH]; simpl; [done|].
  destruct (P a) eqn:Ha.
  - intros [= <-]. split; [left | done].
  - intros [? ?]%IH. split; [by right | done].
Qed.

Lemma find_None_elem (P : string -> bool) (l : list string) :
  find P l = None <-> forall d, d ∈ l -> P d = false.
Proof.
  induction l as [|a l IH]; simpl.
  - split; [by intros _ d ?%elem_of_nil | done].
  - destruct (P a) eqn:Ha.
    + split; [done|]. intros H. specialize (H a (list_elem_of_here _ _)). congruence.
    + rewrite IH. split.
      * intros H d [->|?]%elem_of_cons; auto.
      * intros H d ?. apply H. by right.
Qed.

(** The owner of a file is the longest module directory it belongs to. *)
Lemma owner_spec (moduleDirs : list string) (absFile d : string) :
  Git.owner (Git.sortByLengthDesc moduleDirs) absFile = Some d
  <-> d ∈ moduleDirs /\ Git.belongs absFile d = true
      /\ forall d', d' ∈ moduleDirs -> Git.belongs absFile d' = true ->
                    (String.length d' <= String.length d)%nat.
Proof.
  destruct (sortByLengthDesc_spec moduleDirs) as [Hperm Hsorted].
  unfold Git.owner. split.
  - intros Hf. destruct (find_Some_elem _ _ _ Hf) as [Hin Hb].
    split; [by rewrite <- Hperm | split; [done|]].
    intros d' Hd' Hb'. eapply (find_sorted_longest _ _ _ Hsorted Hf); [|done].
    by rewrite Hperm.
  - intros (Hin & Hb & Hmax).
    destruct (find (Git.belongs absFile) (Git.sortByLengthDesc moduleDirs))
      as [d0|] eqn:Hf.
    + destruct (find_Some_elem _ _ _ Hf) as [Hin0 Hb0].
      f_equal. apply (belongs_same_length absFile); [done..|].
      apply Nat.le_antisymm.
      * apply Hmax; [by rewrite <- Hperm | done].
      * eapply (find_sorted_longest _ _ _ Hsorted Hf); [by rewrite Hperm | done].
    + rewrite find_None_elem in Hf. rewrite Hf in Hb; [done|]. by rewrite Hperm.
Qed.

Lemma owner_None (moduleDirs : list string) (absFile : string) :
  Git.owner (Git.sortByLengthDesc moduleDirs) absFile = None
  <-> forall d, d ∈ moduleDirs -> Git.belongs absFile d = false.
Proof.
  unfold Git.owner. rewrite find_None_elem.
  destruct (sortByLengthDesc_spec moduleDirs) as [Hperm _].
  split; intros H d Hd; apply H; [by rewrite Hperm | by rewrite <- Hperm].
Qed.

(** The keys of [affectedDirs] are the owners of the changed files. *)
Lemma affectedDirs_dom (changedFiles moduleDirs : list string) (root d : string) :
  d ∈ dom (Git.affectedDirs changedFiles moduleDirs root)
  <-> exists file, file ∈ changedFiles
        /\ Git.owner (Git.sortByLengthDesc moduleDirs) (Filepath.Join root file) = Some d.
Proof.
  unfold Git.affectedDirs.
  set (f := fun (acc : gmap string bool) file => _).
  assert (forall files acc,
    d ∈ dom (foldl f acc files)
    <-> d ∈ dom acc \/ exists file, file ∈ files
          /\ Git.owner (Git.sortByLengthDesc moduleDirs) (Filepath.Join root file) = Some d)
    as Hgen.
  { induction files as [|file files IH]; intros acc; simpl.
    - split; [by left|]. intros [?|(file & ?%elem_of_nil & _)]; done.
    - rewrite IH. unfold f.
      destruct (Git.owner _ (Filepath.Join root file)) as [o|] eqn:Ho.
      + rewrite dom_insert, elem_of_union, elem_of_singleton. split.
        * intros [[->|?]|(file' & ? & ?)]; [right | by left | right].
          -- exists file. split; [left | done].
          -- exists file'. split; [by right | done].
        * intros [?|(file' & [->|?]%elem_of_cons & Hf)].
          -- left. by right.
          -- left. left. congruence.
          -- right. by exists file'.
      + split.
        * intros [?|(file' & ? & ?)]; [by left | right].
          exists file'. split; [by right | done].
        * intros [?|(file' & [->|?]%elem_of_cons & Hf)]; [by left | congruence |].
          right. by exists file'. }
  rewrite Hgen, dom_empty. split; [intros [?%elem_of_empty|?]; done | by right].
Qed.

Lemma belongs_sibling (d : string) (c : ascii) (s : string) :
  c <> "/"%char -> Git.belongs (d +:+ String c s) d = false.
Proof.
  intros Hc. apply not_true_is_false. rewrite belongs_spec.
  intros [H|[rest H]].
  - apply (f_equal String.length) in H. rewrite length_append in H.
    simpl in H. lia.
  - apply (inj (String.append d)) in H. rewrite append_cons in H. congruence.
Qed.

Lemma affectedDirs_skip (before after moduleDirs : list string) (root file : string) :
  Git.owner (Git.sortByLengthDesc moduleDirs) (Filepath.Join root file) = None ->
  Git.affectedDirs (before ++ file :: after) moduleDirs root
  = Git.affectedDirs (before ++ after) moduleDirs root.
Proof.
  intros Hnone. unfold Git.affectedDirs.
  rewrite !foldl_app. simpl. by rewrite Hnone.
Qed.

(** C2: every changed file is assigned to the longest module directory that
    is a path prefix of it (the directory itself or an ancestor at a
    separator), any other candidate being strictly shorter, so that a file
    under a nested module is owned by the nested module; the directories
    returned are the owners of the changed files; and for the changed files
    [mod/a/x.go] and [mod/a/sub/y.go] with the directories [mod/a] and
    [mod/a/sub], the first goes to [mod/a] and the second to [mod/a/sub]. *)
Theorem C2_longest_prefix_ownership :
  forall (changedFiles moduleDirs : list string) (workspaceRoot : string),
    (forall file d,
        Git.owner (Git.sortByLengthDesc moduleDirs)
          (Filepath.Join workspaceRoot file) = Some d
        <-> d ∈ moduleDirs
            /\ Git.under (Filepath.Join workspaceRoot file) d
            /\ forall d', d' ∈ moduleDirs ->
                  Git.under (Filepath.Join workspaceRoot file) d' ->
                  d' <> d -> (String.length d' < String.length d)%nat)
    /\ (forall result,
          Git.FindAffectedModuleDirs_returns changedFiles moduleDirs workspaceRoot result ->
          forall d,
            d ∈ result
            <-> exists file, file ∈ changedFiles
                  /\ Git.owner (Git.sortByLengthDesc moduleDirs)
                        (Filepath.Join workspaceRoot file) = Some d)
    /\ Git.owner (Git.sortByLengthDesc ["mod/a"; "mod/a/sub"])
         (Filepath.Join "" "mod/a/x.go") = Some "mod/a"
    /\ Git.owner (Git.sortByLengthDesc ["mod/a"; "mod/a/sub"])
         (Filepath.Join "" "mod/a/sub/y.go") = Some "mod/a/sub"
    /\ Git.FindAffectedModuleDirs ["mod/a/x.go"; "mod/a/sub/y.go"]
         ["mod/a"; "mod/a/sub"] "" ≡ₚ ["mod/a"; "mod/a/sub"].
Proof.
  intros changedFiles moduleDirs workspaceRoot.
  split; [|split; [|split; [|split]]].
  - intros file d. rewrite owner_spec, <- belongs_spec.
    split; intros (Hin & Hb & Hmax); (split; [done | split; [done|]]).
    + intros d' Hd' Hb'%belongs_spec Hne.
      specialize (Hmax d' Hd' Hb').
      destruct (decide (String.length d' = String.length d)) as [Heq|]; [|lia].
      destruct Hne. by eapply belongs_same_length.
    + intros d' Hd' Hb'. destruct (decide (d' = d)) as [->|Hne]; [done|].
      apply Nat.lt_le_incl, Hmax; [done | by apply belongs_spec | done].
  - intros result Hres d. unfold Git.FindAffectedModuleDirs_returns in Hres.
    rewrite Hres, elem_of_elements. apply affectedDirs_dom.
  - by vm_compute.
  - by vm_compute.
  - vm_compute. apply perm_swap.
Qed.

Lemma C2_longest_prefix_ownership_witness :
  "/ws/mod/a/sub" ∈ ["/ws/mod/a/sub"]
  <-> exists file, file ∈ ["mod/a/sub/y.go"]
        /\ Git.owner (Git.sortByLengthDesc ["/ws/mod/a"; "/ws/mod/a/sub"])
              (Filepath.Join "/ws" file) = Some "/ws/mod/a/sub".
Proof.
  destruct (C2_longest_prefix_ownership ["mod/a/sub/y.go"]
              ["/ws/mod/a"; "/ws/mod/a/sub"] "/ws") as (_ & Hres & _).
  apply (Hres ["/ws/mod/a/sub"]).
  vm_compute. reflexivity.
Defined.

(** C8: [FindAffectedModuleDirs] counts a file as belonging to a directory
    only when its absolute path is the directory or goes on after it at a
    separator, so a directory never claims a path that continues its name
    with another byte ([mod/a] does not claim [mod/ab/x.go]); a file under no
    module directory has no owner and leaves the affected directories as
    they are without it; and whatever the order of the result, every
    directory in it is a module directory with a changed file under it, and
    none occurs twice. *)
Theorem C8_affected_dirs_boundary_and_unique :
  forall (changedFiles moduleDirs : list string) (workspaceRoot : string)
         (result : list string),
    Git.FindAffectedModuleDirs_returns changedFiles moduleDirs workspaceRoot result ->
    (forall absFile modDir,
        Git.belongs absFile modDir = true <-> Git.under absFile modDir)
    /\ (forall modDir c s,
          c <> "/"%char -> Git.belongs (modDir +:+ String c s) modDir = false)
    /\ Git.belongs "mod/ab/x.go" "mod/a" = false
    /\ (forall d, d ∈ result ->
          d ∈ moduleDirs
          /\ exists file, file ∈ changedFiles
                /\ Git.under (Filepath.Join workspaceRoot file) d)
    /\ (forall file,
          (forall d, d ∈ moduleDirs -> ~ Git.under (Filepath.Join workspaceRoot file) d) ->
          Git.owner (Git.sortByLengthDesc moduleDirs)
            (Filepath.Join workspaceRoot file) = None
          /\ forall before after,
               Git.affectedDirs (before ++ file :: after) moduleDirs workspaceRoot
               = Git.affectedDirs (before ++ after) moduleDirs workspaceRoot)
    /\ NoDup result.
Proof.
  intros changedFiles moduleDirs workspaceRoot result Hres.
  unfold Git.FindAffectedModuleDirs_returns in Hres.
  split; [|split; [|split; [|split; [|split]]]].
  - apply belongs_spec.
  - apply belongs_sibling.
  - reflexivity.
  - intros d Hd. rewrite Hres, elem_of_elements, affectedDirs_dom in Hd.
    destruct Hd as (file & Hfile & Hown).
    apply owner_spec in Hown as (Hin & Hb & _).
    split; [done|]. exists file. split; [done | by apply belongs_spec].
  - intros file Hno.
    assert (Git.owner (Git.sortByLengthDesc moduleDirs)
              (Filepath.Join workspaceRoot file) = None) as Hnone.
    { apply owner_None. intros d Hd. apply not_true_is_false.
      rewrite belongs_spec. by apply Hno. }
    split; [done|]. intros before after. by apply affectedDirs_skip.
  - rewrite Hres. apply NoDup_elements.
Qed.

Lemma C8_affected_dirs_boundary_and_unique_witness :
  NoDup ["/ws/mod/a"]
  /\ Git.FindAffectedModuleDirs ["mod/a/x.go"; "mod/ab/z.go"; "mod/a/y.go"]
       ["/ws/mod/a"] "/ws" = ["/ws/mod/a"].
Proof.
  split; [|by vm_compute].
  apply (C8_affected_dirs_boundary_and_unique
           ["mod/a/x.go"; "mod/ab/z.go"; "mod/a/y.go"] ["/ws/mod/a"] "/ws"
           ["/ws/mod/a"]).
  vm_compute. reflexivity.
Defined.

End AffectedFacts.

(** ** [GetChangedFiles] *)

Section ChangedFilesFacts.

Lemma Split_not_nil (s : string) (sep : ascii) : GoStrings.Split s sep <> [].
Proof.
  destruct s as [|c s]; simpl; [done|].
  destruct (Ascii.eqb c sep); [done|]. by destruct (GoStrings.Split s sep).
Qed.

Lemma Split_singleton_empty (s : string) (sep : ascii) :
  GoStrings.Split s sep = [""] -> s = "".
Proof.
  destruct s as [|c s]; simpl; [done|].
  destruct (Ascii.eqb c sep).
  - intros [= H]. by apply Split_not_nil in H.
  - by destruct (GoStrings.Split s sep).
Qed.

(** C10: the output of [git diff] is trimmed of surrounding white space and
    split at the newlines; the list is empty exactly when the trimmed output
    is empty, and is never the one-element list holding the empty string; it
    is what [GetChangedFiles] returns when the git command succeeds. *)
Theorem C10_changed_files_parsing :
  forall (output : string),
    (GoStrings.TrimSpace output <> "" ->
     Git.splitOutput output
     = GoStrings.Split (GoStrings.TrimSpace output) "010"%char)
    /\ (Git.splitOutput output = [] <-> GoStrings.TrimSpace output = "")
    /\ Git.splitOutput output <> [""]
    /\ (forall git compareRef dir,
          Git.diff_output git compareRef dir = inr output ->
          Git.GetChangedFiles git compareRef false dir = inr (Git.splitOutput output))
    /\ (forall git compareRef dir mergeBase,
          Git.merge_base_output git compareRef dir = inr mergeBase ->
          Git.diff_output git (GoStrings.TrimSpace mergeBase) dir = inr output ->
          Git.GetChangedFiles git compareRef true dir = inr (Git.splitOutput output)).
Proof.
  intros output.
  assert (forall git compareRef dir,
            Git.diff_output git compareRef dir = inr output ->
            Git.GetChangedFiles git compareRef false dir
            = inr (Git.splitOutput output)) as Hdirect.
  { intros git compareRef dir Hout. unfold Git.GetChangedFiles. by rewrite Hout. }
  assert (forall git compareRef dir mergeBase,
            Git.merge_base_output git compareRef dir = inr mergeBase ->
            Git.diff_output git (GoStrings.TrimSpace mergeBase) dir = inr output ->
            Git.GetChangedFiles git compareRef true dir
            = inr (Git.splitOutput output)) as Hmerge.
  { intros git compareRef dir mergeBase Hmb Hout.
    unfold Git.GetChangedFiles, Git.getMergeBase. by rewrite Hmb, Hout. }
  unfold Git.splitOutput at 1 2 3.
  destruct (String.eqb_spec (GoStrings.TrimSpace output) "") as [Heq|Hne].
  - repeat split; done.
  - split; [done|]. split; [|split; [|split; done]].
    + split; [by intros ?%Split_not_nil | done].
    + by intros ?%Split_singleton_empty.
Qed.

Lemma C10_changed_files_parsing_witness :
  Git.splitOutput (" a.go" +:+ String "010" "b/c.go" +:+ String "010" "")
  = GoStrings.Split "a.go
b/c.go" "010"%char
  /\ Git.splitOutput (" " +:+ String "010" (String "009" "")) = [].
Proof.
  split.
  - destruct (C10_changed_files_parsing
                (" a.go" +:+ String "010" "b/c.go" +:+ String "010" ""))
      as (H & _).
    rewrite H; [reflexivity | by vm_compute].
  - by apply (C10_changed_files_parsing (" " +:+ String "010" (String "009" ""))).
Defined.

End ChangedFilesFacts.

(** ** [GetDependencyPaths] *)

Section DependencyFacts.

Variable g : Analyser.Graph.
Variable vertex : string.

Lemma elem_of_rev (x : string) (l : list string) : x ∈ rev l <-> x ∈ l.
Proof. rewrite !list_elem_of_In. symmetry. apply in_rev. Qed.

Lemma dfs_inv_init : Analyser.dfs_inv g vertex (Analyser.Loop [vertex] ∅ []).
Proof.
  split; [|split; [|split; [|split]]].
  - intros v [->%list_elem_of_singleton|?%elem_of_empty]; [|done].
    apply rtc_refl.
  - right. apply list_elem_of_here.
  - by intros u v ?%elem_of_empty.
  - constructor.
  - intros v. split; [by intros ?%elem_of_nil | by intros [?%elem_of_empty _]].
Qed.

Lemma dfs_inv_step (c c' : Analyser.dfs_config (list string)) :
  Analyser.dfs_inv g vertex c ->
  Analyser.dfs_step g (Analyser.visitor vertex) c c' ->
  Analyser.dfs_inv g vertex c'.
Proof.
  intros Hinv Hstep.
  destruct Hstep as [visited acc|current rest visited acc Hseen
                     |current rest visited acc acc' Hnew Hvisit
                     |current rest visited acc acc' pushed Hnew Hvisit Hpushed];
    simpl in *.
  - destruct Hinv as (Hreach & Hstart & Hclosed & Hnodup & Hacc).
    split; [done|]. intros v. rewrite Hacc.
    assert (forall w, Analyser.reachable g vertex w -> w ∈ visited) as Hall.
    { unfold Analyser.reachable. apply rtc_ind_r.
      - destruct Hstart as [?|?%elem_of_nil]; done.
      - intros u w Hu Hedge IH.
        destruct (Hclosed u w IH Hedge) as [?|?%elem_of_nil]; done. }
    split; intros [? ?]; (split; [|done]); [apply Hreach; by right | by apply Hall].
  - destruct Hinv as (Hreach & Hstart & Hclosed & Hnodup & Hacc).
    split; [|split; [|split; [|split]]]; [ | | |done|done].
    + intros v [?|?]; apply Hreach; [left; by right | by right].
    + destruct Hstart as [?|[->|?]%elem_of_cons]; [by left | by left | by right].
    + intros u v Hu Hedge.
      destruct (Hclosed u v Hu Hedge) as [?|[->|?]%elem_of_cons];
        [by left | by left | by right].
  - unfold Analyser.visitor in Hvisit. congruence.
  - destruct Hinv as (Hreach & Hstart & Hclosed & Hnodup & Hacc).
    assert (Analyser.reachable g vertex current) as Hcur
      by (apply Hreach; left; apply list_elem_of_here).
    unfold Analyser.visitor in Hvisit. injection Hvisit as <-.
    split; [|split; [|split; [|split]]].
    + intros v [[Hv|Hv]%elem_of_app|[->%elem_of_singleton|Hv]%elem_of_union]; try done.
      * rewrite elem_of_rev, Hpushed, elem_of_elements in Hv.
        by eapply rtc_r.
      * apply Hreach. left. by right.
      * apply Hreach. by right.
    + destruct Hstart as [?|[->|?]%elem_of_cons].
      * left. apply elem_of_union. by right.
      * left. apply elem_of_union. left. by apply elem_of_singleton.
      * right. apply elem_of_app. by right.
    + intros u v [->%elem_of_singleton|Hu]%elem_of_union Hedge.
      * right. apply elem_of_app. left.
        by rewrite elem_of_rev, Hpushed, elem_of_elements.
      * destruct (Hclosed u v Hu Hedge) as [?|[->|?]%elem_of_cons].
        -- left. apply elem_of_union. by right.
        -- left. apply elem_of_union. left. by apply elem_of_singleton.
        -- right. apply elem_of_app. by right.
    + case_decide; [done|]. apply NoDup_app. split; [done|].
      split; [|apply NoDup_singleton].
      intros v Hv ->%list_elem_of_singleton. apply Hacc in Hv as [? _]. done.
    + intros v. case_decide as Hcv.
      * rewrite Hacc, elem_of_union, elem_of_singleton. subst current.
        split; [intros [? ?]; split; [by right | done] | intros [[?|?] ?]; done].
      * rewrite elem_of_app, list_elem_of_singleton, Hacc, elem_of_union,
          elem_of_singleton.
        split.
        -- intros [[? ?]| ->]; (split; [|done]); [by right | by left].
        -- intros [[->|?] ?]; [by right | by left].
Qed.

Lemma dfs_inv_rtc (c c' : Analyser.dfs_config (list string)) :
  rtc (Analyser.dfs_step g (Analyser.visitor vertex)) c c' ->
  Analyser.dfs_inv g vertex c -> Analyser.dfs_inv g vertex c'.
Proof. induction 1; eauto using dfs_inv_step. Qed.

Lemma dfs_loop_steps {A : Type} (visit : string -> A -> A * bool) (fuel : nat) :
  forall stack visited acc r,
    Analyser.dfs_loop fuel g visit stack visited acc = Some r ->
    rtc (Analyser.dfs_step g visit) (Analyser.Loop stack visited acc) (Analyser.Done r).
Proof.
  induction fuel as [|fuel IH]; intros stack visited acc r; simpl; [done|].
  destruct stack as [|current rest].
  - intros [= <-]. apply rtc_once. constructor.
  - case_decide as Hseen.
    + intros Hrun. eapply rtc_l; [by apply Analyser.dfs_seen | by apply IH].
    + destruct (visit current acc) as [acc' stop] eqn:Hvisit.
      destruct stop.
      * intros [= <-]. apply rtc_once. by eapply Analyser.dfs_stop.
      * intros Hrun. eapply rtc_l; [|by apply IH].
        by apply Analyser.dfs_visit.
Qed.

Lemma edges_from_visit (current : string) (visited : gset string) :
  current ∉ visited ->
  (size (Analyser.adjacent g current)
   + Analyser.edges_from g (dom g ∖ ({[current]} ∪ visited)))%nat
  = Analyser.edges_from g (dom g ∖ visited).
Proof.
  intros Hnew. unfold Analyser.edges_from.
  destruct (decide (current ∈ dom g)) as [Hin|Hout].
  - assert (dom g ∖ visited = {[current]} ∪ dom g ∖ ({[current]} ∪ visited)) as ->.
    { apply set_eq. intros x. destruct (decide (x = current)); set_solver. }
    rewrite elements_union_singleton by set_solver. done.
  - assert (dom g ∖ ({[current]} ∪ visited) = dom g ∖ visited) as -> by set_solver.
    apply not_elem_of_dom in Hout. unfold Analyser.adjacent.
    rewrite Hout. simpl. by rewrite ?size_empty.
Qed.

Lemma dfs_loop_terminates {A : Type} (visit : string -> A -> A * bool) (fuel : nat) :
  forall stack visited acc,
    (length stack + Analyser.edges_from g (dom g ∖ visited) < fuel)%nat ->
    is_Some (Analyser.dfs_loop fuel g visit stack visited acc).
Proof.
  induction fuel as [|fuel IH]; intros stack visited acc Hfuel; simpl; [lia|].
  destruct stack as [|current rest]; [done|].
  simpl in Hfuel. case_decide as Hseen.
  - apply IH. lia.
  - destruct (visit current acc) as [acc' stop]. destruct stop; [done|].
    apply IH. rewrite length_app, length_rev.
    pose proof (edges_from_visit current visited Hseen) as Hedges.
    unfold size, set_size in Hedges. simpl in Hedges. lia.
Qed.

End DependencyFacts.

(** C5: for a vertex of the graph the lookup returns, and what it returns is
    the set of the vertices reachable from it along edges, without the
    vertex itself and each once; so a dependent, a module with an edge into
    the vertex that cannot be reached from it, is never among them. *)
Theorem C5_dependency_paths_are_reachable_set :
  forall (g : Analyser.Graph) (vertex : string),
    is_Some (g !! vertex) ->
    (exists paths,
        Analyser.GetDependencyPaths g vertex = inr paths
        /\ Analyser.GetDependencyPaths_returns g vertex (inr paths))
    /\ (forall r,
          Analyser.GetDependencyPaths_returns g vertex r ->
          exists paths,
            r = inr paths
            /\ NoDup paths
            /\ (forall v, v ∈ paths <-> Analyser.reachable g vertex v /\ v <> vertex)
            /\ (forall u, Analyser.edge g u vertex ->
                          ~ Analyser.reachable g vertex u -> u ∉ paths)).
Proof.
  intros g vertex [adj Hvertex]. split.
  - unfold Analyser.GetDependencyPaths, Analyser.GetDependencyPaths_returns.
    rewrite Hvertex.
    destruct (dfs_loop_terminates g (Analyser.visitor vertex)
                (Analyser.dfs_fuel g) [vertex] ∅ []) as [paths Hrun].
    { rewrite difference_empty_L. unfold Analyser.dfs_fuel. simpl. lia. }
    rewrite Hrun. exists paths. split; [done|]. exists paths. split; [|done].
    by eapply dfs_loop_steps.
  - intros r. unfold Analyser.GetDependencyPaths_returns. rewrite Hvertex.
    intros (paths & Hrun & ->). exists paths. split; [done|].
    pose proof (dfs_inv_rtc g vertex _ _ Hrun (dfs_inv_init g vertex)) as [Hnodup Hpaths].
    split; [done|]. split; [done|].
    intros u _ Hunreach Hu. apply Hpaths in Hu as [? _]. done.
Qed.

Lemma C5_dependency_paths_are_reachable_set_witness :
  exists paths,
    Analyser.GetDependencyPaths
      (<["app" := {["api"]}]> (<["api" := {["core"]}]> (<["core" := ∅]> ∅)))
      "api" = inr paths
    /\ "core" ∈ paths /\ "app" ∉ paths.
Proof.
  set (g := <["app" := {["api"]}]> (<["api" := {["core"]}]> (<["core" := ∅]> ∅))
            : Analyser.Graph).
  destruct (C5_dependency_paths_are_reachable_set g "api") as [(paths & Hrun & _) _].
  { eexists. vm_compute. reflexivity. }
  exists paths. split; [done|].
  vm_compute in Hrun. injection Hrun as <-.
  split; [apply list_elem_of_here | by intros ?%list_elem_of_singleton].
Defined.

(** ** The engine *)

Section EngineFacts.

Lemma running_le_length (e : Runner.Runner) :
  (Runner.running e <= length (Runner.slots e))%nat.
Proof. unfold Runner.running. apply length_filter. Qed.

(** Changing the state of one task changes the running count by one at
    most, and not upwards when the new state is not [Running]. *)
Lemma running_alter (s : Runner.TaskState) (l : list (Runner.Task * Runner.TaskState)) :
  forall i,
    (length (filter Runner.is_running (list_alter (fun ts => (ts.1, s)) i l))
     <= (match s with Runner.Running => 1 | _ => 0 end)
        + length (filter Runner.is_running l))%nat.
Proof.
  induction l as [|[t st] l IH]; intros i; simpl; [destruct s; lia|].
  destruct i as [|i]; simpl.
  - rewrite !filter_cons. unfold Runner.is_running at 1 3. simpl.
    destruct s, st; simpl; lia.
  - rewrite !filter_cons. specialize (IH i).
    destruct (decide (Runner.is_running (t, st))); simpl; destruct s; simpl in *; lia.
Qed.

Lemma running_set_state (e : Runner.Runner) (i : nat) (s : Runner.TaskState) :
  (Runner.running (Runner.set_state i s e)
   <= (match s with Runner.Running => 1 | _ => 0 end) + Runner.running e)%nat.
Proof. unfold Runner.running, Runner.set_state. simpl. apply running_alter. Qed.

(** The admission gate: no move of the engine takes the running count above
    the ceiling, nor changes the ceiling or the number of tasks. *)
Lemma step_gate (e e' : Runner.Runner) :
  Runner.step e e' ->
  (Z.of_nat (Runner.running e) <= Runner.ceiling e)%Z ->
  Runner.ceiling e' = Runner.ceiling e
  /\ length (Runner.slots e') = length (Runner.slots e)
  /\ (Z.of_nat (Runner.running e') <= Runner.ceiling e')%Z.
Proof.
  intros Hstep Hle.
  destruct Hstep as [e i Hq Hc Hfree|e i Hq Hc Hfree|e i status Hr|e Hc|e i Hc Hs];
    simpl; rewrite ?length_alter; (split; [done|split; [done|]]); try done.
  - pose proof (running_set_state e i Runner.Running). simpl in *. lia.
  - pose proof (running_set_state e i (Runner.Failed Runner.sentinel)). simpl in *. lia.
  - pose proof (running_set_state e i
                  (if (status =? 0)%Z then Runner.Succeeded else Runner.Failed status)).
    destruct (status =? 0)%Z; simpl in *; lia.
  - pose proof (running_set_state e i Runner.Killed). simpl in *. lia.
Qed.

Lemma steps_gate (e e' : Runner.Runner) :
  rtc Runner.step e e' ->
  (Z.of_nat (Runner.running e) <= Runner.ceiling e)%Z ->
  Runner.ceiling e' = Runner.ceiling e
  /\ length (Runner.slots e') = length (Runner.slots e)
  /\ (Z.of_nat (Runner.running e') <= Runner.ceiling e')%Z.
Proof.
  induction 1 as [e|e e1 e2 Hstep Hsteps IH]; intros Hle; [done|].
  destruct (step_gate e e1 Hstep Hle) as (Hc & Hl & Hle1).
  destruct (IH Hle1) as (Hc' & Hl' & Hle2).
  split; [congruence | split; [congruence | done]].
Qed.

Lemma filter_running_queued (tasks : list Runner.Task) :
  filter Runner.is_running ((fun t => (t, Runner.Queued)) <$> tasks) = [].
Proof.
  induction tasks as [|t tasks IH]; [done|].
  rewrite fmap_cons, filter_cons_False; [done | by intros []].
Qed.

Lemma RunTasks_running (e : Runner.Runner) (tasks : list Runner.Task) :
  Runner.running (Runner.RunTasks e tasks).1 = Runner.running e.
Proof.
  unfold Runner.running, Runner.RunTasks. cbn [fst Runner.slots].
  rewrite filter_app, length_app, filter_running_queued. simpl. lia.
Qed.

End EngineFacts.

(** C3: construction takes a context and a ceiling; it fails with a
    construction error whenever the ceiling is below 1, and for every
    ceiling of 1 or more it returns an engine with that ceiling, that
    context and no task, as for the call of [main] with 3. *)
Theorem C3_engine_construction :
  forall (c : Runner.Context) (n : Z),
    ((n < 1)%Z ->
     Runner.NewRunner c n = inl (Runner.InvalidConcurrency n))
    /\ ((1 <= n)%Z ->
        exists engine,
          Runner.NewRunner c n = inr engine
          /\ Runner.ceiling engine = n
          /\ Runner.ctx engine = c
          /\ Runner.slots engine = [])
    /\ exists engine, Runner.NewRunner c 3 = inr engine.
Proof.
  intros c n. unfold Runner.NewRunner. split; [|split].
  - intros Hn. apply Z.ltb_lt in Hn. by rewrite Hn.
  - intros Hn. apply Z.ltb_ge in Hn. rewrite Hn. by eexists.
  - by eexists.
Qed.

Lemma C3_engine_construction_witness :
  Runner.NewRunner Scenario.background 0 = inl (Runner.InvalidConcurrency 0)
  /\ exists engine, Runner.NewRunner Scenario.background 1 = inr engine.
Proof.
  destruct (C3_engine_construction Scenario.background 0) as (Hlow & _ & _).
  destruct (C3_engine_construction Scenario.background 1) as (_ & Hhigh & _).
  split.
  - apply Hlow. lia.
  - destruct Hhigh as (engine & Heq & _); [lia|]. by exists engine.
Defined.

(** C6: [RunTasks] returns one handle per descriptor, as many as there are
    and in their order, each with the identifier of its descriptor; when it
    returns every task of the batch is still queued with no result, and the
    running count is what it was, so the call has waited for no task. For
    the tasks [createTasks] builds the identifiers are the module paths. *)
Theorem C6_run_tasks_handles :
  forall (e : Runner.Runner) (tasks : list Runner.Task),
    length (Runner.RunTasks e tasks).2 = length tasks
    /\ (forall i,
          Runner.future_Id <$> (Runner.RunTasks e tasks).2 !! i
          = Runner.Id <$> tasks !! i)
    /\ (forall i tf,
          (Runner.RunTasks e tasks).2 !! i = Some tf ->
          exists t,
            tasks !! i = Some t
            /\ Runner.slots (Runner.RunTasks e tasks).1 !! Runner.slot tf
               = Some (t, Runner.Queued)
            /\ Runner.result_of Runner.Queued = None)
    /\ Runner.running (Runner.RunTasks e tasks).1 = Runner.running e
    /\ (forall modules cmd,
          Runner.future_Id <$> (Runner.RunTasks e (Main.createTasks modules cmd)).2
          = Analyser.Path <$> modules).
Proof.
  intros e tasks. split; [|split; [|split; [|split]]].
  - simpl. by rewrite length_imap.
  - intros i. simpl. rewrite list_lookup_imap.
    by destruct (tasks !! i).
  - intros i tf. simpl. rewrite list_lookup_imap.
    destruct (tasks !! i) as [t|] eqn:Ht; simpl; [|done].
    intros [= <-]. exists t. split; [done|]. split; [|done]. simpl.
    rewrite lookup_app_r by lia.
    replace (length (Runner.slots e) + i - length (Runner.slots e))%nat with i by lia.
    by rewrite list_lookup_fmap, Ht.
  - apply RunTasks_running.
  - intros modules cmd. simpl. unfold Main.createTasks.
    apply list_eq. intros i.
    rewrite !list_lookup_fmap, list_lookup_imap, list_lookup_fmap.
    by destruct (modules !! i).
Qed.

Lemma C6_run_tasks_handles_witness :
  exists t,
    Main.createTasks [Scenario.core] "go test ./..." !! 0%nat = Some t
    /\ Runner.Id t = "example.com/core".
Proof.
  destruct (C6_run_tasks_handles
              {| Runner.ceiling := 3; Runner.ctx := Scenario.background;
                 Runner.slots := [] |}
              (Main.createTasks [Scenario.core] "go test ./..."))
    as (_ & _ & Hqueued & _).
  destruct (Hqueued 0%nat
              {| Runner.future_Id := "example.com/core"; Runner.slot := 0 |})
    as (t & Ht & Hslot & _); [reflexivity|].
  exists t. split; [done|].
  vm_compute in Ht. by injection Ht as <-.
Defined.

(** C7: with a ceiling N of 1 or more and a batch of M tasks handed to a
    fresh engine, in every state the engine can reach the number of running
    tasks is at most the smaller of N and M. *)
Theorem C7_running_bounded :
  forall (c : Runner.Context) (N : Z) (tasks : list Runner.Task)
         (engine e : Runner.Runner),
    (1 <= N)%Z ->
    Runner.NewRunner c N = inr engine ->
    rtc Runner.step (Runner.RunTasks engine tasks).1 e ->
    (Z.of_nat (Runner.running e) <= Z.min N (Z.of_nat (length tasks)))%Z.
Proof.
  intros c N tasks engine e HN Hnew Hsteps.
  unfold Runner.NewRunner in Hnew.
  destruct (N <? 1)%Z; [done|]. injection Hnew as <-.
  apply steps_gate in Hsteps as (Hc & Hl & Hle).
  - pose proof (running_le_length e) as Hlen.
    rewrite Hl in Hlen. simpl in *. rewrite length_fmap in Hlen. lia.
  - rewrite RunTasks_running. simpl. unfold Runner.running. simpl. lia.
Qed.

Lemma C7_running_bounded_witness :
  (Z.of_nat
     (Runner.running
        (Runner.set_state 0 Runner.Running
           (Runner.RunTasks
              {| Runner.ceiling := 2; Runner.ctx := Scenario.background;
                 Runner.slots := [] |}
              (Main.createTasks [Scenario.core] "go test ./...")).1))
   <= Z.min 2 (Z.of_nat 1))%Z.
Proof.
  apply (C7_running_bounded Scenario.background 2
           (Main.createTasks [Scenario.core] "go test ./...")
           {| Runner.ceiling := 2; Runner.ctx := Scenario.background;
              Runner.slots := [] |}).
  - lia.
  - reflexivity.
  - apply rtc_once. apply Runner.step_admit.
    + reflexivity.
    + reflexivity.
    + vm_compute. reflexivity.
Defined.

(** ** The commands *)

Section CommandFacts.

Lemma handleTaskFuture_status (id : string) (rs : list Main.Received) :
  forall evs,
    Main.handleTaskFuture id rs = Some evs ->
    exists result status,
      Main.delivered rs = Some result
      /\ last evs = Some (Main.LogStatus id status (Runner.Status result =? 0)%Z).
Proof.
  induction rs as [|r rs IH]; intros evs; simpl; [done|].
  destruct r as [output ok|output ok|result]; simpl.
  - destruct (Main.handleTaskFuture id rs) as [evs'|]; simpl; [|done].
    intros [= <-]. destruct (IH evs' eq_refl) as (result & status & Hd & Hl).
    exists result, status. split; [done|].
    rewrite last_app, Hl. done.
  - destruct (Main.handleTaskFuture id rs) as [evs'|]; simpl; [|done].
    intros [= <-]. destruct (IH evs' eq_refl) as (result & status & Hd & Hl).
    exists result, status. split; [done|].
    rewrite last_app, Hl. done.
  - intros [= <-]. by eexists _, _.
Qed.

(** The error the action of [test] and [fmt] returns comes from the set-up
    alone: the absolute path, the module listing, and, with [--affected],
    the changed files. *)
Lemma commandAction_err (w : Main.World) (r : Runner.Runner) (cmd : string)
    (f : Main.Flags) (o : Main.Outcome) :
  Main.commandAction w r cmd f = Some o ->
  Main.err o <> None
  <-> (exists e, Main.Abs w (Main.defaultDir f) = inl e)
      \/ (exists absPath e,
            Main.Abs w (Main.defaultDir f) = inr absPath
            /\ Main.ListModule w absPath = inl e)
      \/ (exists absPath modules e,
            Main.Abs w (Main.defaultDir f) = inr absPath
            /\ Main.ListModule w absPath = inr modules
            /\ Main.affected f = true
            /\ Git.GetChangedFiles (Main.git w) (Main.base f) true absPath = inl e).
Proof.
  unfold Main.commandAction.
  destruct (Main.Abs w (Main.defaultDir f)) as [e|absPath] eqn:Habs.
  { intros [= <-]. simpl. split; [intros _; left; by exists e | done]. }
  destruct (Main.ListModule w absPath) as [e|modules] eqn:Hlist.
  { intros [= <-]. simpl. split; [|done].
    intros _. right. left. exists absPath, e. by rewrite Hlist. }
  assert (forall (P : Prop), (P -> False) ->
            (exists e : Main.error, @inr Main.error string absPath = inl e)
            \/ (exists absPath0 e,
                  @inr Main.error string absPath = inr absPath0
                  /\ Main.ListModule w absPath0 = inl e)
            \/ P -> False) as Hno.
  { intros P HP [[e [=]]|[(a & e & [= <-] & He)|HP']]; [congruence | by apply HP]. }
  destruct (Main.affected f) eqn:Haff.
  - destruct (Git.GetChangedFiles (Main.git w) (Main.base f) true absPath)
      as [e|changedFiles] eqn:Hchanged.
    { intros [= <-]. simpl. split; [|done].
      intros _. right. right. exists absPath, modules, e. by rewrite Hlist. }
    destruct (length (Main.affectedModules modules changedFiles absPath) =? 0)%nat.
    + intros [= <-]. simpl. split; [done|]. intros H. exfalso. revert H.
      apply Hno. intros (a & m & e & [= <-] & _ & _ & He). congruence.
    + destruct (Main.runOnModules w r cmd _) as [[evs logs]|]; [|done].
      intros [= <-]. simpl. split; [done|]. intros H. exfalso. revert H.
      apply Hno. intros (a & m & e & [= <-] & _ & _ & He). congruence.
  - destruct (Main.runOnModules w r cmd _) as [[evs logs]|]; [|done].
    intros [= <-]. simpl. split; [done|]. intros H. exfalso. revert H.
    apply Hno. intros (a & m & e & _ & _ & [=] & _).
Qed.

End CommandFacts.

(** C9: for every slice of module paths, nil and empty included, the
    [github-matrix] format prints one JSON object whose key [module] holds
    the array of exactly those paths, and returns no error; for no paths
    the array is empty, never [null], as when [knit affected] finds no
    changed file. *)
Theorem C9_github_matrix_array :
  forall (modules : Main.slice),
    Main.outputAffected modules Main.FormatGitHubMatrix
    = Main.printed
        [Main.PrintJSON
           (Main.JObject [("module", Main.JArray (Main.JString <$> Main.range modules))])]
    /\ Main.JArray (Main.JString <$> Main.range modules) <> Main.JNull
    /\ Main.outputAffected None Main.FormatGitHubMatrix
       = Main.printed [Main.PrintJSON (Main.JObject [("module", Main.JArray [])])]
    /\ Main.outputAffected (Some []) Main.FormatGitHubMatrix
       = Main.printed [Main.PrintJSON (Main.JObject [("module", Main.JArray [])])]
    /\ (forall w path base useMergeBase includeDeps absPath m ms,
          Main.Abs w path = inr absPath ->
          Main.ListModule w absPath = inr (m :: ms) ->
          Git.GetChangedFiles (Main.git w) base useMergeBase absPath = inr [] ->
          Main.runAffected w path base useMergeBase Main.FormatGitHubMatrix includeDeps
          = Main.printed [Main.PrintJSON (Main.JObject [("module", Main.JArray [])])]).
Proof.
  intros modules. split; [|split; [done|split; [|split]]]; try reflexivity.
  - unfold Main.outputAffected. simpl.
    destruct modules as [[|m l]|]; reflexivity.
  - intros w path base useMergeBase includeDeps absPath m ms Habs Hlist Hchanged.
    unfold Main.runAffected. rewrite Habs, Hlist. simpl. rewrite Hchanged.
    unfold Git.FindAffectedModuleDirs, Git.affectedDirs. simpl.
    rewrite dom_empty_L, elements_empty. simpl.
    by rewrite andb_false_r.
Qed.

Lemma C9_github_matrix_array_witness :
  Main.runAffected Scenario.no_changes "." "HEAD" false Main.FormatGitHubMatrix false
  = Main.printed [Main.PrintJSON (Main.JObject [("module", Main.JArray [])])].
Proof.
  destruct (C9_github_matrix_array None) as (_ & _ & _ & _ & Hrun).
  apply (Hrun Scenario.no_changes "." "HEAD" false false "/ws" Scenario.core []);
    reflexivity.
Defined.

(** * Further properties of the code *)

(** ** [lib/git/main.go] *)

Section GitMore.

Lemma sorted_lookup_longer (l : list string) :
  StronglySorted Git.longer l ->
  forall i j a b,
    (i < j)%nat -> l !! i = Some a -> l !! j = Some b -> Git.longer a b.
Proof.
  induction 1 as [|x l Hs IH Hall]; intros i j a b Hij Ha Hb; [done|].
  destruct j as [|j]; [lia|]. simpl in Hb.
  destruct i as [|i]; simpl in Ha.
  - injection Ha as <-. eapply Forall_forall in Hall; [done|].
    by eapply list_elem_of_lookup_2.
  - eapply IH; [|done..]. lia.
Qed.

Lemma len_at_sorted (l : list string) (i j : nat) :
  StronglySorted Git.longer l -> (i < j)%nat ->
  (Git.len_at l j <= Git.len_at l i)%nat.
Proof.
  intros Hs Hij. unfold Git.len_at.
  destruct (l !! j) as [b|] eqn:Hb; simpl; [|lia].
  destruct (l !! i) as [a|] eqn:Ha; simpl.
  - by apply (sorted_lookup_longer l Hs i j a b).
  - apply lookup_ge_None in Ha. apply lookup_lt_Some in Hb. lia.
Qed.

Lemma sort_inner_sorted (n : nat) :
  forall i j l,
    StronglySorted Git.longer l -> (i < j)%nat -> Git.sort_inner n i j l = l.
Proof.
  induction n as [|n IH]; intros i j l Hs Hij; simpl; [done|].
  pose proof (len_at_sorted l i j Hs Hij) as Hle.
  apply Nat.ltb_ge in Hle. rewrite Hle. apply IH; [done | lia].
Qed.

Lemma sort_outer_sorted (n : nat) :
  forall i l, StronglySorted Git.longer l -> Git.sort_outer n i l = l.
Proof.
  induction n as [|n IH]; intros i l Hs; simpl; [done|].
  rewrite sort_inner_sorted by (done || lia). by apply IH.
Qed.

Lemma owner_same_dirs (dirs1 dirs2 : list string) (absFile : string) :
  (forall d, d ∈ dirs1 <-> d ∈ dirs2) ->
  Git.owner (Git.sortByLengthDesc dirs1) absFile
  = Git.owner (Git.sortByLengthDesc dirs2) absFile.
Proof.
  intros Hsame.
  destruct (Git.owner (Git.sortByLengthDesc dirs1) absFile) as [d|] eqn:Ho.
  - symmetry. apply owner_spec. apply owner_spec in Ho as (Hin & Hb & Hmax).
    split; [by apply Hsame | split; [done|]].
    intros d' Hd'. apply Hmax. by apply Hsame.
  - symmetry. apply owner_None. intros d Hd.
    rewrite owner_None in Ho. apply Ho. by apply Hsame.
Qed.

Lemma size_le_length (X : gset string) (l : list string) :
  (forall x, x ∈ X -> x ∈ l) -> (size X <= length l)%nat.
Proof.
  revert X. induction l as [|a l IH]; intros X Hsub.
  - assert (X = ∅) as -> by (apply set_eq; intros x; specialize (Hsub x); set_solver).
    by rewrite size_empty.
  - assert (size (X ∖ {[a]}) <= length l)%nat as Hrest.
    { apply IH. intros x [Hx Hne]%elem_of_difference.
      apply Hsub in Hx. set_solver. }
    assert (X ⊆ {[a]} ∪ X ∖ {[a]}) as Hcover.
    { intros x Hx. destruct (decide (x = a)); set_solver. }
    apply subseteq_size in Hcover.
    rewrite size_union_alt, size_singleton in Hcover.
    assert (size (X ∖ {[a]} ∖ {[a]}) <= size (X ∖ {[a]}))%nat
      by (apply subseteq_size; set_solver).
    simpl. lia.
Qed.

Lemma omap_length_le {A B : Type} (f : A -> option B) (l : list A) :
  (length (omap f l) <= length l)%nat.
Proof.
  induction l as [|a l IH]; csimpl; [done|].
  destruct (f a); simpl; lia.
Qed.

(** X1: [sortByLengthDesc] rearranges the slice and changes nothing else: the
    result is a permutation of the input, and of any two entries of the
    result the earlier one is at least as long. *)
Theorem X1_sortByLengthDesc_sorts :
  forall (strs : list string),
    Git.sortByLengthDesc strs ≡ₚ strs
    /\ length (Git.sortByLengthDesc strs) = length strs
    /\ (forall i j a b,
          (i < j)%nat ->
          Git.sortByLengthDesc strs !! i = Some a ->
          Git.sortByLengthDesc strs !! j = Some b ->
          (String.length b <= String.length a)%nat).
Proof.
  intros strs. destruct (sortByLengthDesc_spec strs) as [Hperm Hsorted].
  split; [done|]. split; [by rewrite Hperm|].
  intros i j a b Hij Ha Hb.
  by apply (sorted_lookup_longer _ Hsorted i j a b).
Qed.

(** X2: [sortByLengthDesc] leaves a slice alone exactly when it is already
    in descending order of length (strings of equal length keep their
    places), so sorting twice is sorting once. *)
Theorem X2_sortByLengthDesc_fixpoint :
  forall (strs : list string),
    (Git.sortByLengthDesc strs = strs <-> StronglySorted Git.longer strs)
    /\ Git.sortByLengthDesc (Git.sortByLengthDesc strs) = Git.sortByLengthDesc strs.
Proof.
  assert (forall l, StronglySorted Git.longer l -> Git.sortByLengthDesc l = l) as Hfix.
  { intros l Hs. unfold Git.sortByLengthDesc. by apply sort_outer_sorted. }
  intros strs. destruct (sortByLengthDesc_spec strs) as [_ Hsorted]. split.
  - split; [intros <-; done | apply Hfix].
  - by apply Hfix.
Qed.

(** X3: which directories are affected depends on the changed files and the
    module directories as sets only: listing either in another order, or
    with repetitions, gives the same directories. *)
Theorem X3_affected_dirs_order_independent :
  forall (files1 files2 dirs1 dirs2 : list string) (root : string)
         (result1 result2 : list string),
    (forall f, f ∈ files1 <-> f ∈ files2) ->
    (forall d, d ∈ dirs1 <-> d ∈ dirs2) ->
    Git.FindAffectedModuleDirs_returns files1 dirs1 root result1 ->
    Git.FindAffectedModuleDirs_returns files2 dirs2 root result2 ->
    result1 ≡ₚ result2.
Proof.
  intros files1 files2 dirs1 dirs2 root result1 result2 Hfiles Hdirs H1 H2.
  unfold Git.FindAffectedModuleDirs_returns in *. rewrite H1, H2.
  assert (dom (Git.affectedDirs files1 dirs1 root)
          = dom (Git.affectedDirs files2 dirs2 root)) as ->; [|done].
  apply set_eq. intros d. rewrite !affectedDirs_dom.
  split; intros (file & Hin & Ho); exists file.
  - split; [by apply Hfiles|]. by rewrite <- (owner_same_dirs dirs1 dirs2).
  - split; [by apply Hfiles|]. by rewrite (owner_same_dirs dirs1 dirs2).
Qed.

Lemma X3_affected_dirs_order_independent_witness :
  ["/ws/b"; "/ws/a"] ≡ₚ ["/ws/a"; "/ws/b"].
Proof.
  apply (X3_affected_dirs_order_independent
           ["a/x.go"; "b/y.go"] ["b/y.go"; "a/x.go"; "a/x.go"]
           ["/ws/a"; "/ws/b"] ["/ws/b"; "/ws/a"] "/ws").
  - intros f. rewrite !elem_of_cons, !elem_of_nil. tauto.
  - intros d. rewrite !elem_of_cons, !elem_of_nil. tauto.
  - vm_compute. first [reflexivity | apply perm_swap].
  - vm_compute. first [reflexivity | apply perm_swap].
Defined.

(** X4: a changed file marks one directory at most, and only module
    directories are marked: the result is no longer than the list of changed
    files nor than the list of module directories, and it is empty when
    either list is. *)
Theorem X4_affected_dirs_bounds :
  forall (changedFiles moduleDirs : list string) (root : string)
         (result : list string),
    Git.FindAffectedModuleDirs_returns changedFiles moduleDirs root result ->
    (length result <= length changedFiles)%nat
    /\ (length result <= length moduleDirs)%nat
    /\ (changedFiles = [] -> result = [])
    /\ (moduleDirs = [] -> result = []).
Proof.
  intros changedFiles moduleDirs root result Hres.
  unfold Git.FindAffectedModuleDirs_returns in Hres.
  assert (length result = size (dom (Git.affectedDirs changedFiles moduleDirs root)))
    as Hlen by (by rewrite Hres).
  assert (length result <= length changedFiles)%nat as Hfiles.
  { rewrite Hlen.
    etrans; [apply (size_le_length _
                      (omap (fun file =>
                               Git.owner (Git.sortByLengthDesc moduleDirs)
                                 (Filepath.Join root file)) changedFiles))|].
    - intros d (file & Hin & Ho)%affectedDirs_dom.
      apply list_elem_of_omap. by exists file.
    - apply omap_length_le. }
  assert (length result <= length moduleDirs)%nat as Hdirs.
  { rewrite Hlen. apply size_le_length.
    intros d (file & Hin & Ho)%affectedDirs_dom.
    by apply owner_spec in Ho as (? & _). }
  split; [done|]. split; [done|].
  split; intros ->; simpl in *; destruct result; simpl in *; done || lia.
Qed.

Lemma X4_affected_dirs_bounds_witness :
  (length ["/ws/a"] <= length ["a/x.go"; "a/y.go"; "README.md"])%nat.
Proof.
  apply (X4_affected_dirs_bounds ["a/x.go"; "a/y.go"; "README.md"]
           ["/ws/a"; "/ws/b"] "/ws" ["/ws/a"]).
  vm_compute. reflexivity.
Defined.

End GitMore.

Section GitPaths.

(** A string without the byte [sep]. *)
Let free_of (sep : ascii) (s : string) : Prop :=
  forall a b, s <> a +:+ String sep b.

Lemma append_nil_l (s : string) : "" +:+ s = s.
Proof. reflexivity. Qed.

Lemma SplitN2_spec (s : string) (sep : ascii) :
  exists head tail,
    GoStrings.SplitN2 s sep = head :: tail
    /\ free_of sep head
    /\ ((tail = [] /\ s = head)
        \/ exists rest, tail = [rest] /\ s = head +:+ String sep rest).
Proof.
  induction s as [|c s IH]; simpl.
  - exists "", []. split; [done|]. split; [|by left].
    intros [|x a] b; by rewrite ?append_nil_l, ?append_cons.
  - destruct (Ascii.eqb_spec c sep) as [->|Hne].
    + exists "", [s]. split; [done|]. split; [|right; by exists s].
      intros [|x a] b; by rewrite ?append_nil_l, ?append_cons.
    + destruct IH as (head & tail & -> & Hfree & Hcut).
      exists (String c head), tail. split; [done|]. split.
      * intros [|x a] b; rewrite ?append_nil_l, ?append_cons; [congruence|].
        intros [= _ H]. by apply Hfree in H.
      * destruct Hcut as [[-> ->]|(rest & -> & ->)]; [by left|].
        right. exists rest. by rewrite append_cons.
Qed.

Lemma Split_spec (s : string) (sep : ascii) :
  GoStrings.Join (GoStrings.Split s sep) (String sep "") = s
  /\ Forall (free_of sep) (GoStrings.Split s sep).
Proof.
  induction s as [|c s [IHj IHf]].
  - split; [done|]. constructor; [|constructor].
    intros [|x a] b; by rewrite ?append_nil_l, ?append_cons.
  - pose proof (Split_not_nil s sep) as Hnn.
    cbn [GoStrings.Split].
    destruct (GoStrings.Split s sep) as [|w ws] eqn:Hs; [done|].
    destruct (Ascii.eqb_spec c sep) as [->|Hne].
    + split.
      * change (GoStrings.Join ("" :: w :: ws) (String sep ""))
          with (String sep (GoStrings.Join (w :: ws) (String sep ""))).
        by rewrite IHj.
      * constructor; [|done].
        intros [|x a] b; by rewrite ?append_nil_l, ?append_cons.
    + split.
      * destruct ws as [|w' ws].
        -- change (String c w = String c s). by rewrite <- IHj.
        -- change (String c (GoStrings.Join (w :: w' :: ws) (String sep ""))
                   = String c s).
           by rewrite IHj.
      * inversion IHf as [|? ? Hw Hws]; subst. constructor; [|done].
        intros [|x a] b; rewrite ?append_nil_l, ?append_cons; [congruence|].
        intros [= _ H]. by apply Hw in H.
Qed.

Lemma extractRootDirectory_spec (filePath : string) :
  free_of Filepath.Separator (Git.extractRootDirectory filePath)
  /\ Git.under filePath (Git.extractRootDirectory filePath).
Proof.
  unfold Git.extractRootDirectory, Git.under.
  destruct (SplitN2_spec filePath Filepath.Separator)
    as (head & tail & -> & Hfree & Hcut).
  split; [done|].
  destruct Hcut as [[_ ->]|(rest & _ & ->)]; [by left | right; by exists rest].
Qed.

Lemma affectedRootDirs_dom (changedFiles : list string) (d : string) :
  d ∈ dom (Git.affectedRootDirs changedFiles)
  <-> d <> "" /\ exists file, file ∈ changedFiles /\ Git.extractRootDirectory file = d.
Proof.
  unfold Git.affectedRootDirs.
  set (f := fun (acc : gmap string bool) file => _).
  assert (forall files acc,
    d ∈ dom (foldl f acc files)
    <-> d ∈ dom acc
        \/ (d <> "" /\ exists file, file ∈ files /\ Git.extractRootDirectory file = d))
    as Hgen.
  { induction files as [|file files IH]; intros acc; simpl.
    - split; [by left|]. intros [?|(_ & file & ?%elem_of_nil & _)]; done.
    - rewrite IH. unfold f.
      destruct (String.eqb_spec (Git.extractRootDirectory file) "") as [He|He]; simpl.
      + split.
        * intros [?|(Hd & file' & ? & ?)]; [by left | right].
          split; [done|]. exists file'. split; [by right | done].
        * intros [?|(Hd & file' & [->|?]%elem_of_cons & Hf)];
            [by left | congruence |].
          right. split; [done|]. by exists file'.
      + rewrite dom_insert, elem_of_union, elem_of_singleton. split.
        * intros [[->|?]|(Hd & file' & ? & ?)]; [right | by left | right].
          -- split; [done|]. exists file. split; [left | done].
          -- split; [done|]. exists file'. split; [by right | done].
        * intros [?|(Hd & file' & [->|?]%elem_of_cons & Hf)].
          -- left. by right.
          -- left. left. congruence.
          -- right. split; [done|]. by exists file'. }
  rewrite Hgen, dom_empty. split; [intros [?%elem_of_empty|?]; done | by right].
Qed.

(** X5: [extractRootDirectory] returns the part of the path before its first
    separator: the result holds no separator, and the path is the result
    itself or goes on after it with a separator; a path that starts with a
    separator, or an empty one, has the empty root. *)
Theorem X5_extractRootDirectory_first_element :
  forall (filePath : string),
    (forall a b, Git.extractRootDirectory filePath <> a +:+ "/" +:+ b)
    /\ (filePath = Git.extractRootDirectory filePath
        \/ exists rest,
             filePath = Git.extractRootDirectory filePath +:+ "/" +:+ rest)
    /\ (Git.extractRootDirectory filePath = ""
        <-> filePath = "" \/ exists rest, filePath = "/" +:+ rest).
Proof.
  intros filePath.
  destruct (extractRootDirectory_spec filePath) as [Hfree Hunder].
  split; [exact Hfree|]. split; [exact Hunder|]. split.
  - intros He. rewrite He in Hunder.
    destruct Hunder as [->|[rest ->]]; [by left | right; by exists rest].
  - intros [->|[rest ->]]; reflexivity.
Qed.

(** X6: [GetAffectedRootDirectories] passes the error of [GetChangedFiles] on
    unchanged; otherwise, whatever the order of its result, the result is
    the set of the non-empty root directories of the changed files, each
    once. It compares against the reference itself, never the merge-base. *)
Theorem X6_affected_root_directories :
  forall (git : Git.Commands) (compareBranch dir : string)
         (r : Git.error + list string),
    Git.GetAffectedRootDirectories_returns git compareBranch dir r ->
    match r with
    | inl e => Git.GetChangedFiles git compareBranch false dir = inl e
    | inr result =>
        exists changedFiles,
          Git.GetChangedFiles git compareBranch false dir = inr changedFiles
          /\ NoDup result
          /\ ("" ∉ result)
          /\ (forall d, d ∈ result
                <-> d <> "" /\ exists file, file ∈ changedFiles
                              /\ Git.extractRootDirectory file = d)
    end
    /\ (forall git',
          Git.diff_output git' = Git.diff_output git ->
          Git.GetAffectedRootDirectories_returns git' compareBranch dir r).
Proof.
  intros git compareBranch dir r Hr. split.
  - unfold Git.GetAffectedRootDirectories_returns in Hr.
    destruct (Git.GetChangedFiles git compareBranch false dir)
      as [e|changedFiles]; [by subst r|].
    destruct Hr as (result & Hperm & ->). exists changedFiles.
    split; [done|]. split; [rewrite Hperm; apply NoDup_elements|].
    assert (forall d, d ∈ result
              <-> d <> "" /\ exists file, file ∈ changedFiles
                            /\ Git.extractRootDirectory file = d) as Hmem.
    { intros d. rewrite Hperm, elem_of_elements. apply affectedRootDirs_dom. }
    split; [|done]. intros [Hne _]%Hmem. done.
  - intros git' Hdiff. unfold Git.GetAffectedRootDirectories_returns in *.
    unfold Git.GetChangedFiles in *. by rewrite Hdiff.
Qed.

Lemma X6_affected_root_directories_witness :
  "" ∉ ["core"; "utils"].
Proof.
  pose (git := {| Git.merge_base_output := fun _ _ => inl "unused";
                  Git.diff_output := fun _ _ =>
                    inr ("core/core.go" +:+ String "010" "utils/utils.go"
                         +:+ String "010" "core/core_test.go"
                         +:+ String "010" "") |}).
  destruct (X6_affected_root_directories git "main" "/ws" (inr ["core"; "utils"]))
    as [(files & _ & _ & Hno & _) _]; [|exact Hno].
  unfold Git.GetAffectedRootDirectories_returns.
  assert (Git.GetChangedFiles git "main" false "/ws"
          = inr ["core/core.go"; "utils/utils.go"; "core/core_test.go"]) as ->
    by (vm_compute; reflexivity).
  exists ["core"; "utils"]. split; [|reflexivity].
  vm_compute. first [reflexivity | apply perm_swap].
Defined.

(** X7: the list [GetChangedFiles] builds from the output of git loses
    nothing: its entries joined by newlines are the trimmed output again,
    and no entry holds a newline. *)
Theorem X7_split_output_round_trip :
  forall (output : string),
    GoStrings.Join (Git.splitOutput output) (String "010" "")
    = GoStrings.TrimSpace output
    /\ (forall file a b,
          file ∈ Git.splitOutput output -> file <> a +:+ String "010" b).
Proof.
  intros output. unfold Git.splitOutput.
  destruct (String.eqb_spec (GoStrings.TrimSpace output) "") as [->|Hne].
  - split; [done|]. by intros file a b ?%elem_of_nil.
  - destruct (Split_spec (GoStrings.TrimSpace output) "010"%char) as [Hj Hf].
    split; [done|]. intros file a b Hin.
    eapply Forall_forall in Hf; [|done]. apply Hf.
Qed.

(** X8: [GetChangedFiles] returns a list exactly when the git commands it
    runs succeed. With the merge-base asked for, a failure of
    [git merge-base] is the error, with both prefixes, whatever [git diff]
    would do; and the diff is taken against the trimmed output of
    [git merge-base]. A failure of [git diff] is the error otherwise. *)
Theorem X8_changed_files_errors :
  forall (git : Git.Commands) (compareRef dir : string),
    (forall e,
        Git.merge_base_output git compareRef dir = inl e ->
        Git.GetChangedFiles git compareRef true dir
        = inl ("failed to get merge-base: git merge-base failed: " +:+ e))
    /\ (forall mergeBase,
          Git.merge_base_output git compareRef dir = inr mergeBase ->
          Git.GetChangedFiles git compareRef true dir
          = Git.GetChangedFiles git (GoStrings.TrimSpace mergeBase) false dir)
    /\ (forall e,
          Git.diff_output git compareRef dir = inl e ->
          Git.GetChangedFiles git compareRef false dir
          = inl ("error executing git diff: " +:+ e))
    /\ (forall useMergeBase,
          (exists files, Git.GetChangedFiles git compareRef useMergeBase dir = inr files)
          <-> exists ref output,
                (if useMergeBase
                 then exists mergeBase,
                        Git.merge_base_output git compareRef dir = inr mergeBase
                        /\ ref = GoStrings.TrimSpace mergeBase
                 else ref = compareRef)
                /\ Git.diff_output git ref dir = inr output).
Proof.
  intros git compareRef dir. unfold Git.GetChangedFiles, Git.getMergeBase.
  split; [|split; [|split]].
  - intros e ->. reflexivity.
  - by intros mergeBase ->.
  - by intros e ->.
  - intros [|].
    + destruct (Git.merge_base_output git compareRef dir) as [e|mergeBase].
      * split; [by intros [files ?] | by intros (? & ? & (? & ? & _) & _)].
      * destruct (Git.diff_output git (GoStrings.TrimSpace mergeBase) dir)
          as [e|output] eqn:Hd.
        -- split; [by intros [files ?]|].
           intros (? & ? & (mb & [= <-] & ->) & Hd'). congruence.
        -- split; [|by eexists]. intros _.
           exists (GoStrings.TrimSpace mergeBase), output.
           split; [by exists mergeBase | done].
    + destruct (Git.diff_output git compareRef dir) as [e|output] eqn:Hd.
      * split; [by intros [files ?]|]. intros (? & ? & -> & Hd'). congruence.
      * split; [|by eexists]. intros _. by exists compareRef, output.
Qed.

End GitPaths.

(** ** [lib/analyser/primitive.go] and its use in [runAffected] *)

Section DependencyMore.

Lemma GetDependencyPaths_spec (g : Analyser.Graph) (vertex : string) :
  is_Some (g !! vertex) ->
  exists paths,
    Analyser.GetDependencyPaths g vertex = inr paths
    /\ NoDup paths
    /\ (forall v, v ∈ paths <-> Analyser.reachable g vertex v /\ v <> vertex).
Proof.
  intros [adj Hvertex]. unfold Analyser.GetDependencyPaths. rewrite Hvertex.
  destruct (dfs_loop_terminates g (Analyser.visitor vertex)
              (Analyser.dfs_fuel g) [vertex] ∅ []) as [paths Hrun].
  { rewrite difference_empty_L. unfold Analyser.dfs_fuel. simpl. lia. }
  rewrite Hrun. exists paths. split; [done|].
  apply dfs_loop_steps in Hrun.
  exact (dfs_inv_rtc g vertex _ _ Hrun (dfs_inv_init g vertex)).
Qed.

Lemma GetDependencyPaths_inr (g : Analyser.Graph) (vertex : string)
    (paths : list string) :
  Analyser.GetDependencyPaths g vertex = inr paths ->
  is_Some (g !! vertex)
  /\ NoDup paths
  /\ (forall v, v ∈ paths <-> Analyser.reachable g vertex v /\ v <> vertex).
Proof.
  intros Hrun. destruct (g !! vertex) as [adj|] eqn:Hvertex.
  - destruct (GetDependencyPaths_spec g vertex) as (paths' & Hrun' & Hspec);
      [by rewrite Hvertex|].
    rewrite Hrun in Hrun'. injection Hrun' as <-. split; [by eexists | done].
  - unfold Analyser.GetDependencyPaths in Hrun. by rewrite Hvertex in Hrun.
Qed.

Lemma reachable_stuck (g : Analyser.Graph) (vertex v : string) :
  (forall u, u ∈ Analyser.adjacent g vertex -> u = vertex) ->
  Analyser.reachable g vertex v -> v = vertex.
Proof.
  intros Hself Hreach. unfold Analyser.reachable in Hreach.
  remember vertex as x eqn:Hx in Hreach.
  induction Hreach as [|x y z Hedge Hrest IH]; [done|]. subst x.
  apply Hself in Hedge. by apply IH.
Qed.

Lemma foldl_add_elem (deps : list string) (acc : gset string) (v : string) :
  v ∈ foldl (fun acc dep => {[dep]} ∪ acc) acc deps <-> v ∈ acc \/ v ∈ deps.
Proof.
  revert acc. induction deps as [|dep deps IH]; intros acc; simpl.
  - split; [by left | by intros [?|?%elem_of_nil]].
  - rewrite IH, elem_of_union, elem_of_singleton, elem_of_cons. tauto.
Qed.

(** X9: [GetDependencyPaths] fails for a vertex that is not in the graph,
    with the error of the traversal wrapped, and for nothing else: for a
    vertex of the graph the traversal always comes to its end. *)
Theorem X9_dependency_lookup_fails_only_off_graph :
  forall (g : Analyser.Graph) (vertex : string) (e : Analyser.error),
    Analyser.GetDependencyPaths g vertex = inl e
    <-> g !! vertex = None
        /\ e = "failed to perform DFS for vertex " +:+ vertex
               +:+ ": could not find start vertex with hash " +:+ vertex.
Proof.
  intros g vertex e. split.
  - intros Hrun. destruct (g !! vertex) as [adj|] eqn:Hvertex.
    + destruct (GetDependencyPaths_spec g vertex) as (paths & Hrun' & _);
        [by rewrite Hvertex|]. congruence.
    + split; [done|]. unfold Analyser.GetDependencyPaths in Hrun.
      rewrite Hvertex in Hrun. by injection Hrun as <-.
  - intros [Hvertex ->]. unfold Analyser.GetDependencyPaths. by rewrite Hvertex.
Qed.

(** X10: a module has no dependency paths, which is an empty result and not
    an error, exactly when it is in the graph and no edge leads from it to
    another module. *)
Theorem X10_no_dependencies_is_empty_result :
  forall (g : Analyser.Graph) (vertex : string),
    Analyser.GetDependencyPaths g vertex = inr []
    <-> is_Some (g !! vertex)
        /\ forall u, u ∈ Analyser.adjacent g vertex -> u = vertex.
Proof.
  intros g vertex. split.
  - intros (Hin & _ & Hpaths)%GetDependencyPaths_inr. split; [done|].
    intros u Hu. destruct (decide (u = vertex)) as [|Hne]; [done|].
    assert (u ∈ ([] : list string)) as ?%elem_of_nil; [|done].
    apply Hpaths. split; [|done]. by apply rtc_once.
  - intros [Hin Hself].
    destruct (GetDependencyPaths_spec g vertex Hin) as (paths & -> & _ & Hpaths).
    f_equal. destruct paths as [|v paths]; [done|].
    destruct (Hpaths v) as [[Hreach Hne] _]; [left|].
    by apply (reachable_stuck g vertex v Hself) in Hreach.
Qed.

(** X11: dependency paths compose: what a dependency of a module depends on,
    the module depends on as well, unless it is the module itself (the
    graph may hold a cycle). *)
Theorem X11_dependencies_are_transitive :
  forall (g : Analyser.Graph) (vertex u : string) (paths paths' : list string),
    Analyser.GetDependencyPaths g vertex = inr paths ->
    u ∈ paths ->
    Analyser.GetDependencyPaths g u = inr paths' ->
    forall w, w ∈ paths' -> w = vertex \/ w ∈ paths.
Proof.
  intros g vertex u paths paths' (_ & _ & Hp)%GetDependencyPaths_inr Hu
    (_ & _ & Hp')%GetDependencyPaths_inr w Hw.
  destruct (decide (w = vertex)) as [|Hne]; [by left | right].
  apply Hp. split; [|done].
  apply Hp in Hu as [Hvu _]. apply Hp' in Hw as [Huw _].
  unfold Analyser.reachable in *. by etrans.
Qed.

Lemma X11_dependencies_are_transitive_witness :
  "core" = "app" \/ "core" ∈ ["api"; "core"].
Proof.
  pose (g := <["app" := {["api"]}]> (<["api" := {["core"]}]> (<["core" := ∅]> ∅))
             : Analyser.Graph).
  apply (X11_dependencies_are_transitive g "app" "api" ["api"; "core"] ["core"]).
  - vm_compute. reflexivity.
  - apply list_elem_of_here.
  - vm_compute. reflexivity.
  - apply list_elem_of_here.
Defined.

Lemma allAffected_superset (graph : Analyser.Graph) (paths : list string)
    (v : string) :
  v ∈ paths -> v ∈ Main.allAffected graph paths.
Proof.
  intros Hv. unfold Main.allAffected.
  set (step := fun (acc : gset string) p => _).
  assert (forall ps acc, v ∈ acc -> v ∈ foldl step acc ps) as Hmono.
  { induction ps as [|p ps IH]; intros acc Hacc; simpl; [done|].
    apply IH. unfold step.
    destruct (Analyser.GetDependencyPaths graph p); [done|].
    apply foldl_add_elem. by left. }
  apply Hmono, foldl_add_elem. by right.
Qed.

(** X12: with [--include-deps] the set [runAffected] prints holds every
    affected module and, for each affected module that is in the graph,
    everything reachable from it; nothing else. A dependent of an affected
    module gets in only if it is affected or reachable itself. *)
Theorem X12_include_deps_closure :
  forall (graph : Analyser.Graph) (paths : list string) (v : string),
    v ∈ Main.allAffected graph paths
    <-> v ∈ paths
        \/ exists p, p ∈ paths /\ is_Some (graph !! p)
                     /\ Analyser.reachable graph p v.
Proof.
  intros graph paths v. unfold Main.allAffected.
  set (step := fun (acc : gset string) p => _).
  assert (forall ps acc,
    v ∈ foldl step acc ps
    <-> v ∈ acc
        \/ exists p deps, p ∈ ps /\ Analyser.GetDependencyPaths graph p = inr deps
                          /\ v ∈ deps) as Hgen.
  { induction ps as [|p ps IH]; intros acc; simpl.
    - split; [by left|]. by intros [?|(? & ? & ?%elem_of_nil & _)].
    - rewrite IH. unfold step.
      destruct (Analyser.GetDependencyPaths graph p) as [e|deps] eqn:Hp.
      + split.
        * intros [?|(p' & deps & ? & ? & ?)]; [by left | right].
          exists p', deps. split; [by right | done].
        * intros [?|(p' & deps & [->|?]%elem_of_cons & Hd & ?)];
            [by left | congruence |].
          right. by exists p', deps.
      + rewrite foldl_add_elem. split.
        * intros [[?|?]|(p' & deps' & ? & ? & ?)]; [by left | right | right].
          -- exists p, deps. split; [left | done].
          -- exists p', deps'. split; [by right | done].
        * intros [?|(p' & deps' & [->|?]%elem_of_cons & Hd & ?)].
          -- left. by left.
          -- left. right. congruence.
          -- right. by exists p', deps'. }
  rewrite Hgen, foldl_add_elem. split.
  - intros [[?%elem_of_empty|?]|(p & deps & Hin & Hd & Hv)]; [done | by left |].
    apply GetDependencyPaths_inr in Hd as (Hsome & _ & Hdeps).
    right. exists p. split; [done|]. split; [done|]. by apply Hdeps.
  - intros [?|(p & Hin & Hsome & Hreach)]; [left; by right|].
    destruct (decide (v = p)) as [->|Hne]; [left; by right|].
    destruct (GetDependencyPaths_spec graph p Hsome) as (deps & Hd & _ & Hdeps).
    right. exists p, deps. split; [done|]. split; [done|]. by apply Hdeps.
Qed.


End DependencyMore.

(** ** [BuildDependencyGraph] and [findModuleForImport] *)

Section GraphBuild.

Lemma AddEdge_dom (g : Analyser.Graph) (src dst : string) :
  dom (Analyser.AddEdge g src dst) = dom g.
Proof.
  unfold Analyser.AddEdge.
  destruct (g !! src) as [adj|] eqn:Hs; [|done].
  destruct (g !! dst) as [adj'|]; [|done].
  rewrite dom_insert_L. apply elem_of_dom_2 in Hs. set_solver.
Qed.

Lemma AddEdge_adjacent (g : Analyser.Graph) (src dst v u : string) :
  u ∈ Analyser.adjacent (Analyser.AddEdge g src dst) v
  <-> u ∈ Analyser.adjacent g v
      \/ (v = src /\ u = dst /\ src ∈ dom g /\ dst ∈ dom g).
Proof.
  unfold Analyser.AddEdge, Analyser.adjacent.
  destruct (g !! src) as [adj|] eqn:Hs.
  - destruct (g !! dst) as [adj'|] eqn:Hd.
    + destruct (decide (v = src)) as [->|Hne].
      * rewrite lookup_insert_eq, Hs. simpl.
        rewrite elem_of_union, elem_of_singleton.
        apply elem_of_dom_2 in Hs. apply elem_of_dom_2 in Hd. naive_solver.
      * rewrite lookup_insert_ne by done. naive_solver.
    + apply not_elem_of_dom in Hd. naive_solver.
  - apply not_elem_of_dom in Hs. naive_solver.
Qed.

Lemma add_edges_from (src : string) (l : list string) :
  forall (g : Analyser.Graph),
    dom (foldl (fun g dep => Analyser.AddEdge g src dep) g l) = dom g
    /\ forall v u,
         u ∈ Analyser.adjacent
               (foldl (fun g dep => Analyser.AddEdge g src dep) g l) v
         <-> u ∈ Analyser.adjacent g v
             \/ (v = src /\ u ∈ l /\ src ∈ dom g /\ u ∈ dom g).
Proof.
  induction l as [|dep l IH]; intros g; simpl.
  - split; [done|]. intros v u. split; [by left|].
    by intros [?|(_ & ?%elem_of_nil & _)].
  - destruct (IH (Analyser.AddEdge g src dep)) as [Hdom Hadj].
    rewrite AddEdge_dom in Hdom. split; [done|].
    intros v u. rewrite Hadj, AddEdge_adjacent, AddEdge_dom, elem_of_cons.
    naive_solver.
Qed.

Lemma add_edges_entries (kvs : list (string * gset string)) :
  forall (g : Analyser.Graph),
    let g' := foldl (fun g entry =>
                       foldl (fun g dep => Analyser.AddEdge g entry.1 dep) g
                             (elements entry.2)) g kvs in
    dom g' = dom g
    /\ forall v u,
         u ∈ Analyser.adjacent g' v
         <-> u ∈ Analyser.adjacent g v
             \/ (exists d, (v, d) ∈ kvs /\ u ∈ d /\ v ∈ dom g /\ u ∈ dom g).
Proof.
  induction kvs as [|[src d] kvs IH]; intros g; simpl.
  - split; [done|]. intros v u. split; [by left|].
    by intros [?|(? & ?%elem_of_nil & _)].
  - destruct (add_edges_from src (elements d) g) as [Hdom1 Hadj1].
    destruct (IH (foldl (fun g dep => Analyser.AddEdge g src dep) g (elements d)))
      as [Hdom Hadj].
    simpl in Hdom, Hadj. rewrite Hdom1 in Hdom. split; [done|].
    intros v u. rewrite Hadj, Hadj1, Hdom1. split.
    + intros [[?|(-> & Hu%elem_of_elements & ? & ?)]|(d' & ? & ? & ? & ?)].
      * by left.
      * right. exists d. split; [left | done].
      * right. exists d'. split; [by right | done].
    + intros [?|(d' & [[= -> ->]|?]%elem_of_cons & ? & ? & ?)].
      * left. by left.
      * left. right. by rewrite elem_of_elements.
      * right. by exists d'.
Qed.

Lemma add_edges_spec (g : Analyser.Graph) (moduleDeps : gmap string (gset string)) :
  dom (Analyser.add_edges g moduleDeps) = dom g
  /\ forall v u,
       u ∈ Analyser.adjacent (Analyser.add_edges g moduleDeps) v
       <-> u ∈ Analyser.adjacent g v
           \/ (u ∈ default ∅ (moduleDeps !! v) /\ v ∈ dom g /\ u ∈ dom g).
Proof.
  unfold Analyser.add_edges.
  destruct (add_edges_entries (map_to_list moduleDeps) g) as [Hdom Hadj].
  split; [done|]. intros v u. rewrite Hadj. split.
  - intros [?|(d & Hd%elem_of_map_to_list & ? & ? & ?)]; [by left | right].
    by rewrite Hd.
  - intros [?|(Hu & ? & ?)]; [by left | right].
    destruct (moduleDeps !! v) as [d|] eqn:Hd; simpl in Hu; [|set_solver].
    exists d. by rewrite elem_of_map_to_list.
Qed.

Lemma workspaceModules_spec (modules : list Analyser.Module) (p : string) :
  (Analyser.in_workspace (Analyser.workspaceModules modules) p = true
   <-> exists m, m ∈ modules /\ Analyser.Path m = p)
  /\ (p ∈ dom (Analyser.workspaceModules modules)
      <-> exists m, m ∈ modules /\ Analyser.Path m = p).
Proof.
  unfold Analyser.workspaceModules, Analyser.in_workspace.
  assert (forall l (acc : gmap string bool),
    (forall q b, acc !! q = Some b -> b = true) ->
    let wm := foldl (fun acc m => <[Analyser.Path m := true]> acc) acc l in
    (forall q b, wm !! q = Some b -> b = true)
    /\ (p ∈ dom wm <-> p ∈ dom acc \/ exists m, m ∈ l /\ Analyser.Path m = p))
    as Hgen.
  { induction l as [|m l IH]; intros acc Hacc; simpl.
    - split; [done|]. split; [by left|]. by intros [?|(? & ?%elem_of_nil & _)].
    - destruct (IH (<[Analyser.Path m := true]> acc)) as [Htrue Hdom].
      { intros q b. destruct (decide (q = Analyser.Path m)) as [->|Hne].
        - rewrite lookup_insert_eq. congruence.
        - rewrite lookup_insert_ne by done. apply Hacc. }
      split; [done|]. simpl in Hdom.
      rewrite Hdom, dom_insert, elem_of_union, elem_of_singleton.
      setoid_rewrite elem_of_cons. naive_solver. }
  destruct (Hgen modules ∅) as [Htrue Hdom]; [by intros q b; rewrite lookup_empty|].
  simpl in Htrue, Hdom. rewrite dom_empty in Hdom.
  set (wm := foldl _ ∅ modules) in *.
  assert (p ∈ dom wm <-> exists m, m ∈ modules /\ Analyser.Path m = p) as Hdom'.
  { rewrite Hdom. split; [intros [?%elem_of_empty|?]; done | by right]. }
  split; [|done]. rewrite <- Hdom', elem_of_dom.
  destruct (wm !! p) as [b|] eqn:Hp; simpl.
  - apply Htrue in Hp as ->. split; [by eexists | done].
  - split; [done | by intros [? ?]].
Qed.

Lemma vertices_spec (modules : list Analyser.Module) (p : string) :
  (p ∈ dom (Analyser.vertices modules)
   <-> exists m, m ∈ modules /\ Analyser.Path m = p)
  /\ Analyser.adjacent (Analyser.vertices modules) p = ∅.
Proof.
  unfold Analyser.vertices.
  assert (forall l (acc : Analyser.Graph),
    Analyser.adjacent acc p = ∅ ->
    let g := foldl (fun g m => Analyser.AddVertex g (Analyser.Path m)) acc l in
    Analyser.adjacent g p = ∅
    /\ (p ∈ dom g <-> p ∈ dom acc \/ exists m, m ∈ l /\ Analyser.Path m = p))
    as Hgen.
  { induction l as [|m l IH]; intros acc Hacc; simpl.
    - split; [done|]. split; [by left|]. by intros [?|(? & ?%elem_of_nil & _)].
    - destruct (IH (Analyser.AddVertex acc (Analyser.Path m))) as [Hadj Hdom].
      { unfold Analyser.AddVertex, Analyser.adjacent in *.
        destruct (acc !! Analyser.Path m) eqn:Hm; [done|].
        destruct (decide (p = Analyser.Path m)) as [->|Hne].
        - by rewrite lookup_insert_eq.
        - by rewrite lookup_insert_ne. }
      split; [done|]. simpl in Hdom. rewrite Hdom.
      assert (p ∈ dom (Analyser.AddVertex acc (Analyser.Path m))
              <-> p ∈ dom acc \/ p = Analyser.Path m) as ->.
      { unfold Analyser.AddVertex.
        destruct (acc !! Analyser.Path m) eqn:Hm.
        - apply elem_of_dom_2 in Hm. naive_solver.
        - rewrite dom_insert, elem_of_union, elem_of_singleton. naive_solver. }
      setoid_rewrite elem_of_cons. naive_solver. }
  destruct (Hgen modules ∅) as [Hadj Hdom]; [done|].
  simpl in *. rewrite dom_empty in Hdom. split; [|done].
  rewrite Hdom. split; [intros [?%elem_of_empty|?]; done | by right].
Qed.

Lemma moduleDeps_init_spec (modules : list Analyser.Module) (p : string) :
  default ∅ (Analyser.moduleDeps_init modules !! p) = ∅.
Proof.
  unfold Analyser.moduleDeps_init.
  assert (forall l (acc : gmap string (gset string)),
    default ∅ (acc !! p) = ∅ ->
    default ∅ (foldl (fun acc m => <[Analyser.Path m := ∅]> acc) acc l !! p) = ∅)
    as Hgen.
  { induction l as [|m l IH]; intros acc Hacc; simpl; [done|].
    apply IH. destruct (decide (p = Analyser.Path m)) as [->|Hne].
    - by rewrite lookup_insert_eq.
    - by rewrite lookup_insert_ne. }
  by apply Hgen.
Qed.

End GraphBuild.

Section ImportResolution.

Variable itm : gmap string string.
Variable wm : gmap string bool.

Lemma in_workspace_dom (p : string) :
  Analyser.in_workspace wm p = true -> p ∈ dom wm.
Proof.
  unfold Analyser.in_workspace. intros H. apply elem_of_dom.
  destruct (wm !! p); [by eexists | done].
Qed.

(** A call returns the module of the package scan when that is a workspace
    module, and otherwise any key the import path starts with, or the empty
    string when there is none. *)
Lemma findModuleForImport_returns_cases (imp r : string) :
  Analyser.findModuleForImport_returns imp itm wm r
  <-> (exists m, itm !! imp = Some m /\ Analyser.in_workspace wm m = true /\ r = m)
      \/ ((forall m, itm !! imp = Some m -> Analyser.in_workspace wm m = false)
          /\ ((r ∈ dom wm /\ Analyser.imports_from imp r = true)
              \/ ((forall k, k ∈ dom wm -> Analyser.imports_from imp k = false)
                  /\ r = ""))).
Proof.
  unfold Analyser.findModuleForImport_returns, Analyser.findModuleForImport_in.
  assert (forall order,
            order ≡ₚ elements (dom wm) ->
            (default "" (find (Analyser.imports_from imp) order) ∈ dom wm
             /\ Analyser.imports_from imp
                  (default "" (find (Analyser.imports_from imp) order)) = true)
            \/ ((forall k, k ∈ dom wm -> Analyser.imports_from imp k = false)
                /\ default "" (find (Analyser.imports_from imp) order) = ""))
    as Hscan.
  { intros order Hperm.
    destruct (find (Analyser.imports_from imp) order) as [k|] eqn:Hf; simpl.
    - left. apply find_Some_elem in Hf as [Hin Hk].
      rewrite Hperm, elem_of_elements in Hin. done.
    - right. split; [|done]. intros k Hk.
      rewrite find_None_elem in Hf. apply Hf.
      by rewrite Hperm, elem_of_elements. }
  assert (forall k,
            ((k ∈ dom wm /\ Analyser.imports_from imp k = true)
             \/ ((forall k', k' ∈ dom wm -> Analyser.imports_from imp k' = false)
                 /\ k = "")) ->
            exists order,
              order ≡ₚ elements (dom wm)
              /\ k = default "" (find (Analyser.imports_from imp) order))
    as Hpick.
  { intros k [[Hin Hk]|[Hnone ->]].
    - exists (k :: elements (dom wm ∖ {[k]})). split.
      + rewrite <- elements_union_singleton by set_solver.
        assert (dom wm = {[k]} ∪ dom wm ∖ {[k]}) as <-; [|done].
        apply set_eq. intros x. destruct (decide (x = k)); set_solver.
      + simpl. by rewrite Hk.
    - exists (elements (dom wm)). split; [done|].
      assert (find (Analyser.imports_from imp) (elements (dom wm)) = None) as ->;
        [|done].
      apply find_None_elem. intros k Hk. apply Hnone.
      by rewrite elem_of_elements in Hk. }
  destruct (itm !! imp) as [m|] eqn:Hm.
  - destruct (Analyser.in_workspace wm m) eqn:Hw.
    + split.
      * intros (order & _ & ->). left. by exists m.
      * intros [(m' & [= <-] & _ & ->)|[Hno _]].
        -- by exists (elements (dom wm)).
        -- specialize (Hno m eq_refl). congruence.
    + split.
      * intros (order & Hperm & ->). right. split; [by intros ? [= <-]|].
        by apply Hscan.
      * intros [(m' & [= <-] & ? & _)|[_ Hr]]; [congruence|]. by apply Hpick.
  - split.
    + intros (order & Hperm & ->). right. split; [done|]. by apply Hscan.
    + intros [(m' & [=] & _)|[_ Hr]]. by apply Hpick.
Qed.

Lemma findModuleForImport_returns_key (imp r : string) :
  Analyser.findModuleForImport_returns imp itm wm r -> r = "" \/ r ∈ dom wm.
Proof.
  intros [(m & _ & Hw & ->)|[_ [[? _]|[_ ->]]]]%findModuleForImport_returns_cases.
  - right. by apply in_workspace_dom.
  - by right.
  - by left.
Qed.

Lemma add_dep_lookup (src dep v u : string) (deps : gmap string (gset string)) :
  u ∈ default ∅ (Analyser.add_dep src dep deps !! v)
  <-> u ∈ default ∅ (deps !! v)
      \/ (v = src /\ u = dep /\ dep <> "" /\ dep <> src).
Proof.
  unfold Analyser.add_dep.
  destruct (String.eqb_spec dep "") as [He|He]; simpl; [naive_solver|].
  destruct (String.eqb_spec dep src) as [Hs|Hs]; simpl; [naive_solver|].
  destruct (decide (v = src)) as [->|Hne].
  - rewrite lookup_insert_eq. simpl. rewrite elem_of_union, elem_of_singleton.
    naive_solver.
  - rewrite lookup_insert_ne by done. naive_solver.
Qed.

Lemma scan_imports_spec (src : string) (imps : list string)
    (deps deps' : gmap string (gset string)) :
  Analyser.scan_imports itm wm src imps deps deps' ->
  (forall v u,
      u ∈ default ∅ (deps' !! v) ->
      u ∈ default ∅ (deps !! v)
      \/ (v = src /\ u <> "" /\ u <> src
          /\ exists imp, imp ∈ imps
                         /\ Analyser.findModuleForImport_returns imp itm wm u))
  /\ (forall v u, u ∈ default ∅ (deps !! v) -> u ∈ default ∅ (deps' !! v))
  /\ (forall imp,
        imp ∈ imps ->
        exists r, Analyser.findModuleForImport_returns imp itm wm r
                  /\ (r <> "" -> r <> src -> r ∈ default ∅ (deps' !! src))).
Proof.
  induction 1 as [deps|imp imps deps deps' r Hr Hscan (IHs & IHm & IHc)].
  - split; [by left|]. split; [done|]. by intros imp ?%elem_of_nil.
  - split; [|split].
    + intros v u Hu. destruct (IHs v u Hu) as [Hold|(-> & ? & ? & imp' & ? & ?)].
      * apply add_dep_lookup in Hold as [?|(-> & -> & ? & ?)]; [by left | right].
        split; [done|]. split; [done|]. split; [done|].
        exists imp. split; [left | done].
      * right. split; [done|]. split; [done|]. split; [done|].
        exists imp'. split; [by right | done].
    + intros v u Hu. apply IHm. apply add_dep_lookup. by left.
    + intros imp' [->|Hin]%elem_of_cons; [|by apply IHc].
      exists r. split; [done|]. intros Hne Hsrc.
      apply IHm, add_dep_lookup. by right.
Qed.

Local Abbreviation import_edge := (Analyser.import_edge itm wm).

Lemma scan_packages_spec (pkgs : list Analyser.Package.t)
    (deps deps' : gmap string (gset string)) :
  Analyser.scan_packages itm wm pkgs deps deps' ->
  (forall v u,
      u ∈ default ∅ (deps' !! v) ->
      u ∈ default ∅ (deps !! v)
      \/ (u <> "" /\ u <> v /\ import_edge pkgs v u))
  /\ (forall v u, u ∈ default ∅ (deps !! v) -> u ∈ default ∅ (deps' !! v))
  /\ (forall pkg m imp,
        pkg ∈ pkgs ->
        Analyser.Package.Module pkg = Some m ->
        Analyser.in_workspace wm (Analyser.Path m) = true ->
        imp ∈ Analyser.Package.Imports pkg ->
        exists r, Analyser.findModuleForImport_returns imp itm wm r
                  /\ (r <> "" -> r <> Analyser.Path m ->
                      r ∈ default ∅ (deps' !! Analyser.Path m))).
Proof.
  assert (forall pkg pkgs v u,
            import_edge pkgs v u -> import_edge (pkg :: pkgs) v u) as Hweak.
  { intros pkg pkgs0 v u (pkg' & m & imp & ? & ?).
    exists pkg', m, imp. split; [by right | done]. }
  induction 1 as [deps|pkg pkgs deps deps' Hnone Hscan (IHs & IHm & IHc)
                  |pkg pkgs m deps deps' Hsome Hout Hscan (IHs & IHm & IHc)
                  |pkg pkgs m deps deps1 deps' Hsome Hin Himps Hscan (IHs & IHm & IHc)].
  - split; [by left|]. split; [done|]. by intros pkg m imp ?%elem_of_nil.
  - split; [|split; [done|]].
    + intros v u Hu. destruct (IHs v u Hu) as [?|(? & ? & ?)]; [by left | right].
      split; [done|]. split; [done|]. by apply Hweak.
    + intros pkg' m imp [->|?]%elem_of_cons; [congruence | by apply IHc].
  - split; [|split; [done|]].
    + intros v u Hu. destruct (IHs v u Hu) as [?|(? & ? & ?)]; [by left | right].
      split; [done|]. split; [done|]. by apply Hweak.
    + intros pkg' m' imp [->|?]%elem_of_cons; [|by apply IHc].
      rewrite Hsome. intros [= <-]. congruence.
  - destruct (scan_imports_spec _ _ _ _ Himps) as (Hs1 & Hm1 & Hc1).
    split; [|split].
    + intros v u Hu. destruct (IHs v u Hu) as [Hold|(? & ? & ?)].
      * destruct (Hs1 v u Hold) as [?|(-> & ? & ? & imp & ? & ?)]; [by left | right].
        split; [done|]. split; [done|].
        exists pkg, m, imp. split; [left | done].
      * right. split; [done|]. split; [done|]. by apply Hweak.
    + intros v u Hu. by apply IHm, Hm1.
    + intros pkg' m' imp [->|?]%elem_of_cons; [|by apply IHc].
      rewrite Hsome. intros [= <-] _ Himp. destruct (Hc1 imp Himp) as (r & Hr & Hedge).
      exists r. split; [done|]. intros ? ?. by apply IHm, Hedge.
Qed.

Lemma scan_imports_run_ok (src : string) (imps : list string) :
  forall deps,
    Analyser.scan_imports itm wm src imps deps
      (Analyser.scan_imports_run itm wm src imps deps).
Proof.
  induction imps as [|imp imps IH]; intros deps; simpl; [constructor|].
  econstructor; [|apply IH]. by exists (elements (dom wm)).
Qed.

Lemma scan_packages_run_ok (pkgs : list Analyser.Package.t) :
  forall deps,
    Analyser.scan_packages itm wm pkgs deps
      (Analyser.scan_packages_run itm wm pkgs deps).
Proof.
  induction pkgs as [|pkg pkgs IH]; intros deps; [constructor|].
  unfold Analyser.scan_packages_run. simpl.
  destruct (Analyser.Package.Module pkg) as [m|] eqn:Hm.
  - destruct (Analyser.in_workspace wm (Analyser.Path m)) eqn:Hw.
    + eapply Analyser.scan_packages_inside; [done | done | | apply IH].
      apply scan_imports_run_ok.
    + eapply Analyser.scan_packages_outside; [done | done | apply IH].
  - apply Analyser.scan_packages_no_module; [done | apply IH].
Qed.

End ImportResolution.

(** X13: [findModuleForImport] answers with the module the package scan
    gives for the import path when that module is in the workspace.
    Otherwise it answers with a workspace module whose path the import path
    is or lies under, and any such module can be the answer (the keys are
    ranged over in no fixed order, and the first match is taken, not the
    longest); with no such module the answer is the empty string. *)
Theorem X13_findModuleForImport_answers :
  forall (importPath : string) (importToModule : gmap string string)
         (workspaceModules : gmap string bool) (r : string),
    Analyser.findModuleForImport_returns importPath importToModule workspaceModules r
    <-> (exists m,
            importToModule !! importPath = Some m
            /\ workspaceModules !! m = Some true
            /\ r = m)
        \/ ((forall m, importToModule !! importPath = Some m ->
                       workspaceModules !! m <> Some true)
            /\ ((r ∈ dom workspaceModules
                 /\ (importPath = r
                     \/ exists rest, importPath = r +:+ "/" +:+ rest))
                \/ ((forall k rest, k ∈ dom workspaceModules ->
                                    importPath <> k
                                    /\ importPath <> k +:+ "/" +:+ rest)
                    /\ r = ""))).
Proof.
  intros importPath itm wm r. rewrite findModuleForImport_returns_cases.
  assert (forall m, Analyser.in_workspace wm m = true <-> wm !! m = Some true) as Hw.
  { intros m. unfold Analyser.in_workspace.
    destruct (wm !! m) as [[|]|]; simpl; split; congruence. }
  assert (forall m, Analyser.in_workspace wm m = false <-> wm !! m <> Some true) as Hw'.
  { intros m. rewrite <- Hw. by destruct (Analyser.in_workspace wm m). }
  assert (forall k, Analyser.imports_from importPath k = true
                    <-> Git.under importPath k) as Hfrom.
  { intros k. apply belongs_spec. }
  unfold Git.under in Hfrom.
  setoid_rewrite Hw. setoid_rewrite Hw'. setoid_rewrite Hfrom.
  assert ((forall k, k ∈ dom wm -> Analyser.imports_from importPath k = false)
          <-> (forall k rest, k ∈ dom wm ->
                 importPath <> k /\ importPath <> k +:+ "/" +:+ rest)) as ->; [|done].
  split.
  - intros Hno k rest Hk. specialize (Hno k Hk).
    apply not_true_iff_false in Hno. rewrite Hfrom in Hno.
    split; [by intros ?; apply Hno; left|].
    intros ?. apply Hno. right. by exists rest.
  - intros Hno k Hk. apply not_true_iff_false. rewrite Hfrom.
    intros [?|[rest ?]]; [by destruct (Hno k "" Hk) | by destruct (Hno k rest Hk)].
Qed.

(** X14: the graph [BuildDependencyGraph] returns has the paths of the
    workspace modules as its vertices and nothing else, no module depends
    on itself in it, and every edge joins two of its vertices, so that the
    dependency lookup never meets a module that is not in the graph. *)
Theorem X14_dependency_graph_shape :
  forall (modules : list Analyser.Module) (listed : Analyser.error + list Analyser.Package.t)
         (g : Analyser.Graph),
    Analyser.BuildDependencyGraph_returns modules listed (inr g) ->
    (forall p, p ∈ dom g <-> exists m, m ∈ modules /\ Analyser.Path m = p)
    /\ (forall v u,
          u ∈ Analyser.adjacent g v -> u <> v /\ v ∈ dom g /\ u ∈ dom g).
Proof.
  intros modules listed g Hret. unfold Analyser.BuildDependencyGraph_returns in Hret.
  destruct modules as [|m0 modules].
  { injection Hret as ->. split.
    - intros p. rewrite dom_empty. split; [by intros ?%elem_of_empty|].
      by intros (m & ?%elem_of_nil & _).
    - intros v u. unfold Analyser.adjacent. rewrite lookup_empty. simpl.
      by intros ?%elem_of_empty. }
  destruct listed as [e|packages]; [done|].
  destruct Hret as (deps & Hscan & [= ->]).
  destruct (add_edges_spec (Analyser.vertices (m0 :: modules)) deps) as [Hdom Hadj].
  split.
  - intros p. rewrite Hdom. apply vertices_spec.
  - intros v u Hu. apply Hadj in Hu as [Hu|(Hu & Hv & Hu')].
    + destruct (vertices_spec (m0 :: modules) v) as [_ Hempty].
      rewrite Hempty in Hu. by apply elem_of_empty in Hu.
    + rewrite Hdom. split; [|done].
      apply (scan_packages_spec _ _ _ _ _ Hscan) in Hu as [Hu|(_ & Hne & _)]; [|done].
      rewrite moduleDeps_init_spec in Hu. by apply elem_of_empty in Hu.
Qed.

Lemma X14_dependency_graph_shape_witness :
  "example.com/core" ∈ dom ({[ "example.com/core" := ∅ ]} : Analyser.Graph)
  <-> exists m, m ∈ [Scenario.core] /\ Analyser.Path m = "example.com/core".
Proof.
  apply (X14_dependency_graph_shape [Scenario.core] (inr [])
           {[ "example.com/core" := ∅ ]}).
  exists (Analyser.moduleDeps_init [Scenario.core]).
  split; [constructor | reflexivity].
Defined.

(** X15: the edges of the graph are the imports across workspace modules.
    An edge from a module to another is there only if a package of the
    first imports a path that resolves to the second; and for every import
    of a package of a workspace module, a module it resolves to, when
    there is one other than the module of the package, is joined to it by
    an edge. *)
Theorem X15_dependency_graph_edges :
  forall (m0 : Analyser.Module) (modules : list Analyser.Module)
         (packages : list Analyser.Package.t) (g : Analyser.Graph),
    Analyser.BuildDependencyGraph_returns (m0 :: modules) (inr packages) (inr g) ->
    (forall v u,
        u ∈ Analyser.adjacent g v ->
        exists pkg m imp,
          pkg ∈ packages
          /\ Analyser.Package.Module pkg = Some m
          /\ Analyser.Path m = v
          /\ imp ∈ Analyser.Package.Imports pkg
          /\ Analyser.findModuleForImport_returns imp
               (Analyser.importToModule packages)
               (Analyser.workspaceModules (m0 :: modules)) u)
    /\ (forall pkg m imp,
          pkg ∈ packages ->
          Analyser.Package.Module pkg = Some m ->
          (exists m', m' ∈ m0 :: modules /\ Analyser.Path m' = Analyser.Path m) ->
          imp ∈ Analyser.Package.Imports pkg ->
          exists r,
            Analyser.findModuleForImport_returns imp
              (Analyser.importToModule packages)
              (Analyser.workspaceModules (m0 :: modules)) r
            /\ (r <> "" -> r <> Analyser.Path m ->
                r ∈ Analyser.adjacent g (Analyser.Path m))).
Proof.
  intros m0 modules packages g (deps & Hscan & [= ->]).
  set (itm := Analyser.importToModule packages) in *.
  set (wm := Analyser.workspaceModules (m0 :: modules)) in *.
  destruct (add_edges_spec (Analyser.vertices (m0 :: modules)) deps) as [Hdom Hadj].
  destruct (scan_packages_spec itm wm _ _ _ Hscan) as (Hsound & _ & Hcomplete).
  split.
  - intros v u Hu. apply Hadj in Hu as [Hu|(Hu & _ & _)].
    + destruct (vertices_spec (m0 :: modules) v) as [_ Hempty].
      rewrite Hempty in Hu. by apply elem_of_empty in Hu.
    + apply Hsound in Hu as [Hu|(_ & _ & pkg & m & imp & ? & ? & ? & _ & ? & ?)].
      * rewrite moduleDeps_init_spec in Hu. by apply elem_of_empty in Hu.
      * by exists pkg, m, imp.
  - intros pkg m imp Hpkg Hm Hws Himp.
    assert (Analyser.in_workspace wm (Analyser.Path m) = true) as Hin
      by (by apply workspaceModules_spec).
    destruct (Hcomplete pkg m imp Hpkg Hm Hin Himp) as (r & Hr & Hedge).
    exists r. split; [done|]. intros Hne Hsrc. apply Hadj. right.
    split; [by apply Hedge|]. split.
    + by apply vertices_spec.
    + apply findModuleForImport_returns_key in Hr as [?|Hr]; [done|].
      apply vertices_spec.
      by destruct (workspaceModules_spec (m0 :: modules) r) as [_ [? _]]; auto.
Qed.

Lemma X15_dependency_graph_edges_witness :
  exists r,
    Analyser.findModuleForImport_returns "example.com/core/log"
      (Analyser.importToModule
         [{| Analyser.Package.Dir := "/ws/api";
             Analyser.Package.ImportPath := "example.com/api";
             Analyser.Package.Name := "api";
             Analyser.Package.Module :=
               Some {| Analyser.Path := "example.com/api"; Analyser.Main := true;
                       Analyser.Dir := "/ws/api"; Analyser.GoMod := "";
                       Analyser.GoVersion := "" |};
             Analyser.Package.Imports := ["example.com/core/log"] |}])
      (Analyser.workspaceModules
         [Scenario.core;
          {| Analyser.Path := "example.com/api"; Analyser.Main := true;
             Analyser.Dir := "/ws/api"; Analyser.GoMod := "";
             Analyser.GoVersion := "" |}]) r.
Proof.
  set (api := {| Analyser.Path := "example.com/api"; Analyser.Main := true;
                 Analyser.Dir := "/ws/api"; Analyser.GoMod := "";
                 Analyser.GoVersion := "" |}).
  set (pkg := {| Analyser.Package.Dir := "/ws/api";
                 Analyser.Package.ImportPath := "example.com/api";
                 Analyser.Package.Name := "api";
                 Analyser.Package.Module := Some api;
                 Analyser.Package.Imports := ["example.com/core/log"] |}).
  destruct (X15_dependency_graph_edges Scenario.core [api] [pkg]
              (Analyser.add_edges (Analyser.vertices [Scenario.core; api])
                 (Analyser.scan_packages_run (Analyser.importToModule [pkg])
                    (Analyser.workspaceModules [Scenario.core; api]) [pkg]
                    (Analyser.moduleDeps_init [Scenario.core; api]))))
    as [_ Hcomplete].
  { eexists. split; [apply scan_packages_run_ok | reflexivity]. }
  destruct (Hcomplete pkg api "example.com/core/log") as (r & Hr & _).
  - apply list_elem_of_here.
  - reflexivity.
  - exists api. split; [right; left | reflexivity].
  - apply list_elem_of_here.
  - by exists r.
Defined.

(** ** [main.go]: the futures and the batch *)

Section FutureFacts.

Lemma handleTaskFuture_delivered (id : string) (rs : list Main.Received) :
  is_Some (Main.handleTaskFuture id rs) <-> is_Some (Main.delivered rs).
Proof.
  induction rs as [|[output ok|output ok|result] rs IH]; simpl.
  - done.
  - rewrite <- IH. destruct (Main.handleTaskFuture id rs); simpl;
      split; intros [? ?]; by eauto.
  - rewrite <- IH. destruct (Main.handleTaskFuture id rs); simpl;
      split; intros [? ?]; by eauto.
  - split; intros _; by eexists.
Qed.

Lemma handleTaskFuture_cut (id : string) (before after : list Main.Received)
    (result : Runner.Result) :
  Main.delivered before = None ->
  Main.handleTaskFuture id (before ++ Main.FromDone result :: after)
  = Main.handleTaskFuture id (before ++ [Main.FromDone result]).
Proof.
  induction before as [|[output ok|output ok|result'] before IH]; simpl;
    intros Hnone; [done | by rewrite IH | by rewrite IH | done].
Qed.

Lemma handleTaskFuture_events (id : string) (rs : list Main.Received) :
  forall evs,
    Main.handleTaskFuture id rs = Some evs ->
    forall ev, ev ∈ evs ->
      (exists msg, ev = Main.LogWithTaskId id msg /\ msg <> "")
      \/ (exists status ok, ev = Main.LogStatus id status ok).
Proof.
  assert (forall output ok ev,
            ev ∈ Main.handleOutput id output ok ->
            exists msg, ev = Main.LogWithTaskId id msg /\ msg <> "") as Hout.
  { intros output ok ev. unfold Main.handleOutput.
    destruct ok; simpl; [|by intros ?%elem_of_nil].
    destruct output as [|c output]; simpl; [by intros ?%elem_of_nil|].
    intros ->%list_elem_of_singleton. by eexists. }
  induction rs as [|[output ok|output ok|result] rs IH]; intros evs; simpl.
  - done.
  - destruct (Main.handleTaskFuture id rs) as [evs'|]; simpl; [|done].
    intros [= <-] ev [?|?]%elem_of_app; [left; by eapply Hout | by eapply IH].
  - destruct (Main.handleTaskFuture id rs) as [evs'|]; simpl; [|done].
    intros [= <-] ev [?|?]%elem_of_app; [left; by eapply Hout | by eapply IH].
  - intros [= <-] ev ->%list_elem_of_singleton. right. by eexists _, _.
Qed.

(** X16: the loop of [handleTaskFuture] ends exactly when a result arrives
    on [Done]. What arrives after the first result is never looked at, so
    output still in the channels then is not logged. Every line logged
    before carries the identifier of the task and a non-empty chunk; the
    status line carries the identifier too. *)
Theorem X16_handleTaskFuture_stops_at_result :
  forall (id : string) (rs : list Main.Received),
    (is_Some (Main.handleTaskFuture id rs) <-> is_Some (Main.delivered rs))
    /\ (forall before after result,
          Main.delivered before = None ->
          Main.handleTaskFuture id (before ++ Main.FromDone result :: after)
          = Main.handleTaskFuture id (before ++ [Main.FromDone result]))
    /\ (forall evs ev,
          Main.handleTaskFuture id rs = Some evs ->
          ev ∈ evs ->
          (exists msg, ev = Main.LogWithTaskId id msg /\ msg <> "")
          \/ (exists status ok, ev = Main.LogStatus id status ok)).
Proof.
  intros id rs. split; [apply handleTaskFuture_delivered|].
  split; [intros; by apply handleTaskFuture_cut|].
  intros evs ev Hrun Hin. by eapply handleTaskFuture_events.
Qed.

Lemma runOnModules_shape (w : Main.World) (r : Runner.Runner) (cmd : string)
    (modules : list Analyser.Module) (evs : list Main.Event)
    (logs : list (list Main.Event)) :
  Main.runOnModules w r cmd modules = Some (evs, logs) ->
  evs = [Main.RunTasksCalled (Main.createTasks modules cmd)]
  /\ length logs = length modules.
Proof.
  unfold Main.runOnModules. intros Hrun.
  destruct (mapM _ _) as [logs'|] eqn:Hmap; simpl in Hrun; [|done].
  injection Hrun as <- <-. split; [done|].
  apply length_mapM in Hmap. rewrite <- Hmap. simpl.
  unfold Main.createTasks. by rewrite length_imap, length_fmap.
Qed.

(** X17: [runOnModules] returns exactly when every future of the batch
    delivers a result. It then has handed the engine one task per module,
    in the order of the modules, and for each module the events of its
    future end with the status of its result under the path of the module. *)
Theorem X17_runOnModules_waits_for_all :
  forall (w : Main.World) (r : Runner.Runner) (cmd : string)
         (modules : list Analyser.Module),
    (is_Some (Main.runOnModules w r cmd modules)
     <-> forall i, (i < length modules)%nat ->
           is_Some (Main.delivered (Main.received w (length (Runner.slots r) + i))))
    /\ (forall evs logs,
          Main.runOnModules w r cmd modules = Some (evs, logs) ->
          evs = [Main.RunTasksCalled (Main.createTasks modules cmd)]
          /\ length logs = length modules
          /\ forall i m,
               modules !! i = Some m ->
               exists l result status,
                 logs !! i = Some l
                 /\ Main.delivered (Main.received w (length (Runner.slots r) + i))
                    = Some result
                 /\ last l = Some (Main.LogStatus (Analyser.Path m) status
                                     (Runner.Status result =? 0)%Z)).
Proof.
  intros w r cmd modules. unfold Main.runOnModules.
  set (tfs := (Runner.RunTasks r (Main.createTasks modules cmd)).2).
  assert (forall i, tfs !! i
            = (fun m => {| Runner.future_Id := Analyser.Path m;
                           Runner.slot := length (Runner.slots r) + i |})
              <$> modules !! i) as Htfs.
  { intros i. unfold tfs, Main.createTasks. simpl.
    rewrite list_lookup_imap, list_lookup_fmap. by destruct (modules !! i). }
  assert (length tfs = length modules) as Hlen.
  { unfold tfs, Main.createTasks. simpl. by rewrite length_imap, length_fmap. }
  set (f := fun tf => Main.handleTaskFuture (Runner.future_Id tf)
                        (Main.received w (Runner.slot tf))).
  split.
  - assert (is_Some (mapM f tfs) <-> Forall (fun tf => is_Some (f tf)) tfs) as Hm
      by apply mapM_is_Some.
    assert (is_Some (mapM f tfs ≫= fun logs =>
              Some ([Main.RunTasksCalled (Main.createTasks modules cmd)], logs))
            <-> is_Some (mapM f tfs)) as ->.
    { destruct (mapM f tfs); simpl; split; intros [? ?]; by eauto. }
    rewrite Hm, Forall_lookup. split.
    + intros Hall i Hi.
      destruct (lookup_lt_is_Some_2 modules i Hi) as [m Hmi].
      specialize (Htfs i). rewrite Hmi in Htfs. simpl in Htfs.
      apply Hall in Htfs. unfold f in Htfs. simpl in Htfs.
      by apply handleTaskFuture_delivered in Htfs.
    + intros Hall i tf Htf. rewrite Htfs in Htf.
      destruct (modules !! i) as [m|] eqn:Hmi; simpl in Htf; [|done].
      injection Htf as <-. unfold f. simpl.
      apply handleTaskFuture_delivered, Hall. by eapply lookup_lt_Some.
  - intros evs logs Hrun.
    destruct (mapM f tfs) as [logs'|] eqn:Hmap; simpl in Hrun; [|done].
    injection Hrun as <- <-. split; [done|].
    apply mapM_Some in Hmap.
    split; [by rewrite <- (Forall2_length _ _ _ Hmap)|].
    intros i m Hmi. specialize (Htfs i). rewrite Hmi in Htfs. simpl in Htfs.
    destruct (Forall2_lookup_l _ _ _ _ _ Hmap Htfs) as (l & Hl & Hf).
    unfold f in Hf. simpl in Hf.
    destruct (handleTaskFuture_status _ _ _ Hf) as (result & status & Hd & Hlast).
    by exists l, result, status.
Qed.


End FutureFacts.

(** ** [main.go]: the [test] and [fmt] commands *)

Section CommandMore.

Lemma commandAction_outcome (w : Main.World) (r : Runner.Runner) (cmd : string)
    (f : Main.Flags) (o : Main.Outcome) :
  Main.commandAction w r cmd f = Some o ->
  (Main.err o <> None /\ Main.events o = [] /\ Main.task_events o = [])
  \/ (Main.err o = None
      /\ Main.events o = [Main.Println "No affected modules found"]
      /\ Main.task_events o = [] /\ Main.affected f = true)
  \/ (Main.err o = None
      /\ exists modulesToRun,
           Main.events o = [Main.RunTasksCalled (Main.createTasks modulesToRun cmd)]
           /\ length (Main.task_events o) = length modulesToRun).
Proof.
  unfold Main.commandAction.
  destruct (Main.Abs w (Main.defaultDir f)) as [e|absPath].
  { intros [= <-]. by left. }
  destruct (Main.ListModule w absPath) as [e|modules].
  { intros [= <-]. by left. }
  assert (forall ms,
            match Main.runOnModules w r cmd ms with
            | Some (evs, logs) =>
                Some {| Main.events := evs; Main.task_events := logs;
                        Main.err := None |}
            | None => None
            end = Some o ->
            Main.err o = None
            /\ exists modulesToRun,
                 Main.events o
                 = [Main.RunTasksCalled (Main.createTasks modulesToRun cmd)]
                 /\ length (Main.task_events o) = length modulesToRun) as Hrun.
  { intros ms.
    destruct (Main.runOnModules w r cmd ms) as [[evs logs]|] eqn:Hr; [|done].
    intros [= <-]. simpl. split; [done|].
    destruct (runOnModules_shape _ _ _ _ _ _ Hr) as (-> & Hlen). by exists ms. }
  destruct (Main.affected f) eqn:Haff.
  - destruct (Git.GetChangedFiles (Main.git w) (Main.base f) true absPath)
      as [e|changedFiles].
    { intros [= <-]. by left. }
    destruct (length (Main.affectedModules modules changedFiles absPath) =? 0)%nat.
    + intros [= <-]. right. by left.
    + intros Ho. right. right. by eapply Hrun.
  - intros Ho. right. right. by eapply Hrun.
Qed.

(** X18: in the [test] and [fmt] commands an error ends the action before
    anything is handed to the engine or printed; and when a batch has been
    handed over there is one batch only, no error, and as many futures
    watched as there are tasks. *)
Theorem X18_error_before_any_task :
  forall (w : Main.World) (r : Runner.Runner) (cmd : string) (f : Main.Flags)
         (o : Main.Outcome),
    Main.commandAction w r cmd f = Some o ->
    (Main.err o <> None -> Main.events o = [] /\ Main.task_events o = [])
    /\ (forall tasks,
          Main.RunTasksCalled tasks ∈ Main.events o ->
          Main.err o = None
          /\ Main.events o = [Main.RunTasksCalled tasks]
          /\ length (Main.task_events o) = length tasks).
Proof.
  intros w r cmd f o Hact.
  destruct (commandAction_outcome w r cmd f o Hact)
    as [(He & Hev & Ht)|[(He & Hev & Ht & _)|(He & ms & Hev & Hlen)]].
  - split; [done|]. rewrite Hev. by intros tasks ?%elem_of_nil.
  - split; [done|]. rewrite Hev. by intros tasks [=]%list_elem_of_singleton.
  - split; [done|]. rewrite Hev. intros tasks [= ->]%list_elem_of_singleton.
    split; [done|]. split; [done|].
    unfold Main.createTasks. by rewrite length_fmap.
Qed.

Lemma X18_error_before_any_task_witness :
  Main.events (Main.failed "go: no go.work file found") = []
  /\ Main.task_events (Main.failed "go: no go.work file found") = [].
Proof.
  pose (w := {| Main.Abs := fun path => inr ("/tmp" : string);
                Main.ListModule := fun _ => inl "go: no go.work file found";
                Main.git := Scenario.no_git;
                Main.BuildDependencyGraph := fun _ => inr ∅;
                Main.received := fun _ => [] |}).
  destruct (X18_error_before_any_task w
              {| Runner.ceiling := 3; Runner.ctx := Scenario.background;
                 Runner.slots := [] |}
              "go test ./..." (Scenario.test_flags ".")
              (Main.failed "go: no go.work file found")) as [Herr _];
    [reflexivity|].
  by apply Herr.
Defined.

(** X19: without [--affected], the batch the [test] and [fmt] commands hand
    to the engine is made of all the modules, or with [--target] of the
    modules whose path is the target, in the order of the listing. A target
    that names no module is no error: the batch is empty and the action
    returns nil. *)
Theorem X19_target_selects_by_path :
  forall (w : Main.World) (r : Runner.Runner) (cmd : string) (f : Main.Flags)
         (absPath : string) (modules : list Analyser.Module),
    Main.Abs w (Main.defaultDir f) = inr absPath ->
    Main.ListModule w absPath = inr modules ->
    Main.affected f = false ->
    (forall o,
        Main.commandAction w r cmd f = Some o ->
        exists selected,
          Main.events o = [Main.RunTasksCalled (Main.createTasks selected cmd)]
          /\ sublist selected modules
          /\ (Main.target f = "" -> selected = modules)
          /\ (Main.target f <> "" ->
              forall m, m ∈ selected <-> m ∈ modules /\ Analyser.Path m = Main.target f))
    /\ (Main.target f <> "" ->
        (forall m, m ∈ modules -> Analyser.Path m <> Main.target f) ->
        Main.commandAction w r cmd f
        = Some {| Main.events := [Main.RunTasksCalled []];
                  Main.task_events := []; Main.err := None |}).
Proof.
  intros w r cmd f absPath modules Habs Hlist Haff.
  unfold Main.commandAction. rewrite Habs, Hlist, Haff. split.
  - intros o.
    destruct (String.eqb_spec (Main.target f) "") as [Ht|Ht]; simpl.
    + destruct (Main.runOnModules w r cmd modules) as [[evs logs]|] eqn:Hr; [|done].
      intros [= <-]. simpl. exists modules.
      destruct (runOnModules_shape _ _ _ _ _ _ Hr) as (-> & _).
      split; [done|]. split; [done|]. split; [done | by intros ?].
    + destruct (Main.runOnModules w r cmd _) as [[evs logs]|] eqn:Hr; [|done].
      intros [= <-]. simpl. exists (Main.filteredModule (Main.target f) modules).
      destruct (runOnModules_shape _ _ _ _ _ _ Hr) as (-> & _).
      split; [done|]. split; [apply sublist_filter|]. split; [done|].
      intros _ m. unfold Main.filteredModule. rewrite list_elem_of_filter. tauto.
  - intros Ht Hnone.
    destruct (String.eqb_spec (Main.target f) "") as [?|_]; [done|]. simpl.
    assert (Main.filteredModule (Main.target f) modules = []) as ->; [|done].
    unfold Main.filteredModule. apply elem_of_nil_inv.
    intros m [Hp Hin]%list_elem_of_filter. by apply (Hnone m).
Qed.

Lemma X19_target_selects_by_path_witness :
  Main.commandAction Scenario.no_changes
    {| Runner.ceiling := 3; Runner.ctx := Scenario.background; Runner.slots := [] |}
    "go test ./..."
    {| Main.defaultDir := "."; Main.target := "example.com/nope";
       Main.affected := false; Main.base := "main"; Main.useColor := false |}
  = Some {| Main.events := [Main.RunTasksCalled []];
            Main.task_events := []; Main.err := None |}.
Proof.
  apply (X19_target_selects_by_path Scenario.no_changes _ "go test ./..."
           {| Main.defaultDir := "."; Main.target := "example.com/nope";
              Main.affected := false; Main.base := "main";
              Main.useColor := false |}
           "/ws" [Scenario.core]); try reflexivity.
  - discriminate.
  - intros m ->%list_elem_of_singleton. discriminate.
Defined.

Lemma FindAffectedModuleDirs_elem (files dirs : list string) (root d : string) :
  d ∈ Git.FindAffectedModuleDirs files dirs root
  <-> exists file, file ∈ files
        /\ Git.owner (Git.sortByLengthDesc dirs) (Filepath.Join root file) = Some d.
Proof.
  unfold Git.FindAffectedModuleDirs. rewrite elem_of_elements.
  apply affectedDirs_dom.
Qed.

Lemma moduleDirToPath_lookup (modules : list Analyser.Module) (d p : string) :
  NoDup (Analyser.Dir <$> modules) ->
  Main.moduleDirToPath modules !! d = Some p
  <-> exists m, m ∈ modules /\ Analyser.Dir m = d /\ Analyser.Path m = p.
Proof.
  unfold Main.moduleDirToPath. intros Hnd.
  assert (forall l (acc : gmap string string),
    NoDup (Analyser.Dir <$> l) ->
    foldl (fun acc m => <[Analyser.Dir m := Analyser.Path m]> acc) acc l !! d = Some p
    <-> (exists m, m ∈ l /\ Analyser.Dir m = d /\ Analyser.Path m = p)
        \/ (acc !! d = Some p /\ forall m, m ∈ l -> Analyser.Dir m <> d)) as Hgen.
  { induction l as [|m l IH]; intros acc Hl; simpl.
    - split; [intros ?; right; split; [done | by intros ? ?%elem_of_nil]|].
      by intros [(? & ?%elem_of_nil & _)|[? _]].
    - rewrite fmap_cons in Hl. apply NoDup_cons in Hl as [Hm Hl].
      rewrite (IH _ Hl). split.
      + intros [(m' & ? & ? & ?)|[Hacc Hno]].
        * left. exists m'. split; [by right | done].
        * destruct (decide (Analyser.Dir m = d)) as [Hd|Hd].
          -- rewrite <- Hd, lookup_insert_eq in Hacc. injection Hacc as <-.
             left. exists m. split; [left | done].
          -- rewrite lookup_insert_ne in Hacc by done. right. split; [done|].
             intros m' [->|?]%elem_of_cons; [done | by apply Hno].
      + intros [(m' & [->|?]%elem_of_cons & Hd & Hp)|[Hacc Hno]].
        * right. subst d p. rewrite lookup_insert_eq. split; [done|].
          intros m' Hm' Heq. apply Hm. rewrite <- Heq.
          apply list_elem_of_fmap. by exists m'.
        * left. by exists m'.
        * right. split.
          -- rewrite lookup_insert_ne; [done|]. apply Hno. left.
          -- intros m' ?. apply Hno. by right. }
  rewrite (Hgen modules ∅ Hnd). rewrite lookup_empty. naive_solver.
Qed.

Lemma affectedPaths_elem (modules : list Analyser.Module) (dirs : list string)
    (p : string) :
  p ∈ Main.affectedPaths modules dirs
  <-> exists dir, dir ∈ dirs /\ Main.moduleDirToPath modules !! dir = Some p.
Proof.
  unfold Main.affectedPaths.
  set (step := fun (acc : gset string) dir => _).
  assert (forall l acc,
    p ∈ foldl step acc l
    <-> p ∈ acc
        \/ exists dir, dir ∈ l /\ Main.moduleDirToPath modules !! dir = Some p)
    as Hgen.
  { induction l as [|dir l IH]; intros acc; simpl.
    - split; [by left|]. by intros [?|(? & ?%elem_of_nil & _)].
    - rewrite IH. unfold step.
      destruct (Main.moduleDirToPath modules !! dir) as [q|] eqn:Hq.
      + rewrite elem_of_union, elem_of_singleton. split.
        * intros [[->|?]|(dir' & ? & ?)]; [right | by left | right].
          -- exists dir. split; [left | done].
          -- exists dir'. split; [by right | done].
        * intros [?|(dir' & [->|?]%elem_of_cons & Hd)].
          -- left. by right.
          -- left. left. congruence.
          -- right. by exists dir'.
      + split.
        * intros [?|(dir' & ? & ?)]; [by left | right].
          exists dir'. split; [by right | done].
        * intros [?|(dir' & [->|?]%elem_of_cons & Hd)]; [by left | congruence |].
          right. by exists dir'. }
  rewrite Hgen. split; [intros [?%elem_of_empty|?]; done | by right].
Qed.

Lemma NoDup_fmap_eq {A B : Type} (f : A -> B) (l : list A) (x y : A) :
  NoDup (f <$> l) -> x ∈ l -> y ∈ l -> f x = f y -> x = y.
Proof.
  induction l as [|a l IH]; [by intros _ ?%elem_of_nil|].
  rewrite fmap_cons. intros [Ha Hl]%NoDup_cons [->|Hx]%elem_of_cons
    [->|Hy]%elem_of_cons Heq; [done | | | by apply IH].
  - destruct Ha. rewrite Heq. apply list_elem_of_fmap. by exists y.
  - destruct Ha. rewrite <- Heq. apply list_elem_of_fmap. by exists x.
Qed.

(** X20: with [--affected], when no two modules share a directory or a
    path, the modules run are the modules whose directory owns a changed
    file (the longest module directory the file lies under), kept in the
    order of the listing. *)
Theorem X20_affected_modules_own_a_change :
  forall (modules : list Analyser.Module) (changedFiles : list string)
         (absPath : string),
    NoDup (Analyser.Dir <$> modules) ->
    NoDup (Analyser.Path <$> modules) ->
    sublist (Main.affectedModules modules changedFiles absPath) modules
    /\ forall m,
         m ∈ Main.affectedModules modules changedFiles absPath
         <-> m ∈ modules
             /\ exists file,
                  file ∈ changedFiles
                  /\ Git.owner (Git.sortByLengthDesc (Analyser.Dir <$> modules))
                        (Filepath.Join absPath file) = Some (Analyser.Dir m).
Proof.
  intros modules changedFiles absPath Hdirs Hpaths.
  unfold Main.affectedModules. split; [apply sublist_filter|].
  intros m. rewrite list_elem_of_filter, affectedPaths_elem. split.
  - intros [(dir & Hdir & Hlook) Hm]. split; [done|].
    apply FindAffectedModuleDirs_elem in Hdir as (file & Hfile & Hown).
    apply (moduleDirToPath_lookup _ _ _ Hdirs) in Hlook as (m' & Hm' & <- & Hp).
    assert (m' = m) as -> by (by eapply (NoDup_fmap_eq Analyser.Path)).
    by exists file.
  - intros [Hm (file & Hfile & Hown)]. split; [|done].
    exists (Analyser.Dir m). split.
    + apply FindAffectedModuleDirs_elem. by exists file.
    + apply (moduleDirToPath_lookup _ _ _ Hdirs). by exists m.
Qed.

Lemma X20_affected_modules_own_a_change_witness :
  sublist (Main.affectedModules [Scenario.core] ["core/core.go"] "/ws")
    [Scenario.core].
Proof.
  apply (X20_affected_modules_own_a_change [Scenario.core] ["core/core.go"] "/ws").
  - vm_compute. apply NoDup_singleton.
  - vm_compute. apply NoDup_singleton.
Defined.

(** X21: with [--affected], when no changed file lies under a module
    directory (none changed at all, for one), the commands print
    "No affected modules found", hand nothing to the engine and return
    nil. *)
Theorem X21_nothing_affected :
  forall (w : Main.World) (r : Runner.Runner) (cmd : string) (f : Main.Flags)
         (absPath : string) (modules : list Analyser.Module)
         (changedFiles : list string),
    Main.Abs w (Main.defaultDir f) = inr absPath ->
    Main.ListModule w absPath = inr modules ->
    Main.affected f = true ->
    Git.GetChangedFiles (Main.git w) (Main.base f) true absPath = inr changedFiles ->
    (forall file m,
        file ∈ changedFiles -> m ∈ modules ->
        ~ Git.under (Filepath.Join absPath file) (Analyser.Dir m)) ->
    Main.commandAction w r cmd f
    = Some {| Main.events := [Main.Println "No affected modules found"];
              Main.task_events := []; Main.err := None |}.
Proof.
  intros w r cmd f absPath modules changedFiles Habs Hlist Haff Hchanged Hnone.
  unfold Main.commandAction. rewrite Habs, Hlist, Haff, Hchanged.
  assert (Main.affectedModules modules changedFiles absPath = []) as ->; [|done].
  unfold Main.affectedModules. apply elem_of_nil_inv.
  intros m [(dir & Hdir & _)%affectedPaths_elem _]%list_elem_of_filter.
  apply FindAffectedModuleDirs_elem in Hdir as (file & Hfile & Hown).
  apply owner_spec in Hown as ((m' & -> & Hm')%list_elem_of_fmap & Hb & _).
  apply belongs_spec in Hb. by apply (Hnone file m').
Qed.

Lemma X21_nothing_affected_witness :
  Main.commandAction Scenario.no_changes
    {| Runner.ceiling := 3; Runner.ctx := Scenario.background; Runner.slots := [] |}
    "go test ./..."
    {| Main.defaultDir := "."; Main.target := ""; Main.affected := true;
       Main.base := "main"; Main.useColor := false |}
  = Some {| Main.events := [Main.Println "No affected modules found"];
            Main.task_events := []; Main.err := None |}.
Proof.
  apply (X21_nothing_affected Scenario.no_changes _ "go test ./..."
           {| Main.defaultDir := "."; Main.target := ""; Main.affected := true;
              Main.base := "main"; Main.useColor := false |}
           "/ws" [Scenario.core] []); try reflexivity.
  by intros file m ?%elem_of_nil.
Defined.

End CommandMore.

(** ** [main.go]: the [affected] command and the graph labels *)

Section AffectedOutput.

Lemma foldl_args (ms : list string) :
  forall acc,
    foldl (fun args m => args ++ ["-p"; m]) acc ms
    = acc ++ mjoin ((fun m => ["-p"; m]) <$> ms).
Proof.
  induction ms as [|m ms IH]; intros acc; simpl.
  - by rewrite app_nil_r.
  - rewrite IH. by rewrite <- app_assoc.
Qed.

Lemma Join_args (ms : list string) :
  GoStrings.Join (mjoin ((fun m => ["-p"; m]) <$> ms)) " "
  = GoStrings.Join ((fun m => "-p " +:+ m) <$> ms) " ".
Proof.
  induction ms as [|m ms IH]; [done|].
  destruct ms as [|m' ms]; [done|].
  change (GoStrings.Join (mjoin ((fun m => ["-p"; m]) <$> m :: m' :: ms)) " ")
    with ("-p " +:+ m +:+ " "
          +:+ GoStrings.Join (mjoin ((fun m => ["-p"; m]) <$> m' :: ms)) " ").
  rewrite IH.
  change (GoStrings.Join ((fun m => "-p " +:+ m) <$> m :: m' :: ms) " ")
    with (("-p " +:+ m) +:+ " "
          +:+ GoStrings.Join ((fun m => "-p " +:+ m) <$> m' :: ms) " ").
  by rewrite append_assoc.
Qed.

(** X22: [outputAffected] fails exactly for a format other than [list],
    [go-args] and [github-matrix], and prints nothing then. [list] prints
    the modules one per line in their order; [go-args] prints one line, the
    modules each after [-p] and separated by spaces (an empty line for no
    module). A nil slice and an empty one print the same in every format. *)
Theorem X22_outputAffected_formats :
  forall (modules : Main.slice) (format : string),
    (Main.err (Main.outputAffected modules format) = None
     <-> format = "list" \/ format = "go-args" \/ format = "github-matrix")
    /\ (Main.err (Main.outputAffected modules format) <> None ->
        Main.events (Main.outputAffected modules format) = [])
    /\ Main.events (Main.outputAffected modules "list")
       = Main.Println <$> Main.range modules
    /\ Main.events (Main.outputAffected modules "go-args")
       = [Main.Println
            (GoStrings.Join ((fun m => "-p " +:+ m) <$> Main.range modules) " ")]
    /\ Main.outputAffected None format = Main.outputAffected (Some []) format.
Proof.
  intros modules format. split; [|split; [|split; [|split]]].
  - unfold Main.outputAffected, Main.FormatList, Main.FormatGoArgs,
      Main.FormatGitHubMatrix.
    destruct (String.eqb_spec format "list") as [->|H1]; [simpl; tauto|].
    destruct (String.eqb_spec format "go-args") as [->|H2]; [simpl; tauto|].
    destruct (String.eqb_spec format "github-matrix") as [->|H3]; [simpl; tauto|].
    simpl. split; [done | tauto].
  - unfold Main.outputAffected.
    destruct (String.eqb format Main.FormatList); [done|].
    destruct (String.eqb format Main.FormatGoArgs); [done|].
    by destruct (String.eqb format Main.FormatGitHubMatrix).
  - reflexivity.
  - unfold Main.outputAffected. simpl.
    by rewrite foldl_args, app_nil_l, Join_args.
  - unfold Main.outputAffected.
    destruct (String.eqb format Main.FormatList); [done|].
    destruct (String.eqb format Main.FormatGoArgs); [done|].
    by destruct (String.eqb format Main.FormatGitHubMatrix).
Qed.

(** X23: without [--include-deps], [runAffected] never looks at the
    dependency graph: it does the same whatever building the graph would
    give. With it, in the [list] format, every module printed without the
    flag is printed with it too, unless building the graph fails. *)
Theorem X23_runAffected_and_the_graph :
  forall (w : Main.World) (path base : string) (useMergeBase : bool),
    (forall format build,
        Main.runAffected
          {| Main.Abs := Main.Abs w; Main.ListModule := Main.ListModule w;
             Main.git := Main.git w; Main.BuildDependencyGraph := build;
             Main.received := Main.received w |}
          path base useMergeBase format false
        = Main.runAffected w path base useMergeBase format false)
    /\ (forall line,
          Main.Println line
            ∈ Main.events (Main.runAffected w path base useMergeBase "list" false) ->
          Main.err (Main.runAffected w path base useMergeBase "list" true) = None ->
          Main.Println line
            ∈ Main.events (Main.runAffected w path base useMergeBase "list" true)).
Proof.
  intros w path base useMergeBase. split.
  - intros format build. unfold Main.runAffected. simpl.
    destruct (Main.Abs w path) as [e|absPath]; [done|].
    destruct (Main.ListModule w absPath) as [e|modules]; [done|].
    destruct (length modules =? 0)%nat; [done|].
    by destruct (Git.GetChangedFiles (Main.git w) base useMergeBase absPath).
  - intros line. unfold Main.runAffected.
    destruct (Main.Abs w path) as [e|absPath]; [done|].
    destruct (Main.ListModule w absPath) as [e|modules]; [done|].
    destruct (length modules =? 0)%nat; [done|].
    destruct (Git.GetChangedFiles (Main.git w) base useMergeBase absPath)
      as [e|changedFiles]; [done|].
    set (paths := omap _ _). simpl.
    destruct (0 <? length paths)%nat; [|done].
    destruct (Main.BuildDependencyGraph w modules) as [e|graph]; [done|].
    simpl. intros (p & [= ->] & Hp)%list_elem_of_fmap _.
    apply list_elem_of_fmap. exists p. split; [done|].
    by apply elem_of_elements, allAffected_superset.
Qed.

End AffectedOutput.

Section Labels.

Lemma LastIndex_spec (s : string) (c : ascii) :
  (GoStrings.LastIndex s c = (-1)%Z /\ forall a b, s <> a +:+ String c b)
  \/ (exists a b,
        s = a +:+ String c b
        /\ (forall a' b', b <> a' +:+ String c b')
        /\ GoStrings.LastIndex s c = Z.of_nat (String.length a)).
Proof.
  induction s as [|x s IH]; simpl.
  - left. split; [done|].
    intros [|y a] b; by rewrite ?append_nil_l, ?append_cons.
  - destruct IH as [[-> Hfree]|(a & b & -> & Hfree & ->)].
    + simpl. destruct (Ascii.eqb_spec x c) as [->|Hne].
      * right. exists "", s. by rewrite append_nil_l.
      * left. split; [done|].
        intros [|y a] b; rewrite ?append_nil_l, ?append_cons; [congruence|].
        intros [= _ H]. by apply Hfree in H.
    + right. exists (String x a), b. rewrite append_cons. split; [done|].
      split; [done|].
      destruct (Z.eqb_spec (Z.of_nat (String.length a)) (-1)); [lia|].
      simpl String.length. lia.
Qed.

Lemma from_append (a : string) (c : ascii) (b : string) :
  GoStrings.from (S (String.length a)) (a +:+ String c b) = b.
Proof.
  induction a as [|x a IH]; [done|].
  rewrite append_cons. exact IH.
Qed.

(** X25: the label of a module in the DOT output is the last element of
    its path: it holds no slash, the path is the label itself or ends
    with a slash and the label, and a path without a slash is its own
    label. *)
Theorem X25_shortName_last_element :
  forall (path : string),
    (forall a b, Main.shortName path <> a +:+ "/" +:+ b)
    /\ (path = Main.shortName path
        \/ exists parent, path = parent +:+ "/" +:+ Main.shortName path)
    /\ ((forall a b, path <> a +:+ "/" +:+ b) -> Main.shortName path = path).
Proof.
  intros path. unfold Main.shortName.
  destruct (LastIndex_spec path "/"%char) as [[-> Hfree]|(a & b & -> & Hfree & ->)].
  - simpl. split; [exact Hfree|]. split; [by left | done].
  - destruct (Z.eqb_spec (Z.of_nat (String.length a)) (-1)); [lia|]. simpl.
    replace (Z.to_nat (Z.of_nat (String.length a) + 1)) with (S (String.length a))
      by lia.
    rewrite from_append. split; [exact Hfree|]. split.
    + right. by exists a.
    + intros Hno. by destruct (Hno a b).
Qed.

End Labels.

(** ** [lib/utils/log.go]: the colour of a task *)

Section Colours.

Lemma fnv32a_Write_range (data : list Z) :
  forall hash,
    (0 <= hash < 2 ^ 32)%Z -> (0 <= Utils.fnv32a_Write hash data < 2 ^ 32)%Z.
Proof.
  unfold Utils.fnv32a_Write.
  induction data as [|b data IH]; intros hash Hh; simpl; [done|].
  apply IH. apply Z.mod_pos_bound. lia.
Qed.

Lemma colorIndex_range (id : string) :
  (0 <= Utils.colorIndex 64 id < 11)%Z.
Proof.
  unfold Utils.colorIndex, Utils.int_of_uint32, Utils.Sum32.
  pose proof (fnv32a_Write_range (Utils.bytes id) Utils.offset32) as Hr.
  unfold Utils.offset32 in Hr at 1 2. specialize (Hr ltac:(lia)).
  set (h := Utils.fnv32a_Write Utils.offset32 (Utils.bytes id)) in *.
  replace ((h + 2 ^ (64 - 1)) mod 2 ^ 64 - 2 ^ (64 - 1))%Z with h
    by (rewrite Z.mod_small; lia).
  change (Z.of_nat (length Utils.taskColors)) with 11%Z.
  apply Z.rem_bound_pos; lia.
Qed.

(** X24: where [int] has 64 bits, [getColorForTask] never indexes
    [taskColors] out of range. It gives a task one of the eleven colours
    (as long as the cache holds such colours only, which it keeps doing),
    records it under the identifier without touching the other entries,
    and gives the same colour at the next call. *)
Theorem X24_getColorForTask_cache :
  forall (id : string) (taskColorMap : gmap string string),
    (forall k c, taskColorMap !! k = Some c -> c ∈ Utils.taskColors) ->
    exists color taskColorMap',
      Utils.getColorForTask 64 id taskColorMap = Some (color, taskColorMap')
      /\ color ∈ Utils.taskColors
      /\ taskColorMap' !! id = Some color
      /\ (forall k, k <> id -> taskColorMap' !! k = taskColorMap !! k)
      /\ (forall k c, taskColorMap' !! k = Some c -> c ∈ Utils.taskColors)
      /\ Utils.getColorForTask 64 id taskColorMap' = Some (color, taskColorMap').
Proof.
  intros id m Hinv. unfold Utils.getColorForTask at 1.
  destruct (m !! id) as [color|] eqn:Hid.
  - exists color, m. split; [done|]. split; [by eapply Hinv|].
    split; [done|]. split; [done|]. split; [done|].
    unfold Utils.getColorForTask. by rewrite Hid.
  - pose proof (colorIndex_range id) as Hidx.
    destruct (Z.ltb_spec (Utils.colorIndex 64 id) 0) as [?|_]; [lia|].
    destruct (lookup_lt_is_Some_2 Utils.taskColors
                (Z.to_nat (Utils.colorIndex 64 id))) as [color Hc].
    { change (length Utils.taskColors) with 11%nat. lia. }
    rewrite Hc. exists color, (<[id := color]> m).
    assert (color ∈ Utils.taskColors) as Hin by (by eapply list_elem_of_lookup_2).
    split; [done|]. split; [done|]. split; [by rewrite lookup_insert_eq|].
    split; [by intros k Hk; rewrite lookup_insert_ne|]. split.
    + intros k c. destruct (decide (k = id)) as [->|Hne].
      * rewrite lookup_insert_eq. by intros [= <-].
      * rewrite lookup_insert_ne by done. apply Hinv.
    + unfold Utils.getColorForTask. by rewrite lookup_insert_eq.
Qed.

Lemma X24_getColorForTask_cache_witness :
  exists color taskColorMap',
    Utils.getColorForTask 64 "example.com/core" ∅ = Some (color, taskColorMap')
    /\ color ∈ Utils.taskColors.
Proof.
  destruct (X24_getColorForTask_cache "example.com/core" ∅)
    as (color & m' & Hrun & Hin & _).
  - intros k c. rewrite lookup_empty. discriminate.
  - by exists color, m'.
Defined.

(** The hash is the 32-bit FNV-1a hash, as its test vectors show. *)
Example Sum32_a : Utils.Sum32 "a" = 0xe40c292c%Z.
Proof. reflexivity. Qed.

Example Sum32_foobar : Utils.Sum32 "foobar" = 0xbf9cf968%Z.
Proof. reflexivity. Qed.

(** Where [int] has 32 bits a hash of 2^31 or more turns negative, and so
    can the index. *)
Example colorIndex_int32 : Utils.colorIndex 32 "a" = (-8)%Z.
Proof. reflexivity. Qed.

End Colours.

(** * The exit status of [knit test] and [knit fmt] *)

(** ** The set-up, the logger and the batch *)

Section ExitStatus.

Lemma commandAction_modulesToRun (w : Main.World) (r : Runner.Runner)
    (cmd : string) (f : Main.Flags) :
  Main.commandAction w r cmd f
  = match Main.modulesToRun w f with
    | inl outcome => Some outcome
    | inr modules =>
        match Main.runOnModules w r cmd modules with
        | Some (evs, logs) =>
            Some {| Main.events := evs; Main.task_events := logs;
                    Main.err := None |}
        | None => None
        end
    end.
Proof.
  unfold Main.commandAction, Main.modulesToRun.
  destruct (Main.Abs w (Main.defaultDir f)) as [e|absPath]; [done|].
  destruct (Main.ListModule w absPath) as [e|modules]; [done|].
  destruct (Main.affected f); [|done].
  destruct (Git.GetChangedFiles _ _ _ _) as [e|changedFiles]; [done|].
  by destruct (length _ =? 0)%nat.
Qed.

Lemma getColorForTask_None (intBits : Z) (id : string) (m : gmap string string) :
  Utils.getColorForTask intBits id m = None
  <-> m !! id = None /\ Utils.getColorForTask intBits id ∅ = None.
Proof.
  unfold Utils.getColorForTask. rewrite lookup_empty.
  destruct (m !! id) as [color|]; [naive_solver|].
  destruct (Utils.colorIndex intBits id <? 0)%Z; [naive_solver|].
  destruct (Utils.taskColors !! _); naive_solver.
Qed.

Lemma getColorForTask_cached (intBits : Z) (id : string)
    (m m' : gmap string string) (color : string) :
  Utils.getColorForTask intBits id m = Some (color, m') ->
  forall k, is_Some (m' !! k) ->
    is_Some (m !! k) \/ Utils.getColorForTask intBits k ∅ <> None.
Proof.
  unfold Utils.getColorForTask at 1.
  destruct (m !! id) as [c|] eqn:Hid.
  { intros [= <- <-] k Hk. by left. }
  intros Hrun k Hk. destruct (decide (k = id)) as [->|Hne].
  - right. intros Hbad. unfold Utils.getColorForTask in Hbad.
    rewrite lookup_empty in Hbad.
    destruct (Utils.colorIndex intBits id <? 0)%Z; [done|].
    destruct (Utils.taskColors !! _); done.
  - left. destruct (Utils.colorIndex intBits id <? 0)%Z; [done|].
    destruct (Utils.taskColors !! _); [|done].
    injection Hrun as <- <-. by rewrite lookup_insert_ne in Hk.
Qed.


Lemma logger_run_no_colour (intBits : Z) (calls : list Main.Event) :
  forall m, Main.logger_run intBits false m calls = Some m.
Proof.
  induction calls as [|ev calls IH]; intros m; simpl; [done|].
  unfold Main.logger_call. by destruct ev.
Qed.

(** With colours, a run of the logger from a cache it has filled itself
    panics exactly when one of the calls is for a task whose colour index
    is out of range, whatever the order of the calls. *)
Lemma logger_run_None (intBits : Z) (calls : list Main.Event) :
  forall m,
    (forall k, is_Some (m !! k) -> Utils.getColorForTask intBits k ∅ <> None) ->
    Main.logger_run intBits true m calls = None
    <-> exists ev id,
          ev ∈ calls /\ Main.logged_id ev = Some id
          /\ Utils.getColorForTask intBits id ∅ = None.
Proof.
  induction calls as [|ev calls IH]; intros m Hm; simpl.
  { split; [done|]. intros (ev & id & Hin & _). by apply elem_of_nil in Hin. }
  assert (forall m',
            Main.logger_call intBits true m ev = Some m' ->
            (forall k, is_Some (m' !! k) ->
               Utils.getColorForTask intBits k ∅ <> None)
            /\ forall id, Main.logged_id ev = Some id ->
                 Utils.getColorForTask intBits id ∅ <> None) as Hstep.
  { intros m' Hcall.
    assert (forall id, Main.logged_id ev = Some id ->
              snd <$> Utils.getColorForTask intBits id m = Some m') as Hid.
    { intros id Hev. by destruct ev; simplify_eq/=. }
    destruct (Main.logged_id ev) as [id|] eqn:Hev.
    - specialize (Hid id eq_refl).
      destruct (Utils.getColorForTask intBits id m) as [[color m'']|] eqn:Hget;
        simplify_eq/=.
      split.
      + intros k Hk.
        destruct (getColorForTask_cached _ _ _ _ _ Hget k Hk); [by apply Hm|done].
      + intros id' [= <-].
        destruct (getColorForTask_cached _ _ _ _ _ Hget id) as [Hc|Hc];
          [|by apply Hm|done].
        unfold Utils.getColorForTask in Hget.
        destruct (m !! id) eqn:Hmid.
        * injection Hget as <- <-. by rewrite Hmid.
        * destruct (Utils.colorIndex intBits id <? 0)%Z; [done|].
          destruct (Utils.taskColors !! _); [|done].
          injection Hget as <- <-. by rewrite lookup_insert_eq.
    - split; [|done]. by destruct ev; simplify_eq/=. }
  destruct (Main.logger_call intBits true m ev) as [m'|] eqn:Hcall.
  - destruct (Hstep m' eq_refl) as [Hm' Hev]. rewrite (IH m' Hm').
    split.
    + intros (ev' & id & Hin & Hid & Hbad). exists ev', id.
      split; [by right|done].
    + intros (ev' & id & Hin & Hid & Hbad). exists ev', id.
      apply elem_of_cons in Hin as [->|Hin]; [|done].
      by destruct (Hev id Hid).
  - split; [|done]. intros _.
    destruct ev as [| | | |id msg|id status b]; simplify_eq/=.
    + destruct (Utils.getColorForTask intBits id m) eqn:Hget; [done|].
      apply getColorForTask_None in Hget as [_ Hbad].
      exists (Main.LogWithTaskId id msg), id. split; [by left|done].
    + destruct (Utils.getColorForTask intBits id m) eqn:Hget; [done|].
      apply getColorForTask_None in Hget as [_ Hbad].
      exists (Main.LogStatus id status b), id. split; [by left|done].
Qed.

Lemma logged_id_logged (id : string) (rs : list Main.Received) (ev : Main.Event) :
  ev ∈ Main.logged id rs -> Main.logged_id ev = Some id.
Proof.
  induction rs as [|r rs IH]; simpl; [by intros ?%elem_of_nil|].
  destruct r as [output ok|output ok|result].
  - rewrite elem_of_app. intros [Hin|Hin]; [|by apply IH].
    unfold Main.handleOutput in Hin. destruct (negb ok); [by apply elem_of_nil in Hin|].
    destruct (0 <? String.length output)%nat; [|by apply elem_of_nil in Hin].
    by apply list_elem_of_singleton in Hin as ->.
  - rewrite elem_of_app. intros [Hin|Hin]; [|by apply IH].
    unfold Main.handleOutput in Hin. destruct (negb ok); [by apply elem_of_nil in Hin|].
    destruct (0 <? String.length output)%nat; [|by apply elem_of_nil in Hin].
    by apply list_elem_of_singleton in Hin as ->.
  - by intros ->%list_elem_of_singleton.
Qed.

Lemma handleTaskFuture_logged (id : string) (rs : list Main.Received) :
  forall evs, Main.handleTaskFuture id rs = Some evs -> Main.logged id rs = evs.
Proof.
  induction rs as [|r rs IH]; intros evs; simpl; [done|].
  destruct r as [output ok|output ok|result].
  - destruct (Main.handleTaskFuture id rs) as [evs'|]; simpl; [|done].
    intros [= <-]. by rewrite (IH evs').
  - destruct (Main.handleTaskFuture id rs) as [evs'|]; simpl; [|done].
    intros [= <-]. by rewrite (IH evs').
  - by intros [= <-].
Qed.



(** The calls of the logger for a batch: those of the futures of its
    modules, each under the path of its module. *)
Lemma calls_elem (w : Main.World) (r : Runner.Runner) (cmd : string)
    (modules : list Analyser.Module) (ev : Main.Event) :
  ev ∈ mjoin ((fun tf => Main.logged (Runner.future_Id tf)
                           (Main.received w (Runner.slot tf)))
              <$> (Runner.RunTasks r (Main.createTasks modules cmd)).2)
  <-> exists i m,
        modules !! i = Some m
        /\ ev ∈ Main.logged (Analyser.Path m)
                 (Main.received w (length (Runner.slots r) + i)).
Proof.
  set (tfs := (Runner.RunTasks r (Main.createTasks modules cmd)).2).
  assert (forall i, tfs !! i
            = (fun m => {| Runner.future_Id := Analyser.Path m;
                           Runner.slot := length (Runner.slots r) + i |})
              <$> modules !! i) as Htfs.
  { intros i. unfold tfs, Main.createTasks. simpl.
    rewrite list_lookup_imap, list_lookup_fmap. by destruct (modules !! i). }
  rewrite list_elem_of_join. split.
  - intros (l & Hin & Hl). apply list_elem_of_fmap in Hl as (tf & -> & Htf).
    apply list_elem_of_lookup in Htf as [i Hi]. rewrite Htfs in Hi.
    destruct (modules !! i) as [m|] eqn:Hm; simpl in Hi; [|done].
    injection Hi as <-. by exists i, m.
  - intros (i & m & Hm & Hin). eexists. split; [exact Hin|].
    apply list_elem_of_fmap.
    exists {| Runner.future_Id := Analyser.Path m;
              Runner.slot := length (Runner.slots r) + i |}.
    split; [done|]. apply list_elem_of_lookup. exists i.
    by rewrite Htfs, Hm.
Qed.


End ExitStatus.




(** With [--color] where [int] has 32 bits, the first line logged for the
    module [example.com/utils], whose tests pass, indexes [taskColors] at
    -6: the process panics and ends with the exit status 2. Where [int]
    has 64 bits, and without [--color], it ends with 0. *)
Example main_panics_with_color_int32 :
  Utils.colorIndex 32 "example.com/utils" = (-6)%Z
  /\ Main.main 32 Scenario.passing_utils Scenario.background "go test ./..."
       (Scenario.color_flags ".") = Some 2%Z
  /\ Main.main 64 Scenario.passing_utils Scenario.background "go test ./..."
       (Scenario.color_flags ".") = Some 0%Z
  /\ Main.main 32 Scenario.passing_utils Scenario.background "go test ./..."
       (Scenario.test_flags ".") = Some 0%Z.
Proof. split; [reflexivity|]. split; [|split]; by vm_compute. Qed.

(** A panic ends the process whatever the other goroutines do: while the
    future of [core] never delivers and the action of [knit test] never
    returns, the process still ends with the exit status 2 when the logger
    panics on the result of [utils]; without [--color] it does not end. *)
Example main_panics_while_waiting :
  (exists r,
     Runner.NewRunner Scenario.background 3 = inr r
     /\ Main.commandAction Scenario.stuck_core r "go test ./..."
          (Scenario.color_flags ".") = None)
  /\ Main.main 32 Scenario.stuck_core Scenario.background "go test ./..."
       (Scenario.color_flags ".") = Some 2%Z
  /\ Main.main 32 Scenario.stuck_core Scenario.background "go test ./..."
       (Scenario.test_flags ".") = None.
Proof.
  split; [|split; by vm_compute]. eexists. split; [reflexivity|]. by vm_compute.
Qed.

(** The calls of the logger a future makes do not depend on the order in
    which they are taken with those of the other futures: a permutation of
    the calls panics when the calls do. *)
Lemma logger_run_order (intBits : Z) (colorEnabled : bool)
    (calls calls' : list Main.Event) :
  calls ≡ₚ calls' ->
  Main.logger_run intBits colorEnabled ∅ calls = None
  <-> Main.logger_run intBits colorEnabled ∅ calls' = None.
Proof.
  intros Hperm. destruct colorEnabled.
  - assert (forall k, is_Some ((∅ : gmap string string) !! k) ->
              Utils.getColorForTask intBits k ∅ <> None) as Hempty.
    { intros k [? Hk]. by rewrite lookup_empty in Hk. }
    rewrite !logger_run_None by done.
    by setoid_rewrite Hperm.
  - by rewrite !logger_run_no_colour.
Qed.

(** Should the module listing be empty, [affected] and [graph] fail with
    "no modules found in workspace", while [test] and [fmt] hand an empty
    batch to the engine and end with the exit code 0. *)
Lemma empty_listing_guard (w : Main.World) (c : Runner.Context) (cmd : string)
    (f : Main.Flags) (absPath : string) :
  Main.Abs w (Main.defaultDir f) = inr absPath ->
  Main.ListModule w absPath = inr [] ->
  Main.affected f = false ->
  (forall intBits, Main.main intBits w c cmd f = Some 0%Z)
  /\ (forall r,
        Main.commandAction w r cmd f
        = Some {| Main.events := [Main.RunTasksCalled []];
                  Main.task_events := []; Main.err := None |})
  /\ (forall base useMergeBase format includeDeps,
        Main.runAffected w (Main.defaultDir f) base useMergeBase format includeDeps
        = Main.failed "no modules found in workspace")
  /\ (forall format,
        Main.runGraph w (Main.defaultDir f) format
        = Main.failed "no modules found in workspace").
Proof.
  intros Habs Hlist Haff.
  assert (forall r,
            Main.commandAction w r cmd f
            = Some {| Main.events := [Main.RunTasksCalled []];
                      Main.task_events := []; Main.err := None |}) as Hact.
  { intros r. unfold Main.commandAction. rewrite Habs, Hlist, Haff.
    by destruct (negb (String.eqb (Main.target f) "")). }
  split; [|split; [done|split]].
  - intros intBits. unfold Main.main. simpl. rewrite Hact.
    unfold Main.modulesToRun. rewrite Habs, Hlist, Haff.
    by destruct (negb (String.eqb (Main.target f) "")).
  - intros. unfold Main.runAffected. by rewrite Habs, Hlist.
  - intros. unfold Main.runGraph. by rewrite Habs, Hlist.
Qed.

(** C4, at the failing input: in a directory with no module the go tool
    lists the pseudo-module [command-line-arguments], and no command takes
    that for a workspace without modules. [knit test] and [knit fmt]
    (without [--affected] and [--target]) raise no error: they hand the
    engine a task for the pseudo-module, and the exit code is never 1; it
    is 0 once the future of the task delivers its result. [affected] and
    [graph] get past their check of the number of modules: they never fail
    with "no modules found in workspace". *)
Theorem C4_module_less_workspace_is_not_an_error :
  forall (w : Main.World) (c : Runner.Context) (cmd : string) (f : Main.Flags)
         (absPath : string) (m : Analyser.Module),
    Main.Abs w (Main.defaultDir f) = inr absPath ->
    Main.ListModule w absPath = inr [m] ->
    Analyser.Path m = "command-line-arguments" ->
    Main.affected f = false ->
    Main.target f = "" ->
    Main.modulesToRun w f = inr [m]
    /\ (forall r o,
          Main.commandAction w r cmd f = Some o ->
          Main.err o = None
          /\ Main.events o
             = [Main.RunTasksCalled
                  [{| Runner.Id := "command-line-arguments";
                      Runner.Cmd := cmd;
                      Runner.Root := Analyser.Dir m |}]])
    /\ (forall intBits code,
          Main.main intBits w c cmd f = Some code -> code <> 1%Z)
    /\ (forall intBits,
          intBits = 32%Z \/ intBits = 64%Z ->
          is_Some (Main.delivered (Main.received w 0)) ->
          Main.main intBits w c cmd f = Some 0%Z)
    /\ (forall base useMergeBase format includeDeps,
          Main.err (Main.runAffected w (Main.defaultDir f) base useMergeBase
                      format includeDeps)
          <> Some "no modules found in workspace")
    /\ (forall format,
          Main.err (Main.runGraph w (Main.defaultDir f) format)
          <> Some "no modules found in workspace").
Proof.
  intros w c cmd f absPath m Habs Hlist Hpath Haff Htarget.
  assert (Main.modulesToRun w f = inr [m]) as Hmod.
  { unfold Main.modulesToRun. by rewrite Habs, Hlist, Haff, Htarget. }
  assert (forall r o,
            Main.commandAction w r cmd f = Some o ->
            Main.err o = None
            /\ Main.events o
               = [Main.RunTasksCalled
                    [{| Runner.Id := "command-line-arguments";
                        Runner.Cmd := cmd;
                        Runner.Root := Analyser.Dir m |}]]) as Hact.
  { intros r o. rewrite commandAction_modulesToRun, Hmod.
    destruct (Main.runOnModules w r cmd [m]) as [[evs logs]|] eqn:Hrun; [|done].
    intros [= <-]. split; [done|]. simpl.
    apply runOnModules_shape in Hrun as [-> _].
    unfold Main.createTasks. simpl. by rewrite Hpath. }
  split; [done|]. split; [done|]. split; [|split; [|split]].
  - intros intBits code. unfold Main.main. simpl. rewrite Hmod.
    destruct (Main.logger_run _ _ _ _); [|by intros [= <-]].
    destruct (Main.commandAction w _ cmd f) as [o|] eqn:Ho; simpl; [|done].
    intros [= <-]. apply Hact in Ho as [Herr _].
    unfold Main.exitCode. by rewrite Herr.
  - intros intBits Hbits Hdone. unfold Main.main. simpl. rewrite Hmod.
    set (r := {| Runner.ceiling := 3; Runner.ctx := c; Runner.slots := [] |}).
    pose proof (calls_elem w r cmd [m]) as Hcalls.
    match goal with
    | |- context [Main.logger_run _ _ _ ?l] => set (calls := l)
    end.
    assert (forall k, is_Some ((∅ : gmap string string) !! k) ->
              Utils.getColorForTask intBits k ∅ <> None) as Hempty.
    { intros k [? Hk]. by rewrite lookup_empty in Hk. }
    destruct (Main.logger_run intBits (Main.useColor f) ∅ calls)
      as [cache|] eqn:Hrun.
    + apply handleTaskFuture_delivered with (id := Analyser.Path m) in Hdone
        as [evs Hevs].
      rewrite commandAction_modulesToRun, Hmod.
      unfold Main.runOnModules, Main.createTasks. simpl. by rewrite Hevs.
    + exfalso. destruct (Main.useColor f);
        [|by rewrite logger_run_no_colour in Hrun].
      apply logger_run_None in Hrun as (ev & id & Hin & Hid & Hbad); [|done].
      apply Hcalls in Hin as (i & m' & Hm' & Hin).
      rewrite (logged_id_logged _ _ _ Hin) in Hid. injection Hid as <-.
      destruct i; [|done]. injection Hm' as <-. rewrite Hpath in Hbad.
      by destruct Hbits as [-> | ->]; vm_compute in Hbad.
  - intros base useMergeBase format includeDeps.
    unfold Main.runAffected. rewrite Habs, Hlist. simpl.
    destruct (Git.GetChangedFiles _ _ _ _) as [e|changedFiles]; [by intros [=]|].
    assert (forall modules,
              Main.err (Main.outputAffected modules format)
              <> Some "no modules found in workspace") as Hout.
    { intros modules. unfold Main.outputAffected.
      destruct (String.eqb format Main.FormatList); [done|].
      destruct (String.eqb format Main.FormatGoArgs); [done|].
      destruct (String.eqb format Main.FormatGitHubMatrix); [done|].
      by intros [=]. }
    destruct (includeDeps && _); [|apply Hout].
    destruct (Main.BuildDependencyGraph w [m]); [by intros [=]|apply Hout].
  - intros format. unfold Main.runGraph. rewrite Habs, Hlist. simpl.
    destruct (Main.BuildDependencyGraph w [m]); [by intros [=]|].
    destruct (_ || _); [done|by intros [=]].
Qed.

Lemma C4_module_less_workspace_is_not_an_error_witness :
  Main.modulesToRun Scenario.module_less (Scenario.test_flags ".")
  = inr [Scenario.command_line_arguments]
  /\ Main.main 64 Scenario.module_less Scenario.background "go test ./..."
       (Scenario.test_flags ".") = Some 0%Z.
Proof.
  destruct (C4_module_less_workspace_is_not_an_error Scenario.module_less
              Scenario.background "go test ./..." (Scenario.test_flags ".")
              "/empty" Scenario.command_line_arguments)
    as (Hmod & _ & _ & Hexit & _); try reflexivity.
  split; [exact Hmod|]. apply Hexit; [by right|]. by eexists.
Defined.

(** The module-less directory, command by command: [knit test] starts a
    task for the pseudo-module in the current directory, reports its
    failure and ends with the exit code 0; [knit affected] prints the
    pseudo-module as affected by the changed file. *)
Example module_less_workspace_run :
  (exists r,
     Runner.NewRunner Scenario.background 3 = inr r
     /\ Main.commandAction Scenario.module_less r "go test ./..."
          (Scenario.test_flags ".")
        = Some {| Main.events :=
                    [Main.RunTasksCalled
                       [{| Runner.Id := "command-line-arguments";
                           Runner.Cmd := "go test ./...";
                           Runner.Root := "" |}]];
                  Main.task_events :=
                    [[Main.LogStatus "command-line-arguments"
                        "✗ Failed (exit 1)" false]];
                  Main.err := None |})
  /\ Main.runAffected Scenario.module_less "." "main" true Main.FormatList false
     = Main.printed [Main.Println "command-line-arguments"].
Proof.
  split; [|by vm_compute]. eexists. split; [reflexivity|]. by vm_compute.
Qed.
